(** * baezi: Banking4 -> ezbookkeeping import, verified model

    A shallow embedding of the reconciliation core of [baezi]:
    - [baezi/models.py]                      (records, enums, [TransferPair],
                                              [ImportStats], [Account]),
    - [baezi/importers/transfer_matcher.py]  ([TransferMatcher]),
    - [baezi/services/category_service.py]   ([CategoryService]),
    - [baezi/services/account_service.py]    ([AccountService]),
    - [baezi/services/transaction_service.py] ([TransactionImportService]),
    - [baezi/api/client.py]                  ([get_all_transactions]),
    - [baezi/config.py]                      ([Config]).

    The target ledger behind the HTTP client is a state machine that stores
    the transactions it accepts and answers each call in an arbitrary way
    ([Remote]).  The services run in a state monad over the remote, the
    category service, the statistics and the existing-id set; [None] is an
    exception that nothing catches.

    Conventions.
    - A Python [str] is a [string]; its characters are the 8-bit characters
      of [Ascii].
    - A Python [float] is a [spec_float] of the binary64 format
      ([prec = 53], [emax = 1024]).
    - A [datetime] produced by [strptime(_, "%Y-%m-%d")] is a midnight, and
      is represented by its day number ([datetime.toordinal]), a [Z].
    - A [set[str]] is a [gset string], a [dict[str, str]] a
      [gmap string string].
    - A JSON object of an API response is a record: a key the code
      subscripts is a field, a key it reads with [.get] is an [option].
    - A method that starts with an API call takes the response of that call
      as an argument. *)

From Stdlib Require Import ZArith Bool List Ascii String Lia.
From Stdlib Require Import Floats.SpecFloat.
From stdpp Require Import base decidable option list sets gmap strings pretty.

#[local] Set Warnings "-level-tolerance,-clear-no-such-hyp".

Local Open Scope string_scope.
Local Open Scope list_scope.
Local Open Scope Z_scope.

(** ** models.py *)

Module Models.

(** [class TransactionType(Enum)]: INCOME = 2, EXPENSE = 3, TRANSFER = 4. *)
Inductive TransactionType := INCOME | EXPENSE | TRANSFER.

Definition TransactionType_value (t : TransactionType) : Z :=
  match t with INCOME => 2 | EXPENSE => 3 | TRANSFER => 4 end.

(** [class Direction(Enum)]: CREDIT = "CRDT", DEBIT = "DBIT". *)
Inductive Direction := CREDIT | DEBIT.

Definition Direction_of_value (s : string) : option Direction :=
  if String.eqb s "CRDT" then Some CREDIT
  else if String.eqb s "DBIT" then Some DEBIT
  else None.

Definition Direction_eqb (a b : Direction) : bool :=
  match a, b with
  | CREDIT, CREDIT | DEBIT, DEBIT => true
  | _, _ => false
  end.

(** [class BookingStatus(Enum)]: BOOKED = "BOOK", PENDING = "PDNG". *)
Inductive BookingStatus := BOOKED | PENDING.

Definition BookingStatus_of_value (s : string) : option BookingStatus :=
  if String.eqb s "BOOK" then Some BOOKED
  else if String.eqb s "PDNG" then Some PENDING
  else None.

(** Python floats: binary64. *)
Definition prec : Z := 53.
Definition emax : Z := 1024.
Definition float := spec_float.

Definition float_eqb (x y : float) : bool := SFeqb x y.
Definition float_abs (x : float) : float := SFabs x.
Definition float_mul (x y : float) : float := SFmul prec emax x y.
Definition float_of_Z (n : Z) : float := binary_normalize prec emax n 0 false.

(** [@dataclass class B4Transaction]. *)
Record B4Transaction := mkB4 {
  id : string;
  booking_date : Z;
  amount : float;
  description : string;
  direction : Direction;
  category : string;
  booking_status : BookingStatus;
  account_id : string
}.

Definition is_booked (t : B4Transaction) : bool :=
  match booking_status t with BOOKED => true | PENDING => false end.

Definition is_transfer (t : B4Transaction) : bool :=
  String.eqb (category t) "Umbuchung".

Definition transaction_type (t : B4Transaction) : TransactionType :=
  if is_transfer t then TRANSFER
  else match direction t with CREDIT => INCOME | DEBIT => EXPENSE end.

Definition is_income (t : B4Transaction) : bool :=
  Direction_eqb (direction t) CREDIT.

Definition is_expense (t : B4Transaction) : bool :=
  Direction_eqb (direction t) DEBIT.

(** [@dataclass class TransferPair]. *)
Record TransferPair := mkPair {
  source_tx : B4Transaction;
  dest_tx : B4Transaction
}.

Definition sender (p : TransferPair) : B4Transaction :=
  if Direction_eqb (direction (source_tx p)) DEBIT then source_tx p else dest_tx p.

Definition receiver (p : TransferPair) : B4Transaction :=
  if Direction_eqb (direction (dest_tx p)) CREDIT then dest_tx p else source_tx p.

Definition combined_id (p : TransferPair) : string :=
  id (source_tx p) +:+ "_" +:+ id (dest_tx p).

Definition pair_amount (p : TransferPair) : float := amount (source_tx p).

Definition pair_date (p : TransferPair) : Z :=
  Z.min (booking_date (source_tx p)) (booking_date (dest_tx p)).

(** [@dataclass class ImportStats]. *)
Record ImportStats := mkStats {
  skipped : nat;
  new_transactions : nat;
  new_transfers : nat;
  new_categories : nat;
  errors : nat
}.

Definition stats0 : ImportStats := mkStats 0 0 0 0 0.

Definition increment_skipped (s : ImportStats) : ImportStats :=
  mkStats (S (skipped s)) (new_transactions s) (new_transfers s) (new_categories s) (errors s).
Definition increment_transactions (s : ImportStats) : ImportStats :=
  mkStats (skipped s) (S (new_transactions s)) (new_transfers s) (new_categories s) (errors s).
Definition increment_transfers (s : ImportStats) : ImportStats :=
  mkStats (skipped s) (new_transactions s) (S (new_transfers s)) (new_categories s) (errors s).
Definition increment_categories (s : ImportStats) : ImportStats :=
  mkStats (skipped s) (new_transactions s) (new_transfers s) (S (new_categories s)) (errors s).
Definition increment_errors (s : ImportStats) : ImportStats :=
  mkStats (skipped s) (new_transactions s) (new_transfers s) (new_categories s) (S (errors s)).

End Models.
Export Models.

(** ** importers/transfer_matcher.py *)

Module Matcher.

Section TransferMatcher.

(** [self.tolerance_days] *)
Variable tolerance_days : Z.

(** [_is_match] *)
Definition _is_match (tx1 tx2 : B4Transaction) : bool :=
  float_eqb (amount tx1) (amount tx2)
  && negb (String.eqb (account_id tx1) (account_id tx2))
  && negb (Direction_eqb (direction tx1) (direction tx2))
  && (Z.abs (booking_date tx1 - booking_date tx2) <=? tolerance_days).

(** [_find_partner]: first candidate that is neither processed nor
    existing and matches [tx]. *)
Fixpoint _find_partner (tx : B4Transaction) (candidates : list B4Transaction)
    (processed existing_ids : gset string) : option B4Transaction :=
  match candidates with
  | [] => None
  | candidate :: rest =>
      if bool_decide (id candidate ∈ processed) || bool_decide (id candidate ∈ existing_ids)
      then _find_partner tx rest processed existing_ids
      else if _is_match tx candidate then Some candidate
      else _find_partner tx rest processed existing_ids
  end.

(** Loop state of [find_matches]: the three local variables. *)
Record match_state := mkMS {
  matches : list TransferPair;
  unmatched : list B4Transaction;
  processed : gset string
}.

(** Body of [for i, tx1 in enumerate(transfers)]; [transfers[i + 1 :]] is the
    tail of the list still to be visited. *)
Fixpoint find_matches_loop (transfers : list B4Transaction)
    (existing_ids : gset string) (st : match_state) : match_state :=
  match transfers with
  | [] => st
  | tx1 :: later =>
      if bool_decide (id tx1 ∈ processed st) || bool_decide (id tx1 ∈ existing_ids)
      then find_matches_loop later existing_ids st
      else
        match _find_partner tx1 later (processed st) existing_ids with
        | Some partner =>
            find_matches_loop later existing_ids
              (mkMS (matches st ++ [mkPair tx1 partner])
                    (unmatched st)
                    (processed st ∪ {[id tx1; id partner]}))
        | None =>
            find_matches_loop later existing_ids
              (mkMS (matches st)
                    (unmatched st ++ [tx1])
                    (processed st ∪ {[id tx1]}))
        end
  end.

(** [find_matches] *)
Definition find_matches (transfers : list B4Transaction) (existing_ids : gset string)
    : list TransferPair * list B4Transaction :=
  let st := find_matches_loop transfers existing_ids (mkMS [] [] ∅) in
  (matches st, unmatched st).

End TransferMatcher.

End Matcher.
Export Matcher.

(** ** Python string primitives used by the code *)

Module PyStr.

(** [s[:n]] *)
Fixpoint str_take (n : nat) (s : string) : string :=
  match n, s with
  | S n', String c s' => String c (str_take n' s')
  | _, _ => EmptyString
  end.

(** [sub in s] *)
Fixpoint str_contains (sub s : string) : bool :=
  String.prefix sub s ||
  match s with
  | EmptyString => false
  | String _ s' => str_contains sub s'
  end.

(** [s.split(sep)] for a non-empty [sep]: the pieces between the
    non-overlapping occurrences of [sep], found left to right.  [skip] counts
    the characters of a separator occurrence still to be dropped. *)
Fixpoint split_go (sep : string) (skip : nat) (s : string) : list string :=
  match s with
  | EmptyString => [EmptyString]
  | String c s' =>
      match skip with
      | S k => split_go sep k s'
      | O =>
          if String.prefix sep s
          then EmptyString :: split_go sep (Nat.pred (String.length sep)) s'
          else match split_go sep 0 s' with
               | piece :: pieces => String c piece :: pieces
               | [] => [String c EmptyString]
               end
      end
  end.

Definition str_split (sep s : string) : list string := split_go sep 0 s.

(** [c.isspace()] on the characters 0..255. *)
Definition is_space (c : ascii) : bool :=
  let n := nat_of_ascii c in
  ((9 <=? n) && (n <=? 13) || (28 <=? n) && (n <=? 32) || (n =? 133) || (n =? 160))%nat.

Fixpoint lstrip (s : string) : string :=
  match s with
  | EmptyString => EmptyString
  | String c s' => if is_space c then lstrip s' else s
  end.

Fixpoint rstrip (s : string) : string :=
  match s with
  | EmptyString => EmptyString
  | String c s' =>
      match rstrip s' with
      | EmptyString => if is_space c then EmptyString else String c EmptyString
      | r => String c r
      end
  end.

(** [s.strip()] *)
Definition strip (s : string) : string := rstrip (lstrip s).

(** [str(x)] for [x : str | None]. *)
Definition str_of_opt (x : option string) : string :=
  match x with Some s => s | None => "None" end.

(** [x != s] for [x = d.get(key)], a string or [None]. *)
Definition opt_str_neqb (x : option string) (s : string) : bool :=
  match x with Some v => negb (String.eqb v s) | None => true end.

(** [c] occurs in [s]. *)
Fixpoint char_in (c : ascii) (s : string) : bool :=
  match s with
  | EmptyString => false
  | String d s' => Ascii.eqb c d || char_in c s'
  end.

(** [round(x)] of a float, as an [int]: nearest integer, ties to even;
    [None] stands for the [ValueError] (NaN) or [OverflowError] (infinity). *)
Definition round_half_even (m : positive) (e : Z) : Z :=
  if 0 <=? e then Z.pos m * 2 ^ e
  else
    let d := 2 ^ (- e) in
    let q := Z.pos m / d in
    let r := Z.pos m mod d in
    if 2 * r <? d then q
    else if d <? 2 * r then q + 1
    else if Z.even q then q else q + 1.

Definition py_round (x : float) : option Z :=
  match x with
  | S754_zero _ => Some 0
  | S754_infinity _ => None
  | S754_nan => None
  | S754_finite s m e =>
      Some (if s then - round_half_even m e else round_half_even m e)
  end.

End PyStr.
Export PyStr.

(** ** api/client.py and the remote ledger behind it *)

Module Api.

(** The request body of [transactions/add.json], a [dict]. *)
Record Payload := mkPayload {
  p_type : Z;
  p_time : Z;
  p_utcOffset : Z;
  p_categoryId : string;
  p_tagIds : list string;
  p_comment : string;
  p_sourceAccountId : string;
  p_sourceAmount : Z;
  p_destinationAccountId : option string;
  p_destinationAmount : option Z
}.

(** The request body of [transaction/categories/add.json]. *)
Record CategoryPayload := mkCatPayload {
  c_name : string;
  c_type : Z;
  c_parentId : string;
  c_icon : string;
  c_color : string
}.

(** What a call of [create_transaction] can do: return a body whose
    ["success"] is true, return a body without it, or raise [APIError]. *)
Inductive tx_response := TxSuccess | TxFailure | TxAPIError.

(** What a call of [create_category] can do; [CatRaises] also stands for a
    body with ["success"] but without [["result"]["id"]]. *)
Inductive cat_response := CatSuccess (new_id : string) | CatFailure | CatRaises.

(** What a call of [get_transactions(page)] can do. *)
Inductive list_response := ListPage | ListFailure | ListAPIError.

(** The target ledger.  It stores the transactions it accepted; how it
    answers the n-th call of each kind is arbitrary ([r_*_answer]); the calls
    it received are logged. *)
Record Remote := mkRemote {
  r_transactions : list Payload;
  r_tx_calls : list Payload;
  r_cat_calls : list CategoryPayload;
  r_tx_answer : nat -> tx_response;
  r_cat_answer : nat -> cat_response;
  r_list_answer : nat -> list_response
}.

(** Result of a call that may raise. *)
Inductive raising (A : Type) := Returns (a : A) | Raises.
Arguments Returns {A} a.
Arguments Raises {A}.

(** The remote side of [transactions/list.json?page=..&count=..]. *)
Definition page_items (page_size page : nat) (txs : list Payload) : list Payload :=
  take page_size (drop ((page - 1) * page_size) txs).

(** [get_all_transactions]: the [while True] loop, with [fuel] iterations. *)
Fixpoint get_all_transactions_loop (fuel : nat) (r : Remote) (page_size page : nat)
    (all_transactions : list Payload) : option (raising (list Payload)) :=
  match fuel with
  | O => None
  | S fuel' =>
      match r_list_answer r page with
      | ListAPIError => Some Raises
      | ListFailure => Some (Returns all_transactions)
      | ListPage =>
          let items := page_items page_size page (r_transactions r) in
          match items with
          | [] => Some (Returns all_transactions)
          | _ =>
              let all_transactions := all_transactions ++ items in
              if (length items <? page_size)%nat
              then Some (Returns all_transactions)
              else get_all_transactions_loop fuel' r page_size (S page) all_transactions
          end
      end
  end.

(** One iteration per stored transaction, and one more, is always enough
    (lemma [get_all_transactions_fuel]). *)
Definition get_all_transactions (r : Remote) (page_size : nat) : raising (list Payload) :=
  match get_all_transactions_loop (S (length (r_transactions r))) r page_size 1 [] with
  | Some res => res
  | None => Raises
  end.

(** [create_transaction]: the remote logs the call, answers, and stores the
    transaction when it answers with success. *)
Definition create_transaction (payload : Payload) (r : Remote) : tx_response * Remote :=
  let answer := r_tx_answer r (length (r_tx_calls r)) in
  (answer,
   mkRemote (match answer with
             | TxSuccess => r_transactions r ++ [payload]
             | _ => r_transactions r
             end)
            (r_tx_calls r ++ [payload]) (r_cat_calls r)
            (r_tx_answer r) (r_cat_answer r) (r_list_answer r)).

(** [create_category] *)
Definition create_category (payload : CategoryPayload) (r : Remote) : cat_response * Remote :=
  let answer := r_cat_answer r (length (r_cat_calls r)) in
  (answer,
   mkRemote (r_transactions r) (r_tx_calls r) (r_cat_calls r ++ [payload])
            (r_tx_answer r) (r_cat_answer r) (r_list_answer r)).

End Api.
Export Api.

(** ** The state the services share, and the monad threading it *)

Module Run.

(** [class CategoryService]: its three attributes. *)
Record CategoryService := mkCategoryService {
  _category_map : gmap string string;
  _transfer_category_id : string;
  _external_transfer_cats : string * string
}.

(** Everything a run mutates: the remote ledger, the category service, the
    statistics, and the one [existing_ids] set object that [run_import]
    creates and hands by reference to every helper. *)
Record State := mkState {
  remote : Remote;
  category_service : CategoryService;
  stats : ImportStats;
  existing_ids : gset string
}.

(** A computation either finishes with a value and a state, or is left by
    an exception nobody catches ([None]). *)
Definition M (A : Type) : Type := State -> option (A * State).

Definition ret {A} (a : A) : M A := fun st => Some (a, st).
Definition bind {A B} (m : M A) (k : A -> M B) : M B :=
  fun st => match m st with Some (a, st') => k a st' | None => None end.
Definition uncaught {A} : M A := fun _ => None.
Definition get_state : M State := fun st => Some (st, st).
Definition modify (f : State -> State) : M unit := fun st => Some (tt, f st).

Definition with_stats (f : ImportStats -> ImportStats) : M unit :=
  modify (fun st => mkState (remote st) (category_service st) (f (stats st)) (existing_ids st)).
Definition with_existing (f : gset string -> gset string) : M unit :=
  modify (fun st => mkState (remote st) (category_service st) (stats st) (f (existing_ids st))).
Definition with_category_map (f : gmap string string -> gmap string string) : M unit :=
  modify (fun st =>
    let cs := category_service st in
    mkState (remote st)
            (mkCategoryService (f (_category_map cs)) (_transfer_category_id cs)
                               (_external_transfer_cats cs))
            (stats st) (existing_ids st)).
Definition call_remote {A} (f : Remote -> A * Remote) : M A :=
  fun st =>
    let '(a, r) := f (remote st) in
    Some (a, mkState r (category_service st) (stats st) (existing_ids st)).

End Run.
Export Run.

Declare Scope run_scope.
Delimit Scope run_scope with run.
Notation "'let*' x ':=' m 'in' k" := (bind m (fun x => k))
  (at level 10, x name, m at level 100, k at level 200) : run_scope.
Notation "m ';;' k" := (bind m (fun _ => k))
  (at level 100, k at level 200, right associativity) : run_scope.
Local Open Scope run_scope.

(** ** services/category_service.py *)

Module Category.

(** [self._category_map[key]]; a missing key is a [KeyError]. *)
Definition category_map_at (key : string) : M string :=
  let* st := get_state in
  match _category_map (category_service st) !! key with
  | Some v => ret v
  | None => uncaught
  end.

(** [ensure_category_hierarchy(full_path, trans_type, stats)]; [stats] is
    the [stats] of the state.  Each of the two creation blocks yields [false]
    when it leaves the function through one of its [return] statements;
    [parts[0]] of an empty list would be an [IndexError]. *)
Definition ensure_category_hierarchy (full_path : string) (trans_type : Z) : M string :=
  if String.eqb full_path "" || String.eqb full_path "Umbuchung" then ret "0"
  else
    let cat_type := if trans_type =? 2 then 1 else 2 in
    let parts := map strip (str_split ":" full_path) in
    match parts with
    | [] => uncaught
    | main_name :: more =>
        let main_key := pretty cat_type +:+ "_" +:+ main_name in
        let* main_ok :=
          let* st := get_state in
          if bool_decide (main_key ∈ dom (_category_map (category_service st)))
          then ret true
          else
            let payload := mkCatPayload main_name cat_type "0" "1" "8e8e93" in
            let* res := call_remote (create_category payload) in
            match res with
            | CatSuccess new_id =>
                with_category_map (insert main_key new_id) ;;
                with_stats increment_categories ;;
                ret true
            | CatFailure => ret false
            | CatRaises => ret false
            end in
        if negb main_ok then ret "0"
        else
          let* parent_id := category_map_at main_key in
          match more with
          | sub_name :: _ =>
              let sub_key := pretty cat_type +:+ "_" +:+ main_name +:+ ":" +:+ sub_name in
              let* sub_ok :=
                let* st := get_state in
                if bool_decide (sub_key ∈ dom (_category_map (category_service st)))
                then ret true
                else
                  let payload := mkCatPayload sub_name cat_type parent_id "1" "8e8e93" in
                  let* res := call_remote (create_category payload) in
                  match res with
                  | CatSuccess new_id =>
                      with_category_map (insert sub_key new_id) ;;
                      with_stats increment_categories ;;
                      ret true
                  | CatFailure => ret false
                  | CatRaises => ret false
                  end in
              if negb sub_ok then ret parent_id
              else category_map_at sub_key
          | [] => ret parent_id
          end
    end.

(** [get_external_transfer_category(is_income)] *)
Definition get_external_transfer_category (cs : CategoryService) (is_income : bool) : string :=
  if is_income then fst (_external_transfer_cats cs) else snd (_external_transfer_cats cs).

End Category.
Export Category.

(** ** The source export: one JSON object per record *)

Module Json.

(** The [dict] decoded from one entry of an export file; a key that is
    absent is [None].  A value is given by its text. *)
Record RawTx := mkRaw {
  Id : option string;
  BookgDt : option string;
  Amt : option string;
  RmtInf : option string;
  CdtDbtInd : option string;
  Category : option string;
  BookgSts : option string
}.

End Json.
Export Json.

(** ** services/transaction_service.py (and [B4Transaction.from_json]) *)

Module Service.

(** [class Config], the fields the import reads; [json_files] is the content
    of [json_folder]: for each [*.json] file its stem and its decoded list. *)
Record Config := mkConfig {
  min_booking_date : string;
  page_size : nat;
  transfer_tolerance_days : Z;
  json_files : list (string * list RawTx)
}.

Section TransactionImportService.

(** The Python runtime: [datetime.strptime(_, "%Y-%m-%d")] and [float(_)]
    ([None] is their [ValueError]), [strftime("%Y-%m-%d")],
    [datetime.timestamp] ([None] is the [ValueError] or [OverflowError] it
    raises for a date out of the platform's range) and the local UTC
    offset. *)
Variable strptime : string -> option Z.
Variable strftime : Z -> string.
Variable py_float : string -> option float.
Variable timestamp : Z -> option Z.
Variable utc_offset : Z.

(** [self.config] and [self.account_service._account_map]. *)
Variable config : Config.
Variable _account_map : gmap string string.

(** [B4Transaction.from_json(data, account_id)]; [None] is the [ValueError]. *)
Definition from_json (data : RawTx) (account_id : string) : option B4Transaction :=
  match Id data, BookgDt data, Amt data, RmtInf data, CdtDbtInd data with
  | Some i, Some d, Some a, Some r, Some c =>
      match strptime d, py_float a, Direction_of_value c,
            BookingStatus_of_value (default "BOOK" (BookgSts data)) with
      | Some date, Some raw, Some dir, Some status =>
          Some (mkB4 i date (float_abs raw) r dir (default "" (Category data)) status account_id)
      | _, _, _, _ => None
      end
  | _, _, _, _, _ => None
  end.

(** [AccountService.has_account] and [get_ezb_account_id] *)
Definition has_account (b4_account_id : string) : bool :=
  bool_decide (b4_account_id ∈ dom _account_map).
Definition get_ezb_account_id (b4_account_id : string) : option string :=
  _account_map !! b4_account_id.

(** The ids read from one comment: [comment.split("[B4ID:")[1].split("]")[0]
    .split("_")]; [None] is an [IndexError]. *)
Definition marker_ids (comment : string) : option (list string) :=
  match str_split "[B4ID:" comment with
  | _ :: after :: _ =>
      match str_split "]" after with
      | raw_id_str :: _ => Some (str_split "_" raw_id_str)
      | [] => None
      end
  | _ => None
  end.

(** The [for tx in transactions] loop of [_load_existing_ids]; an exception
    leaves the loop for the [except] branch, and what was collected so far is
    returned. *)
Fixpoint _load_existing_ids_loop (transactions : list Payload) (all_b4_ids : gset string)
    : gset string :=
  match transactions with
  | [] => all_b4_ids
  | tx :: rest =>
      let comment := p_comment tx in
      if str_contains "[B4ID:" comment then
        match marker_ids comment with
        | Some ids =>
            _load_existing_ids_loop rest
              (foldl (fun acc single_id => acc ∪ {[single_id]}) all_b4_ids ids)
        | None => all_b4_ids
        end
      else _load_existing_ids_loop rest all_b4_ids
  end.

(** [_load_existing_ids] *)
Definition _load_existing_ids : M (gset string) :=
  let* st := get_state in
  match get_all_transactions (remote st) (page_size config) with
  | Returns transactions => ret (_load_existing_ids_loop transactions ∅)
  | Raises => ret ∅
  end.

(** [_create_transaction_payload]; [None] (uncaught) is the exception of
    [round] on a NaN or an infinity, or the one of [booking_date.timestamp()]
    when the dict is built: no caller catches either. *)
Definition _create_transaction_payload (acc_id : option string) (amount : float)
    (booking_date : Z) (description : string) (category_id : string)
    (transaction_type : TransactionType) (b4_id : string)
    (partner_acc_id : option string) : M Payload :=
  match py_round (float_mul (float_abs amount) (float_of_Z 100)) with
  | None => uncaught
  | Some amt_cents =>
      let clean_desc := str_take 200 description in
      let final_comment := clean_desc +:+ " [B4ID:" +:+ b4_id +:+ "]" in
      let* st := get_state in
      let transfer_category_id := _transfer_category_id (category_service st) in
      let category_id :=
        match transaction_type with
        | TRANSFER =>
            if negb (String.eqb transfer_category_id "0")
            then transfer_category_id else category_id
        | _ => category_id
        end in
      match timestamp booking_date with
      | None => uncaught
      | Some time =>
          ret (mkPayload (TransactionType_value transaction_type)
                         time utc_offset category_id [] final_comment
                         (str_of_opt acc_id) amt_cents
                         (match transaction_type with
                          | TRANSFER => Some (str_of_opt partner_acc_id)
                          | _ => None
                          end)
                         (match transaction_type with
                          | TRANSFER => Some amt_cents
                          | _ => None
                          end))
      end
  end.

(** [_import_single_transaction] *)
Definition _import_single_transaction (tx : B4Transaction) (acc_id : option string) : M bool :=
  let* cat_id :=
    ensure_category_hierarchy (category tx) (TransactionType_value (transaction_type tx)) in
  let* payload :=
    _create_transaction_payload acc_id (amount tx) (booking_date tx) (description tx)
      cat_id (transaction_type tx) (id tx) (Some "0") in
  let* resp := call_remote (create_transaction payload) in
  match resp with
  | TxSuccess =>
      with_existing (fun ids => ids ∪ {[id tx]}) ;;
      with_stats increment_transactions ;;
      ret true
  | TxFailure => with_stats increment_errors ;; ret false
  | TxAPIError => with_stats increment_errors ;; ret false
  end.

(** [_import_transfer_pair] *)
Definition _import_transfer_pair (pair : TransferPair) : M bool :=
  let sender_acc_id := get_ezb_account_id (account_id (sender pair)) in
  let receiver_acc_id := get_ezb_account_id (account_id (receiver pair)) in
  let* st := get_state in
  let* payload :=
    _create_transaction_payload sender_acc_id (pair_amount pair) (pair_date pair)
      ("Transfer: " +:+ str_take 100 (description (sender pair)))
      (_transfer_category_id (category_service st)) TRANSFER (combined_id pair)
      receiver_acc_id in
  let* resp := call_remote (create_transaction payload) in
  match resp with
  | TxSuccess =>
      with_existing (fun ids => ids ∪ {[id (source_tx pair); id (dest_tx pair)]}) ;;
      with_stats increment_transfers ;;
      ret true
  | TxFailure => with_stats increment_errors ;; ret false
  | TxAPIError => with_stats increment_errors ;; ret false
  end.

(** [_import_unmatched_transfer] *)
Definition _import_unmatched_transfer (tx : B4Transaction) : M bool :=
  let acc_id := get_ezb_account_id (account_id tx) in
  let trans_type := transaction_type tx in
  let* st := get_state in
  let ext_cat_id := get_external_transfer_category (category_service st) (is_income tx) in
  let* payload :=
    _create_transaction_payload acc_id (amount tx) (booking_date tx)
      ("[Extern] " +:+ description tx) ext_cat_id trans_type (id tx) (Some "0") in
  let* resp := call_remote (create_transaction payload) in
  match resp with
  | TxSuccess => with_stats increment_transactions ;; ret true
  | TxFailure => with_stats increment_errors ;; ret false
  | TxAPIError => with_stats increment_errors ;; ret false
  end.

(** The [for tx_data in transactions_json] loop of [_import_transactions]. *)
Fixpoint _import_file_loop (b4_acc_id : string) (acc_id : option string)
    (transactions_json : list RawTx) (all_transfers : list B4Transaction)
    : M (list B4Transaction) :=
  match transactions_json with
  | [] => ret all_transfers
  | tx_data :: rest =>
      if opt_str_neqb (BookgSts tx_data) "BOOK"
      then _import_file_loop b4_acc_id acc_id rest all_transfers
      else
        match from_json tx_data b4_acc_id with
        | None =>
            with_stats increment_errors ;;
            _import_file_loop b4_acc_id acc_id rest all_transfers
        | Some tx =>
            if String.ltb (strftime (booking_date tx)) (min_booking_date config)
            then _import_file_loop b4_acc_id acc_id rest all_transfers
            else
              let* st := get_state in
              if bool_decide (id tx ∈ existing_ids st) then
                with_stats increment_skipped ;;
                _import_file_loop b4_acc_id acc_id rest all_transfers
              else if is_transfer tx then
                _import_file_loop b4_acc_id acc_id rest (all_transfers ++ [tx])
              else
                _import_single_transaction tx acc_id ;;
                _import_file_loop b4_acc_id acc_id rest all_transfers
        end
  end.

(** The [for filepath in json_folder.glob("*.json")] loop. *)
Fixpoint _import_files_loop (files : list (string * list RawTx))
    (all_transfers : list B4Transaction) : M (list B4Transaction) :=
  match files with
  | [] => ret all_transfers
  | (b4_acc_id, transactions_json) :: rest =>
      if negb (has_account b4_acc_id) then _import_files_loop rest all_transfers
      else
        let acc_id := get_ezb_account_id b4_acc_id in
        let* all_transfers :=
          _import_file_loop b4_acc_id acc_id transactions_json all_transfers in
        _import_files_loop rest all_transfers
  end.

(** [_import_transactions] *)
Definition _import_transactions : M (list B4Transaction) :=
  _import_files_loop (json_files config) [].

Fixpoint _import_pairs_loop (matched_pairs : list TransferPair) : M unit :=
  match matched_pairs with
  | [] => ret tt
  | pair_ :: rest => _import_transfer_pair pair_ ;; _import_pairs_loop rest
  end.

Fixpoint _import_unmatched_loop (unmatched : list B4Transaction) : M unit :=
  match unmatched with
  | [] => ret tt
  | tx :: rest => _import_unmatched_transfer tx ;; _import_unmatched_loop rest
  end.

(** [_import_transfers] *)
Definition _import_transfers (transfers : list B4Transaction) : M unit :=
  let* st := get_state in
  let '(matched_pairs, unmatched) :=
    find_matches (transfer_tolerance_days config) transfers (existing_ids st) in
  _import_pairs_loop matched_pairs ;;
  _import_unmatched_loop unmatched.

(** [run_import] *)
Definition run_import : M ImportStats :=
  let* ids := _load_existing_ids in
  with_existing (fun _ => ids) ;;
  let* all_transfers := _import_transactions in
  _import_transfers all_transfers ;;
  let* st := get_state in
  ret (stats st).

End TransactionImportService.

End Service.
Export Service.

(** ** Vocabulary of the statements about the matcher *)

Module MatcherTerms.

Section Terms.

Variable tol : Z.
Variable E : gset string.

(** The two records of a pair, left member first. *)
Definition members (p : TransferPair) : list B4Transaction := [source_tx p; dest_tx p].

(** The four conditions of the match predicate. *)
Definition match_conditions (a b : B4Transaction) : Prop :=
  float_eqb (amount a) (amount b) = true
  ∧ account_id a ≠ account_id b
  ∧ direction a ≠ direction b
  ∧ Z.abs (booking_date a - booking_date b) <= tol.

(** A candidate that [_find_partner] may return for [tx]. *)
Definition eligible (tx : B4Transaction) (P : gset string) (c : B4Transaction) : bool :=
  negb (bool_decide (id c ∈ P) || bool_decide (id c ∈ E)) && _is_match tol tx c.

(** Records that survive the two membership tests of the loop. *)
Definition fresh (P : gset string) (t : B4Transaction) : Prop := id t ∉ P ∧ id t ∉ E.

#[global] Instance fresh_dec P t : Decision (fresh P t).
Proof. unfold fresh. apply _. Defined.

End Terms.

End MatcherTerms.
Export MatcherTerms.

(** ** Vocabulary of the statements about markers *)

Module MarkerTerms.

(** An occurrence of [sep] in [a +:+ rest] starts inside [a]. *)
Fixpoint occurs_within (sep a rest : string) : bool :=
  match a with
  | EmptyString => false
  | String _ a' => String.prefix sep (a +:+ rest) || occurs_within sep a' rest
  end.

(** An id that the marker syntax can carry: it contains no underscore, no
    closing bracket and no marker prefix. *)
Definition plain_id (i : string) : Prop :=
  char_in "_" i = false ∧ char_in "]" i = false ∧ str_contains "[B4ID:" i = false.

(** The comment of a created transaction. *)
Definition marker_comment (description b4_id : string) : string :=
  str_take 200 description +:+ " [B4ID:" +:+ b4_id +:+ "]".

(** The ids [_load_existing_ids] reads from one stored transaction. *)
Definition ids_of_transaction (tx : Payload) : gset string :=
  _load_existing_ids_loop [tx] ∅.

(** The ids it reads from a list of stored transactions. *)
Definition ids_of_ledger (txs : list Payload) : gset string :=
  _load_existing_ids_loop txs ∅.

End MarkerTerms.
Export MarkerTerms.

(** ** Vocabulary of the statements about the category service *)

Module CategoryTerms.

(** [cat_type], [parts], [main_name], [main_key], [parts[1]] and [sub_key] of
    [ensure_category_hierarchy]. *)
Definition cat_type_of (trans_type : Z) : Z := if trans_type =? 2 then 1 else 2.
Definition path_parts (full_path : string) : list string :=
  map strip (str_split ":" full_path).
Definition main_name_of (full_path : string) : string :=
  default "" (head (path_parts full_path)).
Definition sub_name_of (full_path : string) : option string :=
  path_parts full_path !! 1%nat.
Definition main_key_of (full_path : string) (trans_type : Z) : string :=
  pretty (cat_type_of trans_type) +:+ "_" +:+ main_name_of full_path.
Definition sub_key_of (full_path : string) (trans_type : Z) (sub_name : string) : string :=
  pretty (cat_type_of trans_type) +:+ "_" +:+ main_name_of full_path +:+ ":" +:+ sub_name.

(** The block [if key not in self._category_map: ... try: ... except ...]
    that [ensure_category_hierarchy] has once for the top-level category and
    once for the sub-category, as a function of its own. *)
Definition create_if_absent (name key parent_id : string) (cat_type : Z) : M bool :=
  let* st := get_state in
  if bool_decide (key ∈ dom (_category_map (category_service st)))
  then ret true
  else
    let payload := mkCatPayload name cat_type parent_id "1" "8e8e93" in
    let* res := call_remote (create_category payload) in
    match res with
    | CatSuccess new_id =>
        with_category_map (insert key new_id) ;;
        with_stats increment_categories ;;
        ret true
    | CatFailure => ret false
    | CatRaises => ret false
    end.

(** The answer the remote will give to the next [create_category] call. *)
Definition next_cat_answer (st : State) : cat_response :=
  r_cat_answer (remote st) (length (r_cat_calls (remote st))).

Definition is_cat_success (a : cat_response) : bool :=
  match a with CatSuccess _ => true | _ => false end.

(** The number of [create_category] calls the remote has received. *)
Definition cat_calls (st : State) : nat := length (r_cat_calls (remote st)).

(** How many of the calls number [from], ..., [from + n - 1] succeed. *)
Definition cat_successes (st : State) (from n : nat) : nat :=
  length (filter (λ i, is_cat_success (r_cat_answer (remote st) i) = true) (seq from n)).

(** The state after the remote has received one more [create_category]. *)
Definition category_call_logged (payload : CategoryPayload) (st : State) : State :=
  mkState (create_category payload (remote st)).2
          (category_service st) (stats st) (existing_ids st).

(** The state after [self._category_map[key] = new_id] and
    [stats.increment_categories()]. *)
Definition category_stored (key new_id : string) (st : State) : State :=
  let cs := category_service st in
  mkState (remote st)
          (mkCategoryService (<[key:=new_id]> (_category_map cs))
                             (_transfer_category_id cs) (_external_transfer_cats cs))
          (increment_categories (stats st)) (existing_ids st).

(** A step that touches nothing but the category map, the category counter
    and the log of category calls. *)
Definition category_step (st st' : State) : Prop :=
  existing_ids st' = existing_ids st
  ∧ r_transactions (remote st') = r_transactions (remote st)
  ∧ r_tx_calls (remote st') = r_tx_calls (remote st)
  ∧ r_tx_answer (remote st') = r_tx_answer (remote st)
  ∧ r_cat_answer (remote st') = r_cat_answer (remote st)
  ∧ r_list_answer (remote st') = r_list_answer (remote st)
  ∧ _transfer_category_id (category_service st') = _transfer_category_id (category_service st)
  ∧ _external_transfer_cats (category_service st') = _external_transfer_cats (category_service st)
  ∧ skipped (stats st') = skipped (stats st)
  ∧ new_transactions (stats st') = new_transactions (stats st)
  ∧ new_transfers (stats st') = new_transfers (stats st)
  ∧ errors (stats st') = errors (stats st).

(** The three ways through the block [create_if_absent]. *)
Inductive absent_outcome (key : string) (payload : CategoryPayload) (st : State)
    : bool → State → Prop :=
  | outcome_cached v :
      _category_map (category_service st) !! key = Some v →
      absent_outcome key payload st true st
  | outcome_created new_id :
      _category_map (category_service st) !! key = None →
      next_cat_answer st = CatSuccess new_id →
      absent_outcome key payload st true
        (category_stored key new_id (category_call_logged payload st))
  | outcome_failed :
      _category_map (category_service st) !! key = None →
      is_cat_success (next_cat_answer st) = false →
      absent_outcome key payload st false (category_call_logged payload st).

End CategoryTerms.
Export CategoryTerms.

(** ** Vocabulary of the statements about the import *)

Module ImportTerms.

(** The transactions the target ledger stores, and the ids
    [_load_existing_ids] would read from them. *)
Definition ledger (st : State) : list Payload := r_transactions (remote st).
Definition known_ids (st : State) : gset string := ids_of_ledger (ledger st).

(** The answer the remote will give to the next [create_transaction]. *)
Definition next_tx_answer (st : State) : tx_response :=
  r_tx_answer (remote st) (length (r_tx_calls (remote st))).

(** The state after [self.api.create_transaction(payload)]. *)
Definition posted (payload : Payload) (st : State) : State :=
  mkState (create_transaction payload (remote st)).2
          (category_service st) (stats st) (existing_ids st).

(** The state after the statements that follow a response. *)
Definition recorded (ids : gset string) (count : ImportStats → ImportStats) (st : State)
    : State :=
  mkState (remote st) (category_service st) (count (stats st)) (existing_ids st ∪ ids).

(** The existing-id set holds only ids that are on the ledger. *)
Definition existing_on_ledger (st : State) : Prop := existing_ids st ⊆ known_ids st.

Definition counted (count : ImportStats → ImportStats) (st : State) : State :=
  mkState (remote st) (category_service st) (count (stats st)) (existing_ids st).

(** How one of the three import functions leaves the state, given the state
    [st] in which it posts the payload [p] and its result [b]. *)
Definition after_import (ids : gset string) (count : ImportStats → ImportStats)
    (p : Payload) (b : bool) (st : State) : State :=
  if b then recorded ids count (posted p st) else counted increment_errors (posted p st).

(** From [st] to [st'] the log of [create_transaction] calls has only
    grown, and the remote answers as before. *)
Definition calls_extended (st st' : State) : Prop :=
  (length (r_tx_calls (remote st)) ≤ length (r_tx_calls (remote st')))%nat
  ∧ r_tx_answer (remote st') = r_tx_answer (remote st).

(** The remote answered every [create_transaction] call made between [st]
    and [st'] with success. *)
Definition all_accepted (st st' : State) : Prop :=
  ∀ n, (length (r_tx_calls (remote st)) ≤ n < length (r_tx_calls (remote st')))%nat →
       r_tx_answer (remote st) n = TxSuccess.

(** A step of a run whose creation calls were all accepted keeps the
    existing ids on the ledger, loses no id of the ledger, and puts the ids
    [ids] on it. *)
Definition import_ok (ids : gset string) (st st' : State) : Prop :=
  calls_extended st st'
  ∧ (all_accepted st st' →
     existing_on_ledger st →
     existing_on_ledger st' ∧ known_ids st ⊆ known_ids st' ∧ ids ⊆ known_ids st').

(** A record whose id and description the marker syntax can carry. *)
Definition plain_record (tx : B4Transaction) : Prop :=
  plain_id (id tx) ∧ str_contains "[B4ID:" (description tx) = false.

(** The same, on the entry of an export file. *)
Definition plain_entry (data : RawTx) : Prop :=
  (∀ i, Id data = Some i → plain_id i)
  ∧ (∀ r, RmtInf data = Some r → str_contains "[B4ID:" r = false).

End ImportTerms.
Export ImportTerms.

(** ** Vocabulary of the statements about a whole run *)

Module RunTerms.

(** The ids of a list of records. *)
Definition ids_of_records (l : list B4Transaction) : gset string :=
  list_to_set (map id l).

(** A step that posts nothing and records nothing: only the counters of
    skipped records and of errors may move. *)
Definition quiet (st st' : State) : Prop :=
  remote st' = remote st
  ∧ category_service st' = category_service st
  ∧ existing_ids st' = existing_ids st
  ∧ new_transactions (stats st') = new_transactions (stats st)
  ∧ new_transfers (stats st') = new_transfers (stats st)
  ∧ new_categories (stats st') = new_categories (stats st).

Section Entries.

Variable strptime : string → option Z.
Variable strftime : Z → string.
Variable py_float : string → option float.
Variable config : Config.

(** The entry [data] of the file of account [b4_acc_id] passes the status
    guard, parses to [tx], and is not older than the minimum date: it is an
    entry the import has to bring to the ledger. *)
Definition in_scope (b4_acc_id : string) (data : RawTx) (tx : B4Transaction) : Prop :=
  BookgSts data = Some "BOOK"
  ∧ from_json strptime py_float data b4_acc_id = Some tx
  ∧ String.ltb (strftime (booking_date tx)) (min_booking_date config) = false.

End Entries.

End RunTerms.
Export RunTerms.

(** ** Sample data (the records of [tests/test_transfer_matcher.py]) *)

Module Samples.

Definition amount_100 : float := float_of_Z 100.

(** 2024-01-15 is day 738900. *)
Definition tx_debit : B4Transaction :=
  mkB4 "1" 738900 amount_100 "Transfer" DEBIT "Umbuchung" BOOKED "ACC001".
Definition tx_credit_2_days : B4Transaction :=
  mkB4 "2" 738902 amount_100 "Transfer" CREDIT "Umbuchung" BOOKED "ACC002".
Definition tx_credit_3_days : B4Transaction :=
  mkB4 "4" 738903 amount_100 "Transfer" CREDIT "Umbuchung" BOOKED "ACC002".
Definition tx_credit_5_days : B4Transaction :=
  mkB4 "3" 738905 amount_100 "Transfer" CREDIT "Umbuchung" BOOKED "ACC003".
Definition tx_credit_same_day : B4Transaction :=
  mkB4 "5" 738900 amount_100 "Transfer" CREDIT "Umbuchung" BOOKED "ACC003".

(** A remote that rejects every creation, one that accepts every creation,
    and a freshly constructed service in front of each. *)
Definition remote_rejecting : Remote :=
  mkRemote [] [] [] (λ _, TxFailure) (λ _, CatFailure) (λ _, ListPage).
Definition remote_accepting : Remote :=
  mkRemote [] [] [] (λ _, TxSuccess) (λ n, CatSuccess ("c" +:+ pretty n)) (λ _, ListPage).
Definition service_empty : CategoryService := mkCategoryService ∅ "0" ("0", "0").
Definition state_rejecting : State := mkState remote_rejecting service_empty stats0 ∅.
Definition state_accepting : State := mkState remote_accepting service_empty stats0 ∅.

(** A Python runtime that knows the two dates and the amounts of the
    sample entries: 2024-02-01 is day 738917.  Its [timestamp] counts the
    seconds since 1970-01-01 (day 719163) and raises on 0001-01-01. *)
Definition sample_strptime (s : string) : option Z :=
  if String.eqb s "2024-02-01" then Some 738917
  else if String.eqb s "2024-02-02" then Some 738918
  else None.
Definition sample_strftime (d : Z) : string :=
  if d =? 738917 then "2024-02-01" else if d =? 738918 then "2024-02-02" else "1970-01-01".
Definition sample_float (s : string) : option float :=
  if String.eqb s "50.00" then Some (float_of_Z 50)
  else if String.eqb s "-50.00" then Some (float_of_Z (-50))
  else None.
Definition sample_timestamp (d : Z) : option Z :=
  if d <=? 1 then None else Some ((d - 719163) * 86400).

(** Entries of an export file. *)
Definition entry_salary : RawTx :=
  mkRaw (Some "t1") (Some "2024-02-01") (Some "50.00") (Some "pay") (Some "CRDT")
        (Some "Salary") (Some "BOOK").
Definition entry_transfer : RawTx :=
  mkRaw (Some "t2") (Some "2024-02-02") (Some "-50.00") (Some "xfer") (Some "DBIT")
        (Some "Umbuchung") (Some "BOOK").
Definition entry_no_status : RawTx :=
  mkRaw (Some "t3") (Some "2024-02-02") (Some "-50.00") (Some "lunch") (Some "DBIT")
        (Some "Food") None.
Definition entry_underscore : RawTx :=
  mkRaw (Some "t_1") (Some "2024-02-01") (Some "50.00") (Some "pay") (Some "CRDT")
        (Some "Salary") (Some "BOOK").
Definition entry_no_amount : RawTx :=
  mkRaw (Some "t4") (Some "2024-02-01") None (Some "rent") (Some "DBIT")
        (Some "Home") (Some "BOOK").

(** The record [from_json] makes of [entry_transfer] for account "100". *)
Definition tx_transfer : B4Transaction :=
  mkB4 "t2" 738918 (float_of_Z 50) "xfer" DEBIT "Umbuchung" BOOKED "100".

(** The record it makes of [entry_no_status]. *)
Definition tx_no_status : B4Transaction :=
  mkB4 "t3" 738918 (float_of_Z 50) "lunch" DEBIT "Food" BOOKED "100".

(** A stored transaction with the given comment. *)
Definition stored_with (comment : string) : Payload :=
  mkPayload 3 0 0 "0" [] comment "acc-1" 0 None None.

Definition accounts : gmap string string := {[ "100" := "acc-1" ]}.

(** Three export folders: the end-to-end scenario, one file whose only
    record has an underscore in its id, and the scenario with an entry that
    has no amount between its two records. *)
Definition config_scenario : Config :=
  mkConfig "2024-01-01" 50 3 [("100", [entry_salary; entry_transfer])].
Definition config_underscore : Config :=
  mkConfig "2024-01-01" 50 3 [("100", [entry_underscore])].
Definition config_parse_error : Config :=
  mkConfig "2024-01-01" 50 3 [("100", [entry_salary; entry_no_amount; entry_transfer])].

(** A newly started service in front of the remote of [st]. *)
Definition restarted (st : State) : State :=
  mkState (remote st) service_empty stats0 ∅.

End Samples.

(** ** More of models.py: [ImportStats.total_imported] *)

Module Totals.

(** [total_imported] *)
Definition total_imported (s : ImportStats) : nat :=
  (new_transactions s + new_transfers s)%nat.

End Totals.
Export Totals.

(** ** More Python string primitives: [find], slices, [lower] *)

Module PyText.

(** [s[n:]] *)
Fixpoint str_drop (n : nat) (s : string) : string :=
  match n, s with
  | S n', String _ s' => str_drop n' s'
  | _, _ => s
  end.

(** [s.find(sub)]: the index of the first occurrence of [sub], or -1. *)
Fixpoint str_find (sub s : string) : Z :=
  if String.prefix sub s then 0
  else match s with
       | EmptyString => -1
       | String _ s' => let i := str_find sub s' in if i <? 0 then -1 else i + 1
       end.

(** [s.find(sub, start)] for [0 <= start]. *)
Definition str_find_from (sub s : string) (start : Z) : Z :=
  if Z.of_nat (String.length s) <? start then -1
  else
    let i := str_find sub (str_drop (Z.to_nat start) s) in
    if i <? 0 then -1 else start + i.

(** [s[start:stop]] for [0 <= start] and [0 <= stop]. *)
Definition str_slice (start stop : Z) (s : string) : string :=
  str_take (Z.to_nat (stop - start)) (str_drop (Z.to_nat start) s).

(** [c.lower()] on the characters 0..255: A-Z and the capital letters of
    Latin-1 (192..222 without the multiplication sign 215) move by 32. *)
Definition lower_char (c : ascii) : ascii :=
  let n := nat_of_ascii c in
  if ((65 <=? n) && (n <=? 90) || (192 <=? n) && (n <=? 214)
      || (216 <=? n) && (n <=? 222))%nat
  then ascii_of_nat (n + 32) else c.

(** [s.lower()] *)
Fixpoint str_lower (s : string) : string :=
  match s with
  | EmptyString => EmptyString
  | String c s' => String (lower_char c) (str_lower s')
  end.

End PyText.
Export PyText.

(** ** models.py ([Account]) and services/account_service.py *)

Module AccountModel.

(** One entry of the result of [accounts/list.json].  The code subscripts
    ["id"], which the API always sends; a key it reads with [.get] may be
    absent ([None]). *)
Record AccountData := mkAccountData {
  d_id : string;
  d_name : option string;
  d_comment : option string
}.

(** [@dataclass class Account]. *)
Record Account := mkAccount {
  id : string;
  name : string;
  b4_account_id : option string;
  comment : string
}.

(** [Account.from_api_response(data)] *)
Definition from_api_response (data : AccountData) : Account :=
  let comment := default "" (d_comment data) in
  let b4_acc_id :=
    if str_contains "[B4AccID:" comment then
      let start := str_find "[B4AccID:" comment + 9 in
      let end_ := str_find_from "]" comment start in
      if start <? end_ then Some (str_slice start end_ comment) else None
    else None in
  mkAccount (d_id data) (default "" (d_name data)) b4_acc_id comment.

(** What [self.api.get_accounts()] can do: return a body with ["success"]
    and a ["result"] list, return a body without ["success"], or raise
    [APIError]. *)
Inductive accounts_response :=
  | AccountsSuccess (result : list AccountData)
  | AccountsFailure
  | AccountsAPIError.

(** The [for acc_data in resp["result"]] loop of [load_account_map];
    [if account.b4_account_id] holds for a string that is not empty. *)
Fixpoint load_account_map_loop (result : list AccountData)
    (account_map : gmap string string) : gmap string string :=
  match result with
  | [] => account_map
  | acc_data :: rest =>
      let account := from_api_response acc_data in
      match b4_account_id account with
      | Some b =>
          if String.eqb b "" then load_account_map_loop rest account_map
          else load_account_map_loop rest (<[b := id account]> account_map)
      | None => load_account_map_loop rest account_map
      end
  end.

(** [load_account_map], given the response of its API call and
    [self._account_map]: the dict it returns and the new
    [self._account_map]. *)
Definition load_account_map (resp : accounts_response) (_account_map : gmap string string)
    : raising (gmap string string * gmap string string) :=
  match resp with
  | AccountsAPIError => Raises
  | AccountsFailure => Returns (∅, _account_map)
  | AccountsSuccess result =>
      let account_map := load_account_map_loop result ∅ in
      Returns (account_map, account_map)
  end.

End AccountModel.

(** ** More of services/category_service.py: loading the categories *)

Module CategoryLoading.

(** One sub-category and one top-level category of the result of
    [transaction/categories/list.json]; ["subCategories"] is read with
    [.get] and may be absent. *)
Record SubCategory := mkSub {
  s_name : string;
  s_id : string
}.

Record MainCategory := mkMain {
  m_name : string;
  m_id : string;
  m_subCategories : option (list SubCategory)
}.

(** What [self.api.get_categories()] can do.  [resp["result"]] is a dict
    from the text of a category type to the list of its top-level
    categories; [.items()] visits it in the order given here. *)
Inductive categories_response :=
  | CategoriesSuccess (result : list (string * list MainCategory))
  | CategoriesFailure
  | CategoriesAPIError.

Section Loading.

(** [int(_)] of a string; [None] is its [ValueError]. *)
Variable py_int : string -> option Z.

(** The three nested loops of [load_categories]. *)
Fixpoint load_categories_subs (c_type : Z) (main_name : string) (subs : list SubCategory)
    (cat_map : gmap string string) : gmap string string :=
  match subs with
  | [] => cat_map
  | sub :: rest =>
      let sub_key := pretty c_type +:+ "_" +:+ main_name +:+ ":" +:+ s_name sub in
      load_categories_subs c_type main_name rest (<[sub_key := s_id sub]> cat_map)
  end.

Fixpoint load_categories_mains (c_type : Z) (categories : list MainCategory)
    (cat_map : gmap string string) : gmap string string :=
  match categories with
  | [] => cat_map
  | main :: rest =>
      let main_key := pretty c_type +:+ "_" +:+ m_name main in
      let cat_map := <[main_key := m_id main]> cat_map in
      let cat_map :=
        load_categories_subs c_type (m_name main) (default [] (m_subCategories main))
          cat_map in
      load_categories_mains c_type rest cat_map
  end.

Fixpoint load_categories_types (items : list (string * list MainCategory))
    (cat_map : gmap string string) : option (gmap string string) :=
  match items with
  | [] => Some cat_map
  | (c_type_str, categories) :: rest =>
      match py_int c_type_str with
      | None => None
      | Some c_type =>
          load_categories_types rest (load_categories_mains c_type categories cat_map)
      end
  end.

(** [load_categories], given the response of its API call: the dict it
    returns and the service afterwards.  [Raises] is the [APIError] of the
    call or the [ValueError] of [int]. *)
Definition load_categories (resp : categories_response) (cs : CategoryService)
    : raising (gmap string string * CategoryService) :=
  match resp with
  | CategoriesAPIError => Raises
  | CategoriesFailure => Returns (∅, cs)
  | CategoriesSuccess result =>
      match load_categories_types result ∅ with
      | None => Raises
      | Some cat_map =>
          Returns (cat_map,
                   mkCategoryService cat_map (_transfer_category_id cs)
                                     (_external_transfer_cats cs))
      end
  end.

(** The three nested loops of [_find_transfer_category]; [Some] is its
    [return sub["id"]]. *)
Fixpoint _find_transfer_category_subs (subs : list SubCategory) : option string :=
  match subs with
  | [] => None
  | sub :: rest =>
      if str_contains "bank" (str_lower (s_name sub))
         && str_contains "weisung" (str_lower (s_name sub))
      then
        if negb (str_contains "extern" (str_lower (s_name sub))) then Some (s_id sub)
        else _find_transfer_category_subs rest
      else _find_transfer_category_subs rest
  end.

Fixpoint _find_transfer_category_mains (categories : list MainCategory) : option string :=
  match categories with
  | [] => None
  | main :: rest =>
      if str_contains "allgemein" (str_lower (m_name main))
         && str_contains "transfer" (str_lower (m_name main))
      then
        match _find_transfer_category_subs (default [] (m_subCategories main)) with
        | Some sub_id => Some sub_id
        | None => _find_transfer_category_mains rest
        end
      else _find_transfer_category_mains rest
  end.

Fixpoint _find_transfer_category_types (items : list (string * list MainCategory))
    : option string :=
  match items with
  | [] => None
  | (_, categories) :: rest =>
      match _find_transfer_category_mains categories with
      | Some sub_id => Some sub_id
      | None => _find_transfer_category_types rest
      end
  end.

(** [_find_transfer_category] *)
Definition _find_transfer_category (resp : categories_response) : raising string :=
  match resp with
  | CategoriesAPIError => Raises
  | CategoriesFailure => Returns "0"
  | CategoriesSuccess result => Returns (default "0" (_find_transfer_category_types result))
  end.

(** The three nested loops of [_find_external_transfer_categories];
    [result] is the pair ([result["income"]], [result["expense"]]). *)
Fixpoint _find_external_subs (c_type : Z) (subs : list SubCategory)
    (result : string * string) : string * string :=
  match subs with
  | [] => result
  | sub :: rest =>
      if str_contains "extern" (str_lower (s_name sub))
         && str_contains "bank" (str_lower (s_name sub))
      then
        if c_type =? 1 then _find_external_subs c_type rest (s_id sub, result.2)
        else if c_type =? 2 then _find_external_subs c_type rest (result.1, s_id sub)
        else _find_external_subs c_type rest result
      else _find_external_subs c_type rest result
  end.

Fixpoint _find_external_mains (c_type : Z) (categories : list MainCategory)
    (result : string * string) : string * string :=
  match categories with
  | [] => result
  | main :: rest =>
      if str_contains "allgemein" (str_lower (m_name main))
         && str_contains "transfer" (str_lower (m_name main))
      then
        _find_external_mains c_type rest
          (_find_external_subs c_type (default [] (m_subCategories main)) result)
      else _find_external_mains c_type rest result
  end.

Fixpoint _find_external_types (items : list (string * list MainCategory))
    (result : string * string) : option (string * string) :=
  match items with
  | [] => Some result
  | (c_type_str, categories) :: rest =>
      match py_int c_type_str with
      | None => None
      | Some c_type => _find_external_types rest (_find_external_mains c_type categories result)
      end
  end.

(** [_find_external_transfer_categories] *)
Definition _find_external_transfer_categories (resp : categories_response)
    : raising (string * string) :=
  match resp with
  | CategoriesAPIError => Raises
  | CategoriesFailure => Returns ("0", "0")
  | CategoriesSuccess result =>
      match _find_external_types result ("0", "0") with
      | Some found => Returns found
      | None => Raises
      end
  end.

(** [load_transfer_categories], given the responses of its two API calls:
    whether it returns, and the service it leaves behind. *)
Definition load_transfer_categories (resp1 resp2 : categories_response)
    (cs : CategoryService) : raising unit * CategoryService :=
  match _find_transfer_category resp1 with
  | Raises => (Raises, cs)
  | Returns transfer_id =>
      let cs1 :=
        mkCategoryService (_category_map cs) transfer_id (_external_transfer_cats cs) in
      match _find_external_transfer_categories resp2 with
      | Raises => (Raises, cs1)
      | Returns found => (Returns tt, mkCategoryService (_category_map cs) transfer_id found)
      end
  end.

End Loading.

End CategoryLoading.
Export CategoryLoading.

(** ** config.py *)

Module Settings.

(** [@dataclass class Config], all its fields; [json_folder] is the text
    the [Path] is made from. *)
Record Config := mkConfig {
  api_base_url : string;
  api_token : string;
  json_folder : string;
  min_booking_date : string;
  log_level : string;
  timezone : string;
  page_size : Z;
  transfer_tolerance_days : Z
}.

(** [x] in [if x:] for [x : str | None]. *)
Definition truthy (x : option string) : bool :=
  match x with
  | Some s => negb (String.eqb s "")
  | None => false
  end.

Section Environment.

(** [os.environ], [int(_)] ([None] is its [ValueError]), [Path.exists] and
    [datetime.strptime(_, "%Y-%m-%d")]. *)
Variable environ : gmap string string.
Variable py_int : string -> option Z.
Variable path_exists : string -> bool.
Variable strptime : string -> option Z.

(** [os.getenv(key)] and [os.getenv(key, default)] *)
Definition getenv (key : string) : option string := environ !! key.
Definition getenv_default (key fallback : string) : string := default fallback (getenv key).

(** [Config.from_env()]; [None] is a [ValueError]. *)
Definition from_env : option Config :=
  let api_token := getenv "BAEZI_API_TOKEN" in
  if negb (truthy api_token) then None
  else
    let json_folder_str := getenv_default "BAEZI_JSON_FOLDER" "/mnt/c/Users/simon/b4export" in
    match py_int (getenv_default "BAEZI_PAGE_SIZE" "50") with
    | None => None
    | Some page_size =>
        match py_int (getenv_default "BAEZI_TRANSFER_TOLERANCE_DAYS" "3") with
        | None => None
        | Some transfer_tolerance_days =>
            Some (mkConfig (getenv_default "BAEZI_API_URL" "http://192.168.176.3:8050/api/v1")
                           (default "" api_token)
                           json_folder_str
                           (getenv_default "BAEZI_MIN_DATE" "2024-01-15")
                           (getenv_default "BAEZI_LOG_LEVEL" "INFO")
                           (getenv_default "BAEZI_TIMEZONE" "Europe/Berlin")
                           page_size
                           transfer_tolerance_days)
        end
    end.

(** [Config.from_args(api_url, api_token, json_folder, min_date,
    log_level)]: the five conditional assignments on [base_config]. *)
Definition from_args (api_url api_token_arg json_folder_arg min_date log_level_arg
    : option string) : option Config :=
  match from_env with
  | None => None
  | Some base_config =>
      let base_config :=
        if truthy api_url
        then mkConfig (default "" api_url) (api_token base_config)
               (json_folder base_config) (min_booking_date base_config)
               (log_level base_config) (timezone base_config) (page_size base_config)
               (transfer_tolerance_days base_config)
        else base_config in
      let base_config :=
        if truthy api_token_arg
        then mkConfig (api_base_url base_config) (default "" api_token_arg)
               (json_folder base_config) (min_booking_date base_config)
               (log_level base_config) (timezone base_config) (page_size base_config)
               (transfer_tolerance_days base_config)
        else base_config in
      let base_config :=
        if truthy json_folder_arg
        then mkConfig (api_base_url base_config) (api_token base_config)
               (default "" json_folder_arg) (min_booking_date base_config)
               (log_level base_config) (timezone base_config) (page_size base_config)
               (transfer_tolerance_days base_config)
        else base_config in
      let base_config :=
        if truthy min_date
        then mkConfig (api_base_url base_config) (api_token base_config)
               (json_folder base_config) (default "" min_date)
               (log_level base_config) (timezone base_config) (page_size base_config)
               (transfer_tolerance_days base_config)
        else base_config in
      let base_config :=
        if truthy log_level_arg
        then mkConfig (api_base_url base_config) (api_token base_config)
               (json_folder base_config) (min_booking_date base_config)
               (default "" log_level_arg) (timezone base_config) (page_size base_config)
               (transfer_tolerance_days base_config)
        else base_config in
      Some base_config
  end.

(** [validate()]; [None] is a [ValueError]. *)
Definition validate (self : Config) : option unit :=
  if String.eqb (api_token self) "" then None
  else if negb (path_exists (json_folder self)) then None
  else
    match strptime (min_booking_date self) with
    | Some _ => Some tt
    | None => None
    end.

End Environment.

End Settings.

(** ** Vocabulary of the statements about what a run posts *)

Module PostingTerms.

(** The payload carries a marker, is booked on the ezbookkeeping id of a
    mapped account, and, if it has a destination, goes to "0" or to the id
    of a mapped account. *)
Definition addressed (account_map : gmap string string) (p : Payload) : Prop :=
  str_contains "[B4ID:" (p_comment p) = true
  ∧ (∃ b, account_map !! b = Some (p_sourceAccountId p))
  ∧ (∀ d, p_destinationAccountId p = Some d → d = "0" ∨ ∃ b, account_map !! b = Some d).

(** Between [st] and [st'] the payloads [calls] were posted, all of them
    satisfying [Q]; the ledger stored [stored] of them; each stored one is
    counted as imported and each other one as an error. *)
Definition posting (Q : Payload → Prop) (st st' : State) : Prop :=
  ∃ calls stored,
    r_tx_calls (remote st') = r_tx_calls (remote st) ++ calls
    ∧ ledger st' = ledger st ++ stored
    ∧ sublist stored calls
    ∧ Forall Q calls
    ∧ total_imported (stats st') = (total_imported (stats st) + length stored)%nat
    ∧ (length calls + errors (stats st) ≤ length stored + errors (stats st'))%nat.

End PostingTerms.
Export PostingTerms.

(** ** Vocabulary of the statements about loading categories *)

Module LoadingTerms.

(** The keys [load_categories] gives a top-level category and a
    sub-category. *)
Definition main_key (c_type : Z) (main : MainCategory) : string :=
  pretty c_type +:+ "_" +:+ m_name main.
Definition sub_key (c_type : Z) (main : MainCategory) (sub : SubCategory) : string :=
  pretty c_type +:+ "_" +:+ m_name main +:+ ":" +:+ s_name sub.

(** [key] is the key of a category of the response. *)
Definition listed (py_int : string → option Z) (result : list (string * list MainCategory))
    (key : string) : Prop :=
  ∃ c_type_str categories c_type main,
    (c_type_str, categories) ∈ result ∧ py_int c_type_str = Some c_type
    ∧ main ∈ categories
    ∧ (key = main_key c_type main
       ∨ ∃ sub, sub ∈ default [] (m_subCategories main) ∧ key = sub_key c_type main sub).

(** The sub-categories of a response in the order the three nested loops
    visit them, each with the text of its type and its top-level category. *)
Definition visited (result : list (string * list MainCategory))
    : list (string * MainCategory * SubCategory) :=
  flat_map (λ '(c_type_str, categories),
    flat_map (λ main, map (λ sub, (c_type_str, main, sub))
                          (default [] (m_subCategories main)))
             categories)
    result.

Definition transfer_main (main : MainCategory) : bool :=
  str_contains "allgemein" (str_lower (m_name main))
  && str_contains "transfer" (str_lower (m_name main)).

(** What [_find_transfer_category] looks for. *)
Definition internal_candidate (x : string * MainCategory * SubCategory) : bool :=
  transfer_main x.1.2
  && (str_contains "bank" (str_lower (s_name x.2))
      && str_contains "weisung" (str_lower (s_name x.2)))
  && negb (str_contains "extern" (str_lower (s_name x.2))).

(** What [_find_external_transfer_categories] looks for, for the category
    type [c_type]. *)
Definition external_candidate (py_int : string → option Z) (c_type : Z)
    (x : string * MainCategory * SubCategory) : bool :=
  transfer_main x.1.2
  && (str_contains "extern" (str_lower (s_name x.2))
      && str_contains "bank" (str_lower (s_name x.2)))
  && bool_decide (py_int x.1.1 = Some c_type).

(** The assignment that one visited sub-category makes to [result]. *)
Definition external_step (py_int : string → option Z) (result : string * string)
    (x : string * MainCategory * SubCategory) : string * string :=
  if external_candidate py_int 1 x then (s_id x.2, result.2)
  else if external_candidate py_int 2 x then (result.1, s_id x.2)
  else result.

(** The id of the sub-category found, or "0". *)
Definition found_id (x : option (string * MainCategory * SubCategory)) : string :=
  default "0" (s_id ∘ snd <$> x).

End LoadingTerms.
Export LoadingTerms.

(** ** More sample data *)

Module Examples.

(** A ledger of three transactions behind a remote that serves every page,
    and behind one whose second page is an [APIError]; a page size of 2. *)
Definition stored_three : list Payload :=
  [Samples.stored_with "a [B4ID:t1]"; Samples.stored_with "b [B4ID:t2_t3]";
   Samples.stored_with "c [B4ID:t4]"].
Definition remote_three : Remote :=
  mkRemote stored_three [] [] (λ _, TxSuccess) (λ _, CatFailure) (λ _, ListPage).
Definition remote_broken : Remote :=
  mkRemote stored_three [] [] (λ _, TxSuccess) (λ _, CatFailure)
           (λ page, if (page =? 2)%nat then ListAPIError else ListPage).
Definition state_three : State := mkState remote_three Samples.service_empty stats0 ∅.
Definition state_broken : State := mkState remote_broken Samples.service_empty stats0 ∅.
Definition config_paged : Config := mkConfig "2024-01-01" 2 3 [].

(** Three accounts of [accounts/list.json]: two carry the marker of the
    Banking4 account 100, one carries none. *)
Definition account_old : AccountModel.AccountData :=
  AccountModel.mkAccountData "acc-0" (Some "Old") (Some "[B4AccID:100]").
Definition account_giro : AccountModel.AccountData :=
  AccountModel.mkAccountData "acc-1" (Some "Giro") (Some "main [B4AccID:100] account").
Definition account_cash : AccountModel.AccountData :=
  AccountModel.mkAccountData "acc-2" None None.

(** [int] on the texts the samples use. *)
Definition sample_int (s : string) : option Z :=
  if String.eqb s "1" then Some 1
  else if String.eqb s "2" then Some 2
  else if String.eqb s "3" then Some 3
  else if String.eqb s "50" then Some 50
  else None.

(** A category listing: income and expense each have a top-level category
    for transfers. *)
Definition category_essen : MainCategory :=
  mkMain "Essen" "m2" (Some [mkSub "Restaurant" "s2"]).
Definition listing_income : list MainCategory :=
  [mkMain "Allgemein Transfer" "m1" (Some [mkSub "Bankueberweisung (extern)" "s1"])].
Definition listing_expense : list MainCategory :=
  [category_essen;
   mkMain "Allgemein Transfer" "m3"
     (Some [mkSub "Bankueberweisung (extern)" "s3";
            mkSub "Bankueberweisung" "s4";
            mkSub "Bankueberweisung (extern, alt)" "s5"])].
Definition listing : list (string * list MainCategory) :=
  [("1", listing_income); ("2", listing_expense)].

(** The map that [load_categories] makes of this listing. *)
Definition listing_loaded : gmap string string :=
  load_categories_mains 2 listing_expense (load_categories_mains 1 listing_income ∅).

(** A service with the category map [cat_map], in front of a remote that
    rejects every creation. *)
Definition state_loaded (cat_map : gmap string string) : State :=
  mkState Samples.remote_rejecting (mkCategoryService cat_map "0" ("0", "0")) stats0 ∅.

(** Two mapped accounts, for the records of the matcher's tests. *)
Definition accounts_two : gmap string string :=
  {[ "ACC001" := "e1"; "ACC002" := "e2" ]}.

(** An environment that sets the token only. *)
Definition environ_token : gmap string string := {[ "BAEZI_API_TOKEN" := "secret" ]}.

End Examples.

(** * Properties *)

(** ** The transfer matcher *)

Section MatcherFacts.

Variable tol : Z.
Variable E : gset string.

Lemma Direction_eqb_eq a b : Direction_eqb a b = true ↔ a = b.
Proof. destruct a, b; simpl; split; congruence. Qed.

Lemma Direction_eqb_neq a b : Direction_eqb a b = false ↔ a ≠ b.
Proof. destruct a, b; simpl; split; congruence. Qed.

Lemma is_match_conditions a b : _is_match tol a b = true ↔ match_conditions tol a b.
Proof.
  unfold _is_match, match_conditions.
  rewrite !andb_true_iff, !negb_true_iff, String.eqb_neq, Direction_eqb_neq, Z.leb_le.
  tauto.
Qed.

Lemma is_match_false_date a b :
  tol < Z.abs (booking_date a - booking_date b) → _is_match tol a b = false.
Proof.
  intros H. apply not_true_is_false. rewrite is_match_conditions.
  unfold match_conditions. lia.
Qed.

Lemma find_partner_find tx cands P :
  _find_partner tol tx cands P E = List.find (eligible tol E tx P) cands.
Proof.
  induction cands as [|c cands IH]; simpl; [done|].
  unfold eligible at 1.
  destruct (bool_decide (id c ∈ P) || bool_decide (id c ∈ E)); simpl; [done|].
  by destruct (_is_match tol tx c).
Qed.

Lemma find_partner_Some tx cands P p :
  _find_partner tol tx cands P E = Some p →
  ∃ l1 l2, cands = l1 ++ p :: l2
           ∧ id p ∉ P ∧ id p ∉ E ∧ _is_match tol tx p = true
           ∧ Forall (λ c, eligible tol E tx P c = false) l1.
Proof.
  rewrite find_partner_find.
  induction cands as [|c cands IH]; simpl; [done|].
  destruct (eligible tol E tx P c) eqn:Hc.
  - intros [= ->]. exists [], cands. split; [done|].
    unfold eligible in Hc.
    apply andb_true_iff in Hc as [Hc1 Hc2].
    apply negb_true_iff, orb_false_iff in Hc1 as [H1 H2].
    apply bool_decide_eq_false in H1, H2. auto.
  - intros H. destruct (IH H) as (l1 & l2 & -> & ? & ? & ? & ?).
    exists (c :: l1), l2. repeat split; auto.
Qed.

Lemma find_partner_None tx cands P :
  _find_partner tol tx cands P E = None →
  Forall (λ c, eligible tol E tx P c = false) cands.
Proof.
  rewrite find_partner_find.
  induction cands as [|c cands IH]; simpl; [constructor|].
  destruct (eligible tol E tx P c) eqn:Hc; [done|]. intros H. constructor; auto.
Qed.

(** The accumulators of the loop are only ever extended at their end. *)
Lemma find_matches_loop_acc l ms us P :
  find_matches_loop tol l E (mkMS ms us P) =
  let st := find_matches_loop tol l E (mkMS [] [] P) in
  mkMS (ms ++ matches st) (us ++ unmatched st) (processed st).
Proof.
  revert ms us P. induction l as [|tx1 later IH]; intros ms us P; simpl.
  - by rewrite !app_nil_r.
  - destruct (bool_decide (id tx1 ∈ P) || bool_decide (id tx1 ∈ E)); [apply IH|].
    destruct (_find_partner tol tx1 later P E) as [partner|].
    + rewrite IH. rewrite (IH [_]). simpl. by rewrite <- app_assoc.
    + rewrite IH. rewrite (IH _ [_]). simpl. by rewrite <- app_assoc.
Qed.

(** One step of the loop, from the empty accumulators. *)
Lemma find_matches_loop_skip tx1 later P :
  id tx1 ∈ P ∨ id tx1 ∈ E →
  find_matches_loop tol (tx1 :: later) E (mkMS [] [] P) =
  find_matches_loop tol later E (mkMS [] [] P).
Proof.
  intros H. simpl.
  destruct (bool_decide (id tx1 ∈ P) || bool_decide (id tx1 ∈ E)) eqn:Hb; [done|].
  apply orb_false_iff in Hb as [H1 H2].
  apply bool_decide_eq_false in H1, H2. tauto.
Qed.

Lemma find_matches_loop_pair tx1 later P partner :
  id tx1 ∉ P → id tx1 ∉ E →
  _find_partner tol tx1 later P E = Some partner →
  find_matches_loop tol (tx1 :: later) E (mkMS [] [] P) =
  let st := find_matches_loop tol later E (mkMS [] [] (P ∪ {[id tx1; id partner]})) in
  mkMS (mkPair tx1 partner :: matches st) (unmatched st) (processed st).
Proof.
  intros H1 H2 Hp. simpl.
  rewrite (bool_decide_eq_false_2 _ H1), (bool_decide_eq_false_2 _ H2). simpl.
  rewrite Hp. by rewrite find_matches_loop_acc.
Qed.

Lemma find_matches_loop_single tx1 later P :
  id tx1 ∉ P → id tx1 ∉ E →
  _find_partner tol tx1 later P E = None →
  find_matches_loop tol (tx1 :: later) E (mkMS [] [] P) =
  let st := find_matches_loop tol later E (mkMS [] [] (P ∪ {[id tx1]})) in
  mkMS (matches st) (tx1 :: unmatched st) (processed st).
Proof.
  intros H1 H2 Hp. simpl.
  rewrite (bool_decide_eq_false_2 _ H1), (bool_decide_eq_false_2 _ H2). simpl.
  rewrite Hp. by rewrite find_matches_loop_acc.
Qed.

(** Case analysis on the first step of the loop. *)
Lemma find_matches_loop_cases tx1 later P :
  let st := find_matches_loop tol (tx1 :: later) E (mkMS [] [] P) in
  ((id tx1 ∈ P ∨ id tx1 ∈ E)
   ∧ st = find_matches_loop tol later E (mkMS [] [] P))
  ∨ (id tx1 ∉ P ∧ id tx1 ∉ E ∧
     ∃ partner, _find_partner tol tx1 later P E = Some partner ∧
       let st' := find_matches_loop tol later E (mkMS [] [] (P ∪ {[id tx1; id partner]})) in
       st = mkMS (mkPair tx1 partner :: matches st') (unmatched st') (processed st'))
  ∨ (id tx1 ∉ P ∧ id tx1 ∉ E ∧
     _find_partner tol tx1 later P E = None ∧
       let st' := find_matches_loop tol later E (mkMS [] [] (P ∪ {[id tx1]})) in
       st = mkMS (matches st') (tx1 :: unmatched st') (processed st')).
Proof.
  intros st. subst st.
  destruct (decide (id tx1 ∈ P)) as [HP|HP].
  { left. split; [auto|]. apply find_matches_loop_skip; auto. }
  destruct (decide (id tx1 ∈ E)) as [HE|HE].
  { left. split; [auto|]. apply find_matches_loop_skip; auto. }
  right. destruct (_find_partner tol tx1 later P E) as [partner|] eqn:Hp.
  - left. repeat split; auto. exists partner. split; [done|].
    by apply find_matches_loop_pair.
  - right. repeat split; auto. by apply find_matches_loop_single.
Qed.

(** What the loop returns, whatever the ids: every pair is a record of the
    list that was neither processed nor existing, together with the first
    eligible record after it; every unmatched record is a record of the list
    that was neither processed nor existing. *)
Lemma find_matches_loop_sound l P :
  let st := find_matches_loop tol l E (mkMS [] [] P) in
  (∀ p, p ∈ matches st →
     id (source_tx p) ∉ P ∧ id (source_tx p) ∉ E
     ∧ id (dest_tx p) ∉ P ∧ id (dest_tx p) ∉ E
     ∧ _is_match tol (source_tx p) (dest_tx p) = true
     ∧ ∃ l1 l2 l3, l = l1 ++ source_tx p :: l2 ++ dest_tx p :: l3)
  ∧ (∀ u, u ∈ unmatched st → id u ∉ P ∧ id u ∉ E ∧ u ∈ l).
Proof.
  revert P. induction l as [|tx1 later IH]; intros P.
  { simpl. split; intros ? H; inversion H. }
  destruct (find_matches_loop_cases tx1 later P)
    as [[_ ->]|[(HP & HE & partner & Hp & ->)|(HP & HE & Hp & ->)]].
  - destruct (IH P) as [IH1 IH2]. split.
    + intros p Hin. destruct (IH1 p Hin) as (?&?&?&?&?& l1 & l2 & l3 & ->).
      split_and!; [done..|]. by exists (tx1 :: l1), l2, l3.
    + intros u Hin. destruct (IH2 u Hin) as (?&?&?). split_and!; [done..|].
      by apply elem_of_cons; right.
  - destruct (IH (P ∪ {[id tx1; id partner]})) as [IH1 IH2]. simpl. split.
    + intros p [->|Hin]%elem_of_cons.
      * destruct (find_partner_Some _ _ _ _ Hp) as (l1 & l2 & -> & ? & ? & ? & _).
        simpl. split_and!; [done..|]. by exists [], l1, l2.
      * destruct (IH1 p Hin) as (Ha & ? & Hb & ? & ? & l1 & l2 & l3 & ->).
        apply not_elem_of_union in Ha as [Ha _], Hb as [Hb _].
        split_and!; [done..|]. by exists (tx1 :: l1), l2, l3.
    + intros u Hin. destruct (IH2 u Hin) as (Ha & ? & ?).
      apply not_elem_of_union in Ha as [Ha _].
      split_and!; [done..|]. by apply elem_of_cons; right.
  - destruct (IH (P ∪ {[id tx1]})) as [IH1 IH2]. simpl. split.
    + intros p Hin. destruct (IH1 p Hin) as (Ha & ? & Hb & ? & ? & l1 & l2 & l3 & ->).
      apply not_elem_of_union in Ha as [Ha _], Hb as [Hb _].
      split_and!; [done..|]. by exists (tx1 :: l1), l2, l3.
    + intros u [->|Hin]%elem_of_cons.
      * split_and!; [done..|]. by apply elem_of_cons; left.
      * destruct (IH2 u Hin) as (Ha & ? & ?).
        apply not_elem_of_union in Ha as [Ha _].
        split_and!; [done..|]. by apply elem_of_cons; right.
Qed.

Lemma filter_fresh_grow P (x : string) l :
  x ∉ map id l → filter (fresh E (P ∪ {[x]})) l = filter (fresh E P) l.
Proof.
  induction l as [|t l IH]; intros Hx; [done|].
  rewrite !filter_cons.
  assert (x ≠ id t ∧ x ∉ map id l) as [Hne Hl] by (simpl in Hx; set_solver).
  rewrite (IH Hl).
  destruct (decide (fresh E (P ∪ {[x]}) t)) as [H1|H1],
           (decide (fresh E P t)) as [H2|H2]; auto; unfold fresh in *; set_solver.
Qed.

Lemma filter_fresh_take P p l :
  NoDup (map id l) → p ∈ l → fresh E P p →
  filter (fresh E P) l ≡ₚ p :: filter (fresh E (P ∪ {[id p]})) l.
Proof.
  induction l as [|t l IH]; intros Hnd Hin Hp; [by inversion Hin|].
  simpl in Hnd. apply NoDup_cons in Hnd as [Hnt Hnd].
  apply elem_of_cons in Hin as [->|Hin].
  - rewrite !filter_cons.
    destruct (decide (fresh E P t)) as [_|]; [|done].
    destruct (decide (fresh E (P ∪ {[id t]}) t)) as [H|_];
      [unfold fresh in H; set_solver|].
    by rewrite filter_fresh_grow.
  - assert (id t ≠ id p).
    { intros Heq. apply Hnt. rewrite Heq. apply list_elem_of_fmap. eauto. }
    rewrite !filter_cons.
    destruct (decide (fresh E P t)) as [H1|H1],
             (decide (fresh E (P ∪ {[id p]}) t)) as [H2|H2].
    + rewrite (IH Hnd Hin Hp). apply Permutation_swap.
    + unfold fresh in *. set_solver.
    + unfold fresh in *. set_solver.
    + by apply IH.
Qed.

(** With pairwise distinct ids, the loop distributes the records that were
    neither processed nor existing over the pairs and the unmatched list. *)
Lemma find_matches_loop_partition l P :
  NoDup (map id l) →
  let st := find_matches_loop tol l E (mkMS [] [] P) in
  flat_map members (matches st) ++ unmatched st ≡ₚ filter (fresh E P) l.
Proof.
  revert P. induction l as [|tx1 later IH]; intros P Hnd; [done|].
  simpl in Hnd. apply NoDup_cons in Hnd as [Hnt Hnd].
  destruct (find_matches_loop_cases tx1 later P)
    as [[Hs ->]|[(HP & HE & partner & Hp & ->)|(HP & HE & Hp & ->)]].
  - rewrite filter_cons. destruct (decide (fresh E P tx1)) as [[??]|_]; [tauto|].
    by apply IH.
  - simpl. rewrite filter_cons. destruct (decide (fresh E P tx1)) as [_|H]; [|by destruct H].
    destruct (find_partner_Some _ _ _ _ Hp) as (l1 & l2 & Hl & ? & ? & _).
    assert (partner ∈ later) by (rewrite Hl; set_solver).
    rewrite (filter_fresh_take P partner later); [|done|done|done].
    do 2 constructor.
    rewrite (IH _ Hnd).
    replace (P ∪ {[id tx1; id partner]}) with (P ∪ {[id partner]} ∪ {[id tx1]}) by set_solver.
    by rewrite filter_fresh_grow.
  - simpl. rewrite filter_cons. destruct (decide (fresh E P tx1)) as [_|H]; [|by destruct H].
    rewrite <- Permutation_middle. constructor.
    rewrite (IH _ Hnd). by rewrite filter_fresh_grow.
Qed.

End MatcherFacts.

Section MatcherCases.

Variable tol : Z.

Lemma NoDup_ids_filter (P : B4Transaction → Prop) `{∀ t, Decision (P t)} l :
  NoDup (map id l) → NoDup (map id (filter P l)).
Proof.
  induction l as [|t l IH]; simpl; [done|].
  intros [Hn Hnd]%NoDup_cons. rewrite filter_cons.
  destruct (decide (P t)); [|by apply IH].
  simpl. apply NoDup_cons. split; [|by apply IH].
  intros (u & Hu & [_ Hin]%list_elem_of_filter)%list_elem_of_fmap.
  apply Hn. rewrite Hu. apply list_elem_of_fmap. eauto.
Qed.

Lemma float_eqb_sym (x y : float) : float_eqb x y = float_eqb y x.
Proof.
  unfold float_eqb, SFeqb.
  assert (SFcompare y x = option_map CompOpp (SFcompare x y)) as ->.
  { destruct x as [[]| [] | |[] mx ex], y as [[]| [] | |[] my ey]; simpl; try done;
      change (Pos.compare_cont Eq ?p ?q) with (Pos.compare p q);
      rewrite (Z.compare_antisym ex ey), (Pos.compare_antisym mx my);
      destruct (ex ?= ey); simpl; try done; by destruct (mx ?= my)%positive. }
  by destruct (SFcompare x y) as [[]|].
Qed.

Lemma is_match_sym a b : _is_match tol a b = _is_match tol b a.
Proof.
  unfold _is_match.
  rewrite (float_eqb_sym (amount a)), (String.eqb_sym (account_id a)).
  replace (booking_date b - booking_date a) with (- (booking_date a - booking_date b)) by lia.
  rewrite Z.abs_opp. by destruct (direction a), (direction b).
Qed.

Lemma is_match_same_direction a b :
  direction a = direction b → _is_match tol a b = false.
Proof.
  intros H. apply not_true_is_false. rewrite is_match_conditions.
  unfold match_conditions. tauto.
Qed.

Lemma find_partner_hit E tx c rest P :
  id c ∉ P → id c ∉ E → _is_match tol tx c = true →
  _find_partner tol tx (c :: rest) P E = Some c.
Proof.
  intros H1 H2 Hm. simpl.
  by rewrite (bool_decide_eq_false_2 _ H1), (bool_decide_eq_false_2 _ H2), Hm.
Qed.

Lemma find_partner_miss E tx c rest P :
  id c ∈ P ∨ id c ∈ E ∨ _is_match tol tx c = false →
  _find_partner tol tx (c :: rest) P E = _find_partner tol tx rest P E.
Proof.
  intros H. simpl.
  destruct (bool_decide (id c ∈ P) || bool_decide (id c ∈ E)) eqn:Hb; [done|].
  apply orb_false_iff in Hb as [H1%bool_decide_eq_false H2%bool_decide_eq_false].
  destruct H as [?|[?| ->]]; done.
Qed.

(** Two candidates, nothing imported yet. *)
Lemma find_matches_two_match a b :
  _is_match tol a b = true → find_matches tol [a; b] ∅ = ([mkPair a b], []).
Proof.
  intros Hm. unfold find_matches.
  rewrite (find_matches_loop_pair tol ∅ a [b] ∅ b);
    [|set_solver|set_solver|apply find_partner_hit; [set_solver|set_solver|done]].
  cbv zeta. by rewrite find_matches_loop_skip by set_solver.
Qed.

Lemma find_matches_two_no_match a b :
  id a ≠ id b → _is_match tol a b = false → find_matches tol [a; b] ∅ = ([], [a; b]).
Proof.
  intros Hid Hm. unfold find_matches.
  rewrite (find_matches_loop_single tol ∅ a [b] ∅);
    [|set_solver|set_solver|by rewrite find_partner_miss by auto].
  cbv zeta.
  by rewrite (find_matches_loop_single tol ∅ b [] _); [|set_solver|set_solver|].
Qed.

Lemma find_matches_two_pairs a b :
  _is_match tol a b = false → (find_matches tol [a; b] ∅).1 = [].
Proof.
  intros Hm. unfold find_matches.
  rewrite (find_matches_loop_single tol ∅ a [b] ∅);
    [|set_solver|set_solver|by rewrite find_partner_miss by auto].
  cbv zeta. cbn [fst matches].
  destruct (decide (id b ∈ (∅ ∪ {[id a]} : gset string))) as [Hin|Hin].
  - by rewrite find_matches_loop_skip by auto.
  - by rewrite (find_matches_loop_single tol ∅ b [] _); [|done|set_solver|].
Qed.

(** Three candidates of which the first is paired with the second. *)
Lemma find_matches_three_first E x y z :
  id x ≠ id y → id x ≠ id z → id y ≠ id z →
  id x ∉ E → id y ∉ E → id z ∉ E →
  _is_match tol x y = true →
  find_matches tol [x; y; z] E = ([mkPair x y], [z]).
Proof.
  intros Hxy Hxz Hyz Hx Hy Hz Hm. unfold find_matches.
  rewrite (find_matches_loop_pair tol E x [y; z] ∅ y);
    [|set_solver|done|apply find_partner_hit; [set_solver|done|done]].
  cbv zeta. rewrite find_matches_loop_skip by set_solver.
  by rewrite (find_matches_loop_single tol E z [] _); [|set_solver|done|].
Qed.

(** Three candidates of which the first is paired with the third. *)
Lemma find_matches_three_last E x y z :
  id x ≠ id y → id x ≠ id z → id y ≠ id z →
  id x ∉ E → id y ∉ E → id z ∉ E →
  _is_match tol x y = false → _is_match tol x z = true →
  find_matches tol [x; y; z] E = ([mkPair x z], [y]).
Proof.
  intros Hxy Hxz Hyz Hx Hy Hz Hn Hm. unfold find_matches.
  rewrite (find_matches_loop_pair tol E x [y; z] ∅ z);
    [|set_solver|done|
     rewrite find_partner_miss by auto; apply find_partner_hit; [set_solver|done|done]].
  cbv zeta.
  rewrite (find_matches_loop_single tol E y [z] _);
    [|set_solver|done|by rewrite find_partner_miss by (left; set_solver)].
  cbv zeta. by rewrite find_matches_loop_skip by set_solver.
Qed.

End MatcherCases.

(** ** Claims about the matcher *)

(** C2. Transfer match predicate.  [_is_match] holds exactly when the two
    amounts are equal (float [==]), the account ids differ, the directions
    are opposite and the booking dates are at most [tolerance_days] days
    apart (inclusive).  Every pair [find_matches] returns, for any input,
    satisfies these conditions.  Two candidates [a; b] with nothing imported
    yet are returned as the pair (a, b) if and only if they satisfy them, and
    then nothing is left unmatched; when they have different ids and do not
    satisfy them (in particular when the date gap exceeds the tolerance), no
    pair is returned and both are in the unmatched list. *)
Theorem C2_transfer_match_predicate (tol : Z) (a b : B4Transaction) :
  (_is_match tol a b = true ↔ match_conditions tol a b)
  ∧ (∀ l E p, p ∈ (find_matches tol l E).1 →
       match_conditions tol (source_tx p) (dest_tx p))
  ∧ ((find_matches tol [a; b] ∅).1 = [mkPair a b] ↔ match_conditions tol a b)
  ∧ (match_conditions tol a b → find_matches tol [a; b] ∅ = ([mkPair a b], []))
  ∧ (id a ≠ id b → ¬ match_conditions tol a b →
       find_matches tol [a; b] ∅ = ([], [a; b]))
  ∧ (id a ≠ id b → tol < Z.abs (booking_date a - booking_date b) →
       find_matches tol [a; b] ∅ = ([], [a; b])).
Proof.
  split_and!.
  - apply is_match_conditions.
  - intros l E p Hp. apply is_match_conditions.
    by destruct (proj1 (find_matches_loop_sound tol E l ∅) p Hp) as (_&_&_&_&?&_).
  - split.
    + intros Hp. apply is_match_conditions.
      destruct (_is_match tol a b) eqn:Hm; [done|].
      by rewrite find_matches_two_pairs in Hp.
    + intros Hm%is_match_conditions. by rewrite find_matches_two_match.
  - intros Hm%is_match_conditions. by apply find_matches_two_match.
  - intros Hid Hm. apply find_matches_two_no_match; [done|].
    apply not_true_is_false. by rewrite is_match_conditions.
  - intros Hid Hgap. apply find_matches_two_no_match; [done|].
    by apply is_match_false_date.
Qed.

(** The records of the test suite: three days apart they are paired, five
    days apart they are both unmatched. *)
Lemma C2_transfer_match_predicate_witness :
  find_matches 3 [Samples.tx_debit; Samples.tx_credit_3_days] ∅
    = ([mkPair Samples.tx_debit Samples.tx_credit_3_days], [])
  ∧ find_matches 3 [Samples.tx_debit; Samples.tx_credit_5_days] ∅
    = ([], [Samples.tx_debit; Samples.tx_credit_5_days]).
Proof.
  split.
  - apply (C2_transfer_match_predicate 3 Samples.tx_debit Samples.tx_credit_3_days).
    unfold match_conditions. split_and!; [reflexivity|discriminate|discriminate|].
    vm_compute. discriminate.
  - apply (C2_transfer_match_predicate 3 Samples.tx_debit Samples.tx_credit_5_days).
    + discriminate.
    + vm_compute. reflexivity.
Defined.

(** C3. First-match policy.  [_find_partner] returns the first candidate, in
    list order, that is neither processed nor existing and matches; the loop
    pairs a left record that is neither processed nor existing with that
    candidate among the later records, and lists it as unmatched when there
    is none.  Given three candidates with distinct, not yet imported ids, of
    which A matches both B and C, A is paired with the one of B and C that
    comes first in the input, in each of the six input orders, and the other
    one is unmatched.  No record whose id is in [existing_ids] is in a pair
    or in the unmatched list. *)
Theorem C3_first_match_policy (tol : Z) (E : gset string) :
  (∀ tx cands P, _find_partner tol tx cands P E = List.find (eligible tol E tx P) cands)
  ∧ (∀ tx1 later ms us P,
       id tx1 ∉ P → id tx1 ∉ E →
       find_matches_loop tol (tx1 :: later) E (mkMS ms us P) =
       match List.find (eligible tol E tx1 P) later with
       | Some partner =>
           find_matches_loop tol later E
             (mkMS (ms ++ [mkPair tx1 partner]) us (P ∪ {[id tx1; id partner]}))
       | None =>
           find_matches_loop tol later E (mkMS ms (us ++ [tx1]) (P ∪ {[id tx1]}))
       end)
  ∧ (∀ A B C,
       id A ≠ id B → id A ≠ id C → id B ≠ id C →
       id A ∉ E → id B ∉ E → id C ∉ E →
       _is_match tol A B = true → _is_match tol A C = true →
       find_matches tol [A; B; C] E = ([mkPair A B], [C])
       ∧ find_matches tol [A; C; B] E = ([mkPair A C], [B])
       ∧ find_matches tol [B; A; C] E = ([mkPair B A], [C])
       ∧ find_matches tol [C; A; B] E = ([mkPair C A], [B])
       ∧ find_matches tol [B; C; A] E = ([mkPair B A], [C])
       ∧ find_matches tol [C; B; A] E = ([mkPair C A], [B]))
  ∧ (∀ l,
       (∀ p, p ∈ (find_matches tol l E).1 →
          id (source_tx p) ∉ E ∧ id (dest_tx p) ∉ E)
       ∧ (∀ u, u ∈ (find_matches tol l E).2 → id u ∉ E)).
Proof.
  split_and!.
  - intros. apply find_partner_find.
  - intros tx1 later ms us P HP HE. rewrite <- find_partner_find. simpl.
    by rewrite (bool_decide_eq_false_2 _ HP), (bool_decide_eq_false_2 _ HE).
  - intros A B C HAB HAC HBC HA HB HC mAB mAC.
    assert (_is_match tol B A = true) as mBA by by rewrite is_match_sym.
    assert (_is_match tol C A = true) as mCA by by rewrite is_match_sym.
    assert (direction B = direction C) as Hdir.
    { apply is_match_conditions in mAB as (_&_&?&_), mAC as (_&_&?&_).
      by destruct (direction A), (direction B), (direction C). }
    assert (_is_match tol B C = false) as mBC by by apply is_match_same_direction.
    assert (_is_match tol C B = false) as mCB by by apply is_match_same_direction.
    split_and!.
    + by apply find_matches_three_first.
    + by apply find_matches_three_first.
    + by apply find_matches_three_first.
    + by apply find_matches_three_first.
    + by apply find_matches_three_last.
    + by apply find_matches_three_last.
  - intros l. destruct (find_matches_loop_sound tol E l ∅) as [H1 H2]. split.
    + intros p Hp. by destruct (H1 p Hp) as (_&?&_&?&_).
    + intros u Hu. by destruct (H2 u Hu) as (_&?&_).
Qed.

(** The debit is paired with the credit that comes first, although the
    other credit is of the same day. *)
Lemma C3_first_match_policy_witness :
  find_matches 3 [Samples.tx_debit; Samples.tx_credit_3_days; Samples.tx_credit_same_day] ∅
    = ([mkPair Samples.tx_debit Samples.tx_credit_3_days], [Samples.tx_credit_same_day])
  ∧ find_matches 3 [Samples.tx_credit_same_day; Samples.tx_credit_3_days; Samples.tx_debit] ∅
    = ([mkPair Samples.tx_credit_same_day Samples.tx_debit], [Samples.tx_credit_3_days]).
Proof.
  pose proof (proj1 (proj2 (proj2 (C3_first_match_policy 3 ∅)))
                Samples.tx_debit Samples.tx_credit_3_days Samples.tx_credit_same_day) as H.
  destruct H as (H1 & _ & _ & _ & _ & H6);
    [ discriminate | discriminate | discriminate
    | set_solver | set_solver | set_solver
    | reflexivity | reflexivity
    | exact (conj H1 H6) ].
Defined.

(** C10. Matcher output partition.  For candidates with pairwise distinct
    ids, the members of the returned pairs together with the unmatched list
    are, up to order, exactly the input records whose id is not in
    [existing_ids], without repetition: each such record is in exactly one
    pair or exactly once in the unmatched list.  A record whose id is in
    [existing_ids] is in neither, and the two members of every pair are
    records of the input with the left member before the right one. *)
Theorem C10_matcher_partition (tol : Z) (l : list B4Transaction) (E : gset string) :
  NoDup (map id l) →
  let ps := (find_matches tol l E).1 in
  let us := (find_matches tol l E).2 in
  flat_map members ps ++ us ≡ₚ filter (λ t, id t ∉ E) l
  ∧ NoDup (map id (flat_map members ps ++ us))
  ∧ (∀ t, t ∈ l → id t ∉ E → t ∈ flat_map members ps ++ us)
  ∧ (∀ t, t ∈ l → id t ∈ E → t ∉ flat_map members ps ∧ t ∉ us)
  ∧ (∀ p, p ∈ ps → ∃ l1 l2 l3, l = l1 ++ source_tx p :: l2 ++ dest_tx p :: l3).
Proof.
  intros Hnd ps us.
  assert (flat_map members ps ++ us ≡ₚ filter (λ t, id t ∉ E) l) as Hperm.
  { subst ps us. unfold find_matches. cbn [fst snd].
    rewrite (find_matches_loop_partition tol E l ∅ Hnd).
    erewrite list_filter_iff; [done|]. intros t. unfold fresh. set_solver. }
  split_and!.
  - done.
  - rewrite Hperm. by apply NoDup_ids_filter.
  - intros t Hin HE. rewrite Hperm. by apply list_elem_of_filter.
  - intros t Hin HE.
    assert (t ∉ flat_map members ps ++ us) as Hn.
    { rewrite Hperm. intros [? _]%list_elem_of_filter. done. }
    split; intros ?; apply Hn; apply elem_of_app; auto.
  - intros p Hp.
    by destruct (proj1 (find_matches_loop_sound tol E l ∅) p Hp) as (_&_&_&_&_&?).
Qed.

(** Three candidates of which one is already imported. *)
Lemma C10_matcher_partition_witness :
  flat_map members
    (find_matches 3 [Samples.tx_debit; Samples.tx_credit_5_days; Samples.tx_credit_2_days] {["3"]}).1
  ++ (find_matches 3 [Samples.tx_debit; Samples.tx_credit_5_days; Samples.tx_credit_2_days] {["3"]}).2
  ≡ₚ filter (λ t, id t ∉ ({["3"]} : gset string))
       [Samples.tx_debit; Samples.tx_credit_5_days; Samples.tx_credit_2_days].
Proof.
  apply (C10_matcher_partition 3
           [Samples.tx_debit; Samples.tx_credit_5_days; Samples.tx_credit_2_days] {["3"]}).
  simpl. repeat (apply NoDup_cons; split; [set_solver|]). apply NoDup_nil_2.
Defined.

(** ** Strings *)

Section StringFacts.

Lemma append_nil_l (b : string) : "" +:+ b = b.
Proof. reflexivity. Qed.

Lemma append_cons (x : ascii) (a b : string) : String x a +:+ b = String x (a +:+ b).
Proof. reflexivity. Qed.

Lemma append_assoc (a b c : string) : (a +:+ b) +:+ c = a +:+ b +:+ c.
Proof.
  induction a as [|x a IH]; [done|]. by rewrite !append_cons, IH.
Qed.

Lemma append_nil_r (a : string) : a +:+ "" = a.
Proof. induction a as [|x a IH]; [done|]. by rewrite append_cons, IH. Qed.

Lemma prefix_nil (s : string) : String.prefix "" s = true.
Proof. by destruct s. Qed.

Lemma prefix_cons (x y : ascii) (a b : string) :
  String.prefix (String x a) (String y b) = bool_decide (x = y) && String.prefix a b.
Proof.
  simpl. destruct (ascii_dec x y) as [->|Hne].
  - by rewrite bool_decide_eq_true_2.
  - by rewrite bool_decide_eq_false_2.
Qed.

Lemma prefix_append (a b : string) : String.prefix a (a +:+ b) = true.
Proof.
  induction a as [|x a IH]; [apply prefix_nil|].
  rewrite append_cons, prefix_cons, IH. by rewrite bool_decide_eq_true_2.
Qed.

Lemma char_in_true (c : ascii) (s : string) :
  char_in c s = true ↔ ∃ a b, s = a +:+ String c b.
Proof.
  induction s as [|x s IH]; simpl.
  - split; [done|]. intros (a & b & H). by destruct a.
  - rewrite orb_true_iff, IH, Ascii.eqb_eq. split.
    + intros [->|(a & b & ->)]; [by exists "", s|by exists (String x a), b].
    + intros ([|y a] & b & H); rewrite ?append_nil_l, ?append_cons in H;
        injection H as -> ->; eauto.
Qed.

Lemma char_in_append (c : ascii) (a b : string) :
  char_in c (a +:+ b) = char_in c a || char_in c b.
Proof.
  induction a as [|x a IH]; [done|]. rewrite append_cons. simpl. by rewrite IH, orb_assoc.
Qed.

(** A character that does not occur in [sep] is a barrier: no occurrence of
    [sep] runs across it. *)
Lemma prefix_barrier (sep d r : string) (z : ascii) :
  char_in z sep = false →
  String.prefix sep (d +:+ String z r) = true → String.prefix sep d = true.
Proof.
  revert d. induction sep as [|x sep IH]; intros d Hz; [by rewrite !prefix_nil|].
  simpl in Hz. apply orb_false_iff in Hz as [Hzx Hz].
  destruct d as [|y d]; rewrite ?append_nil_l, ?append_cons, !prefix_cons.
  - apply Ascii.eqb_neq in Hzx. by rewrite bool_decide_eq_false_2 by congruence.
  - intros [-> H]%andb_true_iff. simpl. apply (IH _ Hz H).
Qed.

Lemma contains_nil_false (sep : string) : str_contains sep "" = false → sep ≠ "".
Proof. by intros H ->. Qed.

Lemma contains_prefix (sep s : string) :
  String.prefix sep s = true → str_contains sep s = true.
Proof. intros H. destruct s; simpl in *; by rewrite H. Qed.

Lemma contains_cons (sep : string) (x : ascii) (s : string) :
  str_contains sep (String x s) = String.prefix sep (String x s) || str_contains sep s.
Proof. done. Qed.

Lemma contains_append_r (sep a b : string) :
  str_contains sep b = true → str_contains sep (a +:+ b) = true.
Proof.
  intros H. induction a as [|x a IH]; [done|].
  rewrite append_cons, contains_cons, IH. apply orb_true_r.
Qed.

Lemma contains_marker (sep a b : string) : str_contains sep (a +:+ sep +:+ b) = true.
Proof. apply contains_append_r, contains_prefix, prefix_append. Qed.

Lemma contains_barrier (sep d r : string) (z : ascii) :
  char_in z sep = false →
  str_contains sep d = false → str_contains sep r = false →
  str_contains sep (d +:+ String z r) = false.
Proof.
  intros Hz Hd Hr. induction d as [|x d IH].
  - rewrite append_nil_l, contains_cons, Hr, orb_false_r.
    apply not_true_is_false. intros H.
    apply (prefix_barrier sep "" r z Hz) in H.
    by rewrite (contains_prefix _ _ H) in Hd.
  - rewrite append_cons. rewrite contains_cons in Hd |- *.
    apply orb_false_iff in Hd as [Hp Hd]. rewrite (IH Hd), orb_false_r.
    apply not_true_is_false. intros H.
    apply (prefix_barrier sep (String x d) r z Hz) in H. congruence.
Qed.

Lemma contains_single (c : ascii) (s : string) :
  str_contains (String c "") s = char_in c s.
Proof.
  induction s as [|x s IH]; [done|].
  rewrite contains_cons, prefix_cons, prefix_nil, andb_true_r, IH. simpl.
  f_equal. destruct (Ascii.eqb_spec c x) as [->|Hne].
  - by rewrite bool_decide_eq_true_2.
  - by rewrite bool_decide_eq_false_2.
Qed.

Lemma contains_sep_nonempty (sep s : string) : str_contains sep s = false → sep ≠ "".
Proof. intros H ->. by destruct s. Qed.

Lemma contains_nil (sep : string) : sep ≠ "" → str_contains sep "" = false.
Proof. by destruct sep. Qed.

Lemma prefix_take (sep : string) (n : nat) (s : string) :
  String.prefix sep (str_take n s) = true → String.prefix sep s = true.
Proof.
  revert n s. induction sep as [|x sep IH]; intros n s; [by rewrite !prefix_nil|].
  destruct n as [|n], s as [|y s]; simpl str_take; try done.
  rewrite !prefix_cons. intros [-> H]%andb_true_iff. by rewrite (IH _ _ H).
Qed.

Lemma contains_take (sep : string) (n : nat) (s : string) :
  str_contains sep s = false → str_contains sep (str_take n s) = false.
Proof.
  intros Hs. pose proof (contains_sep_nonempty _ _ Hs) as Hne.
  revert s Hs. induction n as [|n IH]; intros s Hs.
  - replace (str_take 0 s) with "" by (by destruct s). by apply contains_nil.
  - destruct s as [|y s]; [by apply contains_nil|].
    simpl str_take. rewrite contains_cons in Hs |- *.
    apply orb_false_iff in Hs as [Hs1 Hs2]. rewrite (IH _ Hs2), orb_false_r.
    apply not_true_is_false. intros H. apply (prefix_take _ (S n) (String y s)) in H.
    congruence.
Qed.

(** *** [split] *)

Lemma split_go_nonempty (sep : string) (skip : nat) (s : string) :
  split_go sep skip s ≠ [].
Proof.
  revert skip. induction s as [|x s IH]; intros skip; [done|].
  cbn [split_go]. destruct skip; [|apply IH].
  destruct (String.prefix sep (String x s)); [done|].
  by destruct (split_go sep 0 s).
Qed.

Lemma split_go_skip (sep k b : string) :
  split_go sep (String.length k) (k +:+ b) = split_go sep 0 b.
Proof. induction k as [|x k IH]; [done|]. rewrite append_cons. simpl. apply IH. Qed.

(** A string without an occurrence of the separator is one piece. *)
Lemma str_split_none (sep s : string) :
  str_contains sep s = false → str_split sep s = [s].
Proof.
  unfold str_split. induction s as [|x s IH]; [done|].
  rewrite contains_cons. intros [Hp Hs]%orb_false_iff.
  cbn [split_go]. rewrite Hp, (IH Hs). done.
Qed.

(** Up to the first occurrence of the separator. *)
Lemma str_split_first (sep a b : string) :
  sep ≠ "" → occurs_within sep a (sep +:+ b) = false →
  str_split sep (a +:+ sep +:+ b) = a :: str_split sep b.
Proof.
  unfold str_split. intros Hsep. induction a as [|x a IH]; intros Ha.
  - destruct sep as [|c sep]; [done|].
    change ("" +:+ String c sep +:+ b) with (String c (sep +:+ b)).
    cbn [split_go].
    change (String c (sep +:+ b)) with (String c sep +:+ b) at 1.
    rewrite prefix_append. cbn [String.length Nat.pred].
    by rewrite split_go_skip.
  - cbn [occurs_within] in Ha. apply orb_false_iff in Ha as [Hp Ha].
    rewrite !append_cons in *. cbn [split_go]. rewrite Hp, (IH Ha). done.
Qed.

Lemma occurs_within_barrier (sep d rest : string) (z : ascii) :
  char_in z sep = false → str_contains sep d = false →
  occurs_within sep (d +:+ String z "") rest = false.
Proof.
  intros Hz Hd. induction d as [|x d IH].
  - rewrite append_nil_l. cbn [occurs_within]. rewrite orb_false_r, append_cons.
    apply not_true_is_false. intros H.
    apply (prefix_barrier sep "" _ z Hz) in H.
    by rewrite (contains_prefix _ _ H) in Hd.
  - rewrite contains_cons in Hd. apply orb_false_iff in Hd as [Hp Hd].
    rewrite append_cons. cbn [occurs_within]. rewrite (IH Hd), orb_false_r.
    apply not_true_is_false. intros H.
    rewrite <- append_cons, append_assoc, append_cons in H.
    apply (prefix_barrier sep (String x d) _ z Hz) in H. congruence.
Qed.

Lemma occurs_within_single (c : ascii) (a rest : string) :
  char_in c a = false → occurs_within (String c "") a rest = false.
Proof.
  induction a as [|x a IH]; [done|]. simpl char_in.
  intros [Hx Ha]%orb_false_iff. cbn [occurs_within]. rewrite append_cons.
  rewrite prefix_cons, (IH Ha). apply Ascii.eqb_neq in Hx.
  by rewrite bool_decide_eq_false_2.
Qed.

End StringFacts.

(** ** The marker in the comment field *)

Section MarkerFacts.

Lemma foldl_add_ids (acc : gset string) (ids : list string) :
  foldl (λ acc single_id, acc ∪ {[single_id]}) acc ids = acc ∪ list_to_set ids.
Proof.
  revert acc. induction ids as [|i ids IH]; intros acc; simpl.
  - set_solver.
  - rewrite IH. set_solver.
Qed.

(** A comment that contains the marker prefix splits into at least two
    pieces: the [IndexError] of [marker_ids] cannot happen. *)
Lemma str_split_contains (sep s : string) :
  sep ≠ "" → str_contains sep s = true →
  ∃ a b rest, str_split sep s = a :: b :: rest.
Proof.
  unfold str_split. intros Hsep. induction s as [|x s IH].
  - destruct sep; [done|]. discriminate.
  - rewrite contains_cons. cbn [split_go].
    destruct (String.prefix sep (String x s)) eqn:Hp.
    + intros _.
      destruct (split_go sep (Nat.pred (String.length sep)) s) as [|b rest] eqn:Hs;
        [by apply split_go_nonempty in Hs|]. eauto.
    + simpl. intros (a & b & rest & ->)%IH. eauto.
Qed.

Lemma marker_ids_total (comment : string) :
  str_contains "[B4ID:" comment = true → ∃ ids, marker_ids comment = Some ids.
Proof.
  intros (a & b & rest & H)%str_split_contains; [|done].
  unfold marker_ids. rewrite H.
  destruct (str_split "]" b) as [|raw ?] eqn:Hs; [by apply split_go_nonempty in Hs|].
  eauto.
Qed.

(** The ids of one comment, without the loop around them. *)
Lemma ids_of_transaction_eq (tx : Payload) :
  ids_of_transaction tx =
  if str_contains "[B4ID:" (p_comment tx)
  then list_to_set (default [] (marker_ids (p_comment tx)))
  else ∅.
Proof.
  unfold ids_of_transaction. simpl.
  destruct (str_contains "[B4ID:" (p_comment tx)) eqn:Hc; [|done].
  destruct (marker_ids_total _ Hc) as [ids ->]. simpl.
  rewrite foldl_add_ids. set_solver.
Qed.

(** The loop of [_load_existing_ids] collects the ids of every transaction. *)
Lemma load_existing_ids_loop_union (txs : list Payload) (acc : gset string) :
  _load_existing_ids_loop txs acc = acc ∪ ⋃ (ids_of_transaction <$> txs).
Proof.
  revert acc. induction txs as [|tx txs IH]; intros acc; simpl.
  - set_solver.
  - pose proof (ids_of_transaction_eq tx) as Htx.
    destruct (str_contains "[B4ID:" (p_comment tx)) eqn:Hc.
    + destruct (marker_ids_total _ Hc) as [ids Hids]. rewrite Hids in Htx |- *.
      rewrite IH, foldl_add_ids, Htx. simpl. set_solver.
    + rewrite IH, Htx. set_solver.
Qed.

Lemma ids_of_ledger_app (txs1 txs2 : list Payload) :
  ids_of_ledger (txs1 ++ txs2) = ids_of_ledger txs1 ∪ ids_of_ledger txs2.
Proof.
  unfold ids_of_ledger. rewrite !load_existing_ids_loop_union, fmap_app, union_list_app_L.
  set_solver.
Qed.

Lemma ids_of_ledger_single (tx : Payload) : ids_of_ledger [tx] = ids_of_transaction tx.
Proof. done. Qed.

(** What [marker_ids] reads back from a comment built like the one of
    [_create_transaction_payload]. *)
Lemma marker_ids_comment (d i : string) :
  str_contains "[B4ID:" d = false →
  char_in "]" i = false → str_contains "[B4ID:" i = false →
  str_contains "[B4ID:" (d +:+ " [B4ID:" +:+ i +:+ "]") = true
  ∧ marker_ids (d +:+ " [B4ID:" +:+ i +:+ "]") = Some (str_split "_" i).
Proof.
  intros Hd Hb Hi.
  assert (d +:+ " [B4ID:" +:+ i +:+ "]" = (d +:+ " ") +:+ "[B4ID:" +:+ (i +:+ "]")) as ->.
  { by rewrite append_assoc. }
  split; [apply contains_marker|].
  unfold marker_ids.
  rewrite str_split_first; [|done|by apply occurs_within_barrier].
  rewrite (str_split_none "[B4ID:" (i +:+ "]")); [|by apply contains_barrier].
  change (i +:+ "]") with (i +:+ "]" +:+ "").
  rewrite str_split_first; [done|done|by apply occurs_within_single].
Qed.

Lemma plain_id_split (i : string) : plain_id i → str_split "_" i = [i].
Proof.
  intros (Hu & _ & _). apply str_split_none. by rewrite contains_single.
Qed.

Lemma plain_ids_split (a b : string) :
  plain_id a → plain_id b → str_split "_" (a +:+ "_" +:+ b) = [a; b].
Proof.
  intros (Ha & _ & _) Hb.
  rewrite str_split_first; [|done|by apply occurs_within_single].
  by rewrite plain_id_split.
Qed.

Lemma plain_ids_combined (a b : string) :
  plain_id a → plain_id b →
  char_in "]" (a +:+ "_" +:+ b) = false ∧ str_contains "[B4ID:" (a +:+ "_" +:+ b) = false.
Proof.
  intros (_ & Ha1 & Ha2) (_ & Hb1 & Hb2). split.
  - rewrite !char_in_append, Ha1, Hb1. done.
  - by apply contains_barrier.
Qed.

(** A single id comes back as itself. *)
Lemma ids_of_transaction_single (tx : Payload) (description i : string) :
  str_contains "[B4ID:" description = false → plain_id i →
  p_comment tx = marker_comment description i →
  ids_of_transaction tx = {[i]}.
Proof.
  intros Hd Hi Hc. rewrite ids_of_transaction_eq, Hc. unfold marker_comment.
  destruct Hi as (Hu & Hb & Hm).
  destruct (marker_ids_comment (str_take 200 description) i) as [-> ->];
    [by apply contains_take|done|done|].
  rewrite plain_id_split by done. simpl. set_solver.
Qed.

(** A combined id comes back as its two parts. *)
Lemma ids_of_transaction_combined (tx : Payload) (description a b : string) :
  str_contains "[B4ID:" description = false → plain_id a → plain_id b →
  p_comment tx = marker_comment description (a +:+ "_" +:+ b) →
  ids_of_transaction tx = {[a; b]}.
Proof.
  intros Hd Ha Hb Hc. rewrite ids_of_transaction_eq, Hc. unfold marker_comment.
  destruct (plain_ids_combined a b Ha Hb) as [H1 H2].
  destruct (marker_ids_comment (str_take 200 description) (a +:+ "_" +:+ b)) as [-> ->];
    [by apply contains_take|done|done|].
  rewrite plain_ids_split by done. simpl. set_solver.
Qed.

End MarkerFacts.

(** ** The category service *)

Section CategoryFacts.

Lemma bind_eq {A B} (m : M A) (k : A → M B) (st : State) :
  bind m k st = match m st with Some (a, st') => k a st' | None => None end.
Proof. done. Qed.

Lemma create_if_absent_present name key parent_id cat_type st v :
  _category_map (category_service st) !! key = Some v →
  create_if_absent name key parent_id cat_type st = Some (true, st).
Proof.
  intros H. unfold create_if_absent, bind, get_state, ret.
  rewrite bool_decide_eq_true_2; [done|]. apply elem_of_dom; eauto.
Qed.

Lemma create_if_absent_created name key parent_id cat_type st new_id :
  _category_map (category_service st) !! key = None →
  next_cat_answer st = CatSuccess new_id →
  create_if_absent name key parent_id cat_type st =
  Some (true, category_stored key new_id
                (category_call_logged (mkCatPayload name cat_type parent_id "1" "8e8e93") st)).
Proof.
  intros H Ha. unfold create_if_absent, bind, get_state, ret.
  rewrite bool_decide_eq_false_2; [|by apply not_elem_of_dom].
  unfold call_remote, create_category. fold (next_cat_answer st). rewrite Ha. done.
Qed.

Lemma create_if_absent_failed name key parent_id cat_type st :
  _category_map (category_service st) !! key = None →
  is_cat_success (next_cat_answer st) = false →
  create_if_absent name key parent_id cat_type st =
  Some (false, category_call_logged (mkCatPayload name cat_type parent_id "1" "8e8e93") st).
Proof.
  intros H Ha. unfold create_if_absent, bind, get_state, ret.
  rewrite bool_decide_eq_false_2; [|by apply not_elem_of_dom].
  unfold call_remote, create_category. fold (next_cat_answer st).
  by destruct (next_cat_answer st).
Qed.

Lemma path_parts_cons (full_path : string) :
  ∃ more, path_parts full_path = main_name_of full_path :: more
          ∧ sub_name_of full_path = head more.
Proof.
  unfold main_name_of, sub_name_of, path_parts.
  destruct (str_split ":" full_path) as [|a l] eqn:H; [by apply split_go_nonempty in H|].
  simpl. exists (map strip l). split; [done|]. by destruct l.
Qed.

(** The body of [ensure_category_hierarchy] for a path that takes the
    generic hierarchy. *)
Lemma ensure_category_hierarchy_eq full_path trans_type st :
  full_path ≠ "" → full_path ≠ "Umbuchung" →
  ensure_category_hierarchy full_path trans_type st =
  (let* main_ok := create_if_absent (main_name_of full_path)
                     (main_key_of full_path trans_type) "0" (cat_type_of trans_type) in
   if negb main_ok then ret "0"
   else
     let* parent_id := category_map_at (main_key_of full_path trans_type) in
     match sub_name_of full_path with
     | Some sub_name =>
         let* sub_ok := create_if_absent sub_name
                          (sub_key_of full_path trans_type sub_name) parent_id
                          (cat_type_of trans_type) in
         if negb sub_ok then ret parent_id
         else category_map_at (sub_key_of full_path trans_type sub_name)
     | None => ret parent_id
     end) st.
Proof.
  intros H1%String.eqb_neq H2%String.eqb_neq.
  unfold ensure_category_hierarchy. rewrite H1, H2. simpl orb. cbv iota.
  destruct (path_parts_cons full_path) as (more & Hparts & Hsub).
  fold (path_parts full_path). rewrite Hparts, Hsub.
  unfold main_key_of, sub_key_of, cat_type_of.
  by destruct more.
Qed.

Lemma category_map_at_Some key st v :
  _category_map (category_service st) !! key = Some v →
  category_map_at key st = Some (v, st).
Proof. intros H. unfold category_map_at, bind, get_state, ret. by rewrite H. Qed.

Lemma append_longer (a b : string) (c : ascii) : a +:+ String c b ≠ a.
Proof.
  induction a as [|x a IH]; [done|]. rewrite append_cons. intros [= H]. by apply IH in H.
Qed.

Lemma sub_key_ne_main_key full_path trans_type sub_name :
  sub_key_of full_path trans_type sub_name ≠ main_key_of full_path trans_type.
Proof.
  unfold sub_key_of, main_key_of.
  rewrite <- (append_assoc (pretty _) "_" (main_name_of _ +:+ _)).
  rewrite <- (append_assoc (pretty _ +:+ "_")).
  rewrite <- (append_assoc (pretty _) "_" (main_name_of _)).
  apply append_longer.
Qed.

Lemma create_if_absent_outcome name key parent_id cat_type st :
  ∃ b st', create_if_absent name key parent_id cat_type st = Some (b, st')
           ∧ absent_outcome key (mkCatPayload name cat_type parent_id "1" "8e8e93") st b st'.
Proof.
  destruct (_category_map (category_service st) !! key) as [v|] eqn:Hk.
  - exists true, st. split; [by eapply create_if_absent_present|by econstructor].
  - destruct (next_cat_answer st) as [new_id| |] eqn:Ha.
    + eexists true, _. split; [by apply create_if_absent_created|by constructor].
    + eexists false, _. split; [apply create_if_absent_failed|constructor]; by rewrite ?Ha.
    + eexists false, _. split; [apply create_if_absent_failed|constructor]; by rewrite ?Ha.
Qed.

Lemma category_step_refl st : category_step st st.
Proof. by repeat split. Qed.

Lemma category_step_trans st1 st2 st3 :
  category_step st1 st2 → category_step st2 st3 → category_step st1 st3.
Proof.
  unfold category_step. intros H1 H2.
  destruct H1 as (?&?&?&?&?&?&?&?&?&?&?&?), H2 as (?&?&?&?&?&?&?&?&?&?&?&?).
  split_and!; congruence.
Qed.

Lemma absent_outcome_step key payload st b st' :
  absent_outcome key payload st b st' → category_step st st'.
Proof. intros []; by repeat split. Qed.

(** After [create_if_absent] returned [true] the key is in the map. *)
Lemma absent_outcome_true key payload st st' :
  absent_outcome key payload st true st' →
  ∃ v, _category_map (category_service st') !! key = Some v.
Proof.
  inversion 1; subst; [eauto|]. eexists. simpl. apply lookup_insert_eq.
Qed.

(** What [create_if_absent] does to the other keys, the call log and the
    counter. *)
Lemma absent_outcome_effect key payload st b st' :
  absent_outcome key payload st b st' →
  ∃ n, (n ≤ 1)%nat
       ∧ cat_calls st' = (cat_calls st + n)%nat
       ∧ r_cat_calls (remote st') = r_cat_calls (remote st) ++ replicate n payload
       ∧ new_categories (stats st') = (new_categories (stats st) + cat_successes st (cat_calls st) n)%nat
       ∧ size (_category_map (category_service st'))
         = (size (_category_map (category_service st)) + cat_successes st (cat_calls st) n)%nat
       ∧ (b = true → ∀ i, (cat_calls st ≤ i < cat_calls st + n)%nat →
            is_cat_success (r_cat_answer (remote st) i) = true)
       ∧ (b = false → n = 1%nat ∧ is_cat_success (next_cat_answer st) = false)
       ∧ (∀ k v, _category_map (category_service st) !! k = Some v →
            _category_map (category_service st') !! k = Some v).
Proof.
  intros [v Hk|new_id Hk Ha|Hk Ha].
  - exists 0%nat. unfold cat_successes. simpl. rewrite app_nil_r.
    split_and!; try done; try lia; try (intros; lia).
  - exists 1%nat. unfold cat_calls, cat_successes, next_cat_answer in *. simpl.
    rewrite filter_cons, filter_nil. rewrite decide_True by by rewrite Ha.
    rewrite length_app. simpl.
    rewrite map_size_insert_None by done.
    split_and!; try done; try lia.
    + intros _ i ?. assert (i = length (r_cat_calls (remote st))) as -> by lia.
      by rewrite Ha.
    + intros k v Hv. rewrite lookup_insert_ne; [done|]. intros <-. congruence.
  - exists 1%nat. unfold cat_calls, cat_successes, next_cat_answer in *. simpl.
    rewrite filter_cons, filter_nil. rewrite decide_False by by rewrite Ha.
    rewrite length_app. simpl.
    split_and!; try done; lia.
Qed.

(** The ways through [ensure_category_hierarchy] for a path that takes the
    generic hierarchy. *)
Lemma ensure_category_hierarchy_cases full_path trans_type st :
  full_path ≠ "" → full_path ≠ "Umbuchung" →
  let ct := cat_type_of trans_type in
  let main_key := main_key_of full_path trans_type in
  ∃ b1 st1,
    absent_outcome main_key (mkCatPayload (main_name_of full_path) ct "0" "1" "8e8e93") st b1 st1
    ∧ if negb b1 then ensure_category_hierarchy full_path trans_type st = Some ("0", st1)
      else ∃ top_id,
        _category_map (category_service st1) !! main_key = Some top_id
        ∧ match sub_name_of full_path with
          | None => ensure_category_hierarchy full_path trans_type st = Some (top_id, st1)
          | Some sub_name =>
              let sub_key := sub_key_of full_path trans_type sub_name in
              ∃ b2 st2,
                absent_outcome sub_key (mkCatPayload sub_name ct top_id "1" "8e8e93") st1 b2 st2
                ∧ _category_map (category_service st2) !! main_key = Some top_id
                ∧ if negb b2
                  then ensure_category_hierarchy full_path trans_type st = Some (top_id, st2)
                  else ∃ sub_id,
                    _category_map (category_service st2) !! sub_key = Some sub_id
                    ∧ ensure_category_hierarchy full_path trans_type st = Some (sub_id, st2)
          end.
Proof.
  intros H1 H2 ct main_key.
  pose proof (ensure_category_hierarchy_eq _ trans_type st H1 H2) as He.
  fold ct main_key in He.
  destruct (create_if_absent_outcome (main_name_of full_path) main_key "0" ct st)
    as (b1 & st1 & Hrun1 & Hout1).
  exists b1, st1. split; [done|].
  rewrite bind_eq, Hrun1 in He. cbv beta iota in He.
  destruct b1; cbn [negb] in He |- *; [|done].
  destruct (absent_outcome_true _ _ _ _ Hout1) as [top_id Htop].
  exists top_id. split; [done|].
  rewrite bind_eq, (category_map_at_Some _ _ _ Htop) in He. cbv beta iota in He.
  destruct (sub_name_of full_path) as [sub_name|]; [|done].
  destruct (create_if_absent_outcome sub_name (sub_key_of full_path trans_type sub_name)
              top_id ct st1) as (b2 & st2 & Hrun2 & Hout2).
  exists b2, st2. split; [done|].
  assert (_category_map (category_service st2) !! main_key = Some top_id) as Htop2.
  { destruct (absent_outcome_effect _ _ _ _ _ Hout2) as (n & _ & _ & _ & _ & _ & _ & _ & Hk).
    by apply Hk. }
  split; [done|].
  rewrite bind_eq, Hrun2 in He. cbv beta iota in He.
  destruct b2; cbn [negb] in He |- *; [|done].
  destruct (absent_outcome_true _ _ _ _ Hout2) as [sub_id Hsub].
  exists sub_id. split; [done|]. by rewrite He, (category_map_at_Some _ _ _ Hsub).
Qed.

Lemma ensure_category_hierarchy_neutral full_path trans_type st :
  full_path = "" ∨ full_path = "Umbuchung" →
  ensure_category_hierarchy full_path trans_type st = Some ("0", st).
Proof. by intros [-> | ->]. Qed.

End CategoryFacts.

(** ** Claims about the category service *)

(** Closes a case in which the same remote answer is a success and a
    failure. *)
Ltac answer_clash :=
  match goal with
  | Ha : next_cat_answer ?st = CatSuccess _,
    Hf : is_cat_success (next_cat_answer ?st) = false |- _ =>
      by rewrite Ha in Hf
  end.

Lemma ensure_category_hierarchy_step full_path trans_type st :
  ∃ cat_id st', ensure_category_hierarchy full_path trans_type st = Some (cat_id, st')
                ∧ category_step st st'.
Proof.
  destruct (decide (full_path = "")) as [->|H1].
  { exists "0", st. split; [done|apply category_step_refl]. }
  destruct (decide (full_path = "Umbuchung")) as [->|H2].
  { exists "0", st. split; [done|apply category_step_refl]. }
  destruct (ensure_category_hierarchy_cases full_path trans_type st H1 H2)
    as (b1 & st1 & Hout1 & Hrest).
  pose proof (absent_outcome_step _ _ _ _ _ Hout1) as Hstep1.
  destruct b1; cbn [negb] in Hrest; [|by eauto].
  destruct Hrest as (top_id & Htop & Hrest).
  destruct (sub_name_of full_path) as [sub_name|]; [|by eauto].
  destruct Hrest as (b2 & st2 & Hout2 & _ & Hrest).
  pose proof (absent_outcome_step _ _ _ _ _ Hout2) as Hstep2.
  pose proof (category_step_trans _ _ _ Hstep1 Hstep2) as Hstep.
  destruct b2; cbn [negb] in Hrest; [|by eauto].
  destruct Hrest as (sub_id & _ & Hrest). eauto.
Qed.

(** C7. [ensure_category_hierarchy] degrades gracefully.  For every input it
    returns (no exception leaves it), and it touches nothing but the category
    map, the category counter and the log of category calls.  (1) For an
    empty path and for the path "Umbuchung" it returns "0" and leaves the
    state, hence the remote, as it was.  (2) When the top-level category is
    missing and its creation fails, it returns "0".  (3) When the sub-category
    is missing and its creation fails, it returns the id of the top-level
    category, whether that one was in the map or has just been created. *)
Theorem C7_ensure_category_hierarchy_degrades
    (full_path : string) (trans_type : Z) (st : State) :
  let cat_map := _category_map (category_service st) in
  let ct := cat_type_of trans_type in
  let main_name := main_name_of full_path in
  let main_key := main_key_of full_path trans_type in
  (∃ cat_id st', ensure_category_hierarchy full_path trans_type st = Some (cat_id, st')
                 ∧ category_step st st')
  ∧ (full_path = "" ∨ full_path = "Umbuchung" →
       ensure_category_hierarchy full_path trans_type st = Some ("0", st))
  ∧ (full_path ≠ "" → full_path ≠ "Umbuchung" →
       cat_map !! main_key = None →
       is_cat_success (next_cat_answer st) = false →
       ensure_category_hierarchy full_path trans_type st =
       Some ("0", category_call_logged (mkCatPayload main_name ct "0" "1" "8e8e93") st))
  ∧ (∀ top_id sub_name,
       full_path ≠ "" → full_path ≠ "Umbuchung" →
       cat_map !! main_key = Some top_id →
       sub_name_of full_path = Some sub_name →
       cat_map !! sub_key_of full_path trans_type sub_name = None →
       is_cat_success (next_cat_answer st) = false →
       ensure_category_hierarchy full_path trans_type st =
       Some (top_id,
             category_call_logged (mkCatPayload sub_name ct top_id "1" "8e8e93") st))
  ∧ (∀ top_id sub_name,
       full_path ≠ "" → full_path ≠ "Umbuchung" →
       cat_map !! main_key = None →
       next_cat_answer st = CatSuccess top_id →
       sub_name_of full_path = Some sub_name →
       cat_map !! sub_key_of full_path trans_type sub_name = None →
       is_cat_success (r_cat_answer (remote st) (S (cat_calls st))) = false →
       ∃ st', ensure_category_hierarchy full_path trans_type st = Some (top_id, st')).
Proof.
  cbv zeta. split_and!.
  - apply ensure_category_hierarchy_step.
  - apply ensure_category_hierarchy_neutral.
  - intros H1 H2 Hmain Hfail.
    destruct (ensure_category_hierarchy_cases full_path trans_type st H1 H2)
      as (b1 & st1 & Hout1 & Hrest).
    inversion Hout1; subst; try congruence; try answer_clash.
    all: exact Hrest.
  - intros top_id sub_name H1 H2 Hmain Hsub Hsubkey Hfail.
    destruct (ensure_category_hierarchy_cases full_path trans_type st H1 H2)
      as (b1 & st1 & Hout1 & Hrest).
    rewrite Hsub in Hrest.
    inversion Hout1; subst; try congruence; try answer_clash.
    cbn [negb] in Hrest. destruct Hrest as (top' & Htop' & b2 & st2 & Hout2 & _ & Hrest).
    assert (top' = top_id) as -> by congruence.
    inversion Hout2; subst; try congruence; try answer_clash.
    all: exact Hrest.
  - intros top_id sub_name H1 H2 Hmain Hans Hsub Hsubkey Hfail.
    destruct (ensure_category_hierarchy_cases full_path trans_type st H1 H2)
      as (b1 & st1 & Hout1 & Hrest).
    rewrite Hsub in Hrest.
    inversion Hout1; subst; try congruence; try answer_clash.
    cbn [negb] in Hrest. destruct Hrest as (top' & Htop' & b2 & st2 & Hout2 & _ & Hrest).
    assert (new_id = top_id) as -> by congruence.
    assert (top' = top_id) as ->.
    { simpl in Htop'. rewrite lookup_insert_eq in Htop'. congruence. }
    inversion Hout2 as [v Hv|new_id Hk Ha|Hk Ha]; subst.
    + simpl in Hv. rewrite lookup_insert_ne in Hv by (symmetry; apply sub_key_ne_main_key).
      congruence.
    + unfold next_cat_answer in Ha. simpl in Ha. rewrite length_app in Ha. simpl in Ha.
      unfold cat_calls in Hfail. rewrite Nat.add_1_r in Ha. by rewrite Ha in Hfail.
    + cbn [negb] in Hrest. by eexists.
Qed.

(** Against a remote that rejects the creation of "Essen". *)
Lemma C7_ensure_category_hierarchy_degrades_witness :
  ensure_category_hierarchy "Essen:Restaurant" 3 Samples.state_rejecting =
  Some ("0", category_call_logged (mkCatPayload "Essen" 2 "0" "1" "8e8e93")
               Samples.state_rejecting).
Proof.
  apply (proj1 (proj2 (proj2
           (C7_ensure_category_hierarchy_degrades "Essen:Restaurant" 3
              Samples.state_rejecting)))).
  - discriminate.
  - discriminate.
  - apply lookup_empty.
  - reflexivity.
Defined.

Lemma cat_successes_add st from n1 n2 :
  cat_successes st from (n1 + n2) =
  (cat_successes st from n1 + cat_successes st (from + n1) n2)%nat.
Proof. unfold cat_successes. by rewrite seq_app, filter_app, length_app. Qed.

Lemma cat_successes_step st st' from n :
  category_step st st' → cat_successes st' from n = cat_successes st from n.
Proof. intros (_&_&_&_&H&_). unfold cat_successes. by rewrite H. Qed.

(** With both keys of the path in the map, nothing is created. *)
Lemma ensure_category_hierarchy_cached full_path trans_type st top_id :
  full_path ≠ "" → full_path ≠ "Umbuchung" →
  _category_map (category_service st) !! main_key_of full_path trans_type = Some top_id →
  match sub_name_of full_path with
  | None => ensure_category_hierarchy full_path trans_type st = Some (top_id, st)
  | Some sub_name =>
      ∀ sub_id,
        _category_map (category_service st) !! sub_key_of full_path trans_type sub_name
          = Some sub_id →
        ensure_category_hierarchy full_path trans_type st = Some (sub_id, st)
  end.
Proof.
  intros H1 H2 Htop.
  destruct (ensure_category_hierarchy_cases full_path trans_type st H1 H2)
    as (b1 & st1 & Hout1 & Hrest).
  inversion Hout1; subst; try congruence.
  cbn [negb] in Hrest. destruct Hrest as (top' & Htop' & Hrest).
  assert (top' = top_id) as -> by congruence.
  destruct (sub_name_of full_path) as [sub_name|]; [|done].
  intros sub_id Hsub.
  destruct Hrest as (b2 & st2 & Hout2 & _ & Hrest).
  inversion Hout2; subst; try congruence.
  cbn [negb] in Hrest. destruct Hrest as (sub' & Hsub' & Hrest). congruence.
Qed.

(** *** The creation calls and the map, level by level *)

Section CategoryMore.

Variable full_path : string.
Variable trans_type : Z.
Hypothesis Hne1 : full_path ≠ "".
Hypothesis Hne2 : full_path ≠ "Umbuchung".

Local Abbreviation ct := (cat_type_of trans_type).
Local Abbreviation main_key := (main_key_of full_path trans_type).
Local Abbreviation main_payload := (mkCatPayload (main_name_of full_path) ct "0" "1" "8e8e93").
Local Abbreviation cat_map st := (_category_map (category_service st)).

Lemma absent_outcome_log key payload st b st' :
  absent_outcome key payload st b st' →
  (∀ k, k ≠ key → cat_map st' !! k = cat_map st !! k)
  ∧ r_cat_answer (remote st') = r_cat_answer (remote st)
  ∧ match cat_map st !! key with
    | Some v => st' = st ∧ b = true
    | None =>
        r_cat_calls (remote st') = r_cat_calls (remote st) ++ [payload]
        ∧ match next_cat_answer st with
          | CatSuccess new_id => b = true ∧ cat_map st' !! key = Some new_id
          | _ => b = false ∧ cat_map st' = cat_map st
          end
    end.
Proof.
  intros [v Hk|new_id Hk Ha|Hk Ha].
  - rewrite Hk. by split_and!.
  - rewrite Hk, Ha. simpl. split_and!; try done.
    + intros k Hk'. by rewrite lookup_insert_ne.
    + apply lookup_insert_eq.
  - rewrite Hk. simpl. split_and!; try done. by destruct (next_cat_answer st).
Qed.


Lemma absent_outcome_calls key payload st b st' :
  absent_outcome key payload st b st' →
  ∃ calls, r_cat_calls (remote st') = r_cat_calls (remote st) ++ calls
           ∧ (length calls ≤ 1)%nat.
Proof.
  intros (n & Hn & _ & Hc & _)%absent_outcome_effect.
  exists (replicate n payload). by rewrite length_replicate.
Qed.

(** A top-level category that is missing is the first thing an invocation
    asks the remote to create. *)
Lemma ensure_creates_main st :
  cat_map st !! main_key = None →
  ∃ cat_id st' more,
    ensure_category_hierarchy full_path trans_type st = Some (cat_id, st')
    ∧ r_cat_calls (remote st') = r_cat_calls (remote st) ++ main_payload :: more
    ∧ (∀ new_id, next_cat_answer st = CatSuccess new_id →
         cat_map st' !! main_key = Some new_id)
    ∧ (is_cat_success (next_cat_answer st) = false →
         more = [] ∧ cat_map st' = cat_map st ∧ cat_id = "0").
Proof.
  intros Hmain.
  destruct (ensure_category_hierarchy_cases full_path trans_type st Hne1 Hne2)
    as (b1 & st1 & Hout1 & Hrest).
  destruct (absent_outcome_log _ _ _ _ _ Hout1) as (_ & _ & Hlog1).
  rewrite Hmain in Hlog1. destruct Hlog1 as (Hcalls1 & Hlog1).
  destruct (next_cat_answer st) as [new_id| |] eqn:Ha.
  - destruct Hlog1 as (-> & Hstored). cbn [negb] in Hrest.
    destruct Hrest as (top_id & Htop & Hrest).
    destruct (sub_name_of full_path) as [sub_name|].
    + destruct Hrest as (b2 & st2 & Hout2 & Htop2 & Hrest).
      destruct (absent_outcome_calls _ _ _ _ _ Hout2) as (more & Hcalls2 & _).
      assert (∃ cat_id, ensure_category_hierarchy full_path trans_type st = Some (cat_id, st2))
        as [cat_id Hrun].
      { destruct b2; cbn [negb] in Hrest; [|by eauto].
        destruct Hrest as (sub_id & _ & Hrun). eauto. }
      exists cat_id, st2, more. split_and!; try done.
      * by rewrite Hcalls2, Hcalls1, <- app_assoc.
      * intros ? [= <-]. congruence.
    + exists top_id, st1, []. split_and!; try done. intros ? [= <-]. congruence.
  - destruct Hlog1 as (-> & Hsame). cbn [negb] in Hrest.
    exists "0", st1, []. by split_and!.
  - destruct Hlog1 as (-> & Hsame). cbn [negb] in Hrest.
    exists "0", st1, []. by split_and!.
Qed.

(** With the top-level category in the map, a missing sub-category is the
    one thing an invocation asks the remote to create. *)
Lemma ensure_creates_sub st sub_name top_id :
  sub_name_of full_path = Some sub_name →
  cat_map st !! main_key = Some top_id →
  cat_map st !! sub_key_of full_path trans_type sub_name = None →
  ∃ cat_id st',
    ensure_category_hierarchy full_path trans_type st = Some (cat_id, st')
    ∧ r_cat_calls (remote st')
      = r_cat_calls (remote st) ++ [mkCatPayload sub_name ct top_id "1" "8e8e93"]
    ∧ (∀ new_id, next_cat_answer st = CatSuccess new_id →
         cat_map st' !! sub_key_of full_path trans_type sub_name = Some new_id
         ∧ cat_id = new_id)
    ∧ (is_cat_success (next_cat_answer st) = false →
         cat_map st' = cat_map st ∧ cat_id = top_id).
Proof.
  intros Hsub Hmain Hkey.
  destruct (ensure_category_hierarchy_cases full_path trans_type st Hne1 Hne2)
    as (b1 & st1 & Hout1 & Hrest).
  destruct (absent_outcome_log _ _ _ _ _ Hout1) as (_ & _ & Hlog1).
  rewrite Hmain in Hlog1. destruct Hlog1 as (-> & ->). cbn [negb] in Hrest.
  destruct Hrest as (top' & Htop & Hrest).
  assert (top' = top_id) as -> by congruence.
  rewrite Hsub in Hrest. destruct Hrest as (b2 & st2 & Hout2 & _ & Hrest).
  destruct (absent_outcome_log _ _ _ _ _ Hout2) as (_ & _ & Hlog2).
  rewrite Hkey in Hlog2. destruct Hlog2 as (Hcalls2 & Hlog2).
  destruct (next_cat_answer st) as [new_id| |] eqn:Ha.
  - destruct Hlog2 as (-> & Hstored). cbn [negb] in Hrest.
    destruct Hrest as (sub_id & Hsubid & Hrun).
    exists sub_id, st2. split_and!; try done. intros ? [= <-]. split; congruence.
  - destruct Hlog2 as (-> & Hsame). cbn [negb] in Hrest.
    exists top_id, st2. by split_and!.
  - destruct Hlog2 as (-> & Hsame). cbn [negb] in Hrest.
    exists top_id, st2. by split_and!.
Qed.

(** The sub-category level of an invocation that ends with the top-level
    category in the map. *)
Lemma ensure_sub_level st cat_id st' sub_name top_id :
  ensure_category_hierarchy full_path trans_type st = Some (cat_id, st') →
  sub_name_of full_path = Some sub_name →
  cat_map st' !! main_key = Some top_id →
  cat_map st !! sub_key_of full_path trans_type sub_name = None →
  ∃ before,
    r_cat_calls (remote st')
    = r_cat_calls (remote st) ++ before ++ [mkCatPayload sub_name ct top_id "1" "8e8e93"]
    ∧ (∀ new_id, r_cat_answer (remote st) (pred (cat_calls st')) = CatSuccess new_id →
         cat_map st' !! sub_key_of full_path trans_type sub_name = Some new_id
         ∧ cat_id = new_id)
    ∧ (is_cat_success (r_cat_answer (remote st) (pred (cat_calls st'))) = false →
         cat_map st' !! sub_key_of full_path trans_type sub_name = None
         ∧ cat_id = top_id).
Proof.
  intros Hrun Hsub Hmain' Hkey.
  destruct (cat_map st !! main_key) as [v|] eqn:Hmain.
  - destruct (ensure_creates_sub st sub_name v Hsub Hmain Hkey)
      as (cat_id2 & st2 & Hrun2 & Hcalls & Hok & Hbad).
    rewrite Hrun in Hrun2. injection Hrun2 as <- <-.
    assert (v = top_id) as ->.
    { destruct (ensure_category_hierarchy_step full_path trans_type st)
        as (c & s & Hr & _). clear Hr.
      destruct (ensure_category_hierarchy_cases full_path trans_type st Hne1 Hne2)
        as (b1 & st1 & Hout1 & Hrest).
      destruct (absent_outcome_effect _ _ _ _ _ Hout1) as (_ & _ & _ & _ & _ & _ & _ & _ & Hk1).
      destruct b1; cbn [negb] in Hrest.
      - destruct Hrest as (top' & Htop & Hrest). rewrite Hsub in Hrest.
        destruct Hrest as (b2 & st2 & Hout2 & Htop2 & Hrest).
        assert (st2 = st') as ->.
        { destruct b2; cbn [negb] in Hrest; [destruct Hrest as (? & _ & Hrest)|];
            rewrite Hrun in Hrest; by injection Hrest. }
        apply Hk1 in Hmain. congruence.
      - rewrite Hrun in Hrest. injection Hrest as _ <-. apply Hk1 in Hmain. congruence. }
    exists []. simpl.
    assert (pred (cat_calls st') = cat_calls st) as ->.
    { unfold cat_calls. rewrite Hcalls, length_app. simpl. lia. }
    fold (next_cat_answer st). split_and!; try done.
    intros Hf. destruct (Hbad Hf) as [Hm ->]. by rewrite Hm.
  - destruct (ensure_category_hierarchy_cases full_path trans_type st Hne1 Hne2)
      as (b1 & st1 & Hout1 & Hrest).
    pose proof (absent_outcome_log _ _ _ _ _ Hout1) as (Hother1 & Hans1 & Hlog1).
    rewrite Hmain in Hlog1. destruct Hlog1 as (Hcalls1 & Hlog1).
    destruct b1; cbn [negb] in Hrest.
    2: { rewrite Hrun in Hrest. injection Hrest as _ <-.
         destruct (next_cat_answer st); destruct Hlog1 as (? & Hm); [done| |];
           rewrite Hm in Hmain'; congruence. }
    destruct Hrest as (top' & Htop & Hrest). rewrite Hsub in Hrest.
    destruct Hrest as (b2 & st2 & Hout2 & Htop2 & Hrest).
    assert (st2 = st') as ->.
    { destruct b2; cbn [negb] in Hrest; [destruct Hrest as (? & _ & Hrest)|];
        rewrite Hrun in Hrest; by injection Hrest. }
    assert (top' = top_id) as -> by congruence.
    pose proof (absent_outcome_log _ _ _ _ _ Hout2) as (Hother2 & Hans2 & Hlog2).
    rewrite Hother1, Hkey in Hlog2 by apply sub_key_ne_main_key.
    destruct Hlog2 as (Hcalls2 & Hlog2).
    exists [main_payload].
    assert (pred (cat_calls st') = cat_calls st1) as ->.
    { unfold cat_calls. rewrite Hcalls2, length_app. simpl. lia. }
    rewrite <- Hans1.
    change (next_cat_answer st1) with (r_cat_answer (remote st1) (cat_calls st1)) in Hlog2.
    split_and!.
    + by rewrite Hcalls2, Hcalls1, <- app_assoc.
    + intros new_id Ha. rewrite Ha in Hlog2. destruct Hlog2 as (-> & Hstored).
      cbn [negb] in Hrest. destruct Hrest as (sub_id & Hsubid & Hrest).
      rewrite Hrun in Hrest. split; congruence.
    + intros Hf. destruct (r_cat_answer (remote st1) (cat_calls st1)); [done| |];
        destruct Hlog2 as (-> & Hm);
        cbn [negb] in Hrest; rewrite Hrun in Hrest; injection Hrest as ->;
        rewrite Hm, Hother1 by apply sub_key_ne_main_key; done.
Qed.


(** The creation calls of an invocation: one for the top-level category if
    it is missing, then one for the sub-category if the path has one, the
    top-level category is in the map by then, and the sub-category is
    missing. *)
Lemma ensure_category_hierarchy_calls st cat_id st' :
  ensure_category_hierarchy full_path trans_type st = Some (cat_id, st') →
  r_cat_calls (remote st')
  = r_cat_calls (remote st)
    ++ match cat_map st !! main_key with None => [main_payload] | Some _ => [] end
    ++ match sub_name_of full_path, cat_map st' !! main_key with
       | Some sub_name, Some top_id =>
           match cat_map st !! sub_key_of full_path trans_type sub_name with
           | None => [mkCatPayload sub_name ct top_id "1" "8e8e93"]
           | Some _ => []
           end
       | _, _ => []
       end.
Proof.
  intros Hrun.
  destruct (ensure_category_hierarchy_cases full_path trans_type st Hne1 Hne2)
    as (b1 & st1 & Hout1 & Hrest).
  pose proof (absent_outcome_log _ _ _ _ _ Hout1) as (Hother1 & _ & Hlog1).
  assert (r_cat_calls (remote st1)
          = r_cat_calls (remote st)
            ++ match cat_map st !! main_key with None => [main_payload] | Some _ => [] end)
    as Hcalls1.
  { destruct (cat_map st !! main_key); [|by destruct Hlog1].
    destruct Hlog1 as [-> _]. by rewrite app_nil_r. }
  destruct b1; cbn [negb] in Hrest.
  2: { rewrite Hrun in Hrest. injection Hrest as _ <-.
       assert (cat_map st' !! main_key = None) as ->.
       { destruct (cat_map st !! main_key) eqn:Hmain; [by destruct Hlog1|].
         destruct Hlog1 as (_ & Hlog1).
         destruct (next_cat_answer st); destruct Hlog1 as (? & Hm); [done| |];
           by rewrite Hm. }
       rewrite Hcalls1. by destruct (sub_name_of full_path); rewrite app_nil_r. }
  destruct Hrest as (top_id & Htop & Hrest).
  destruct (sub_name_of full_path) as [sub_name|].
  2: { rewrite Hrun in Hrest. injection Hrest as _ <-. by rewrite Hcalls1, app_nil_r. }
  destruct Hrest as (b2 & st2 & Hout2 & Htop2 & Hrest).
  assert (st2 = st') as ->.
  { destruct b2; cbn [negb] in Hrest; [destruct Hrest as (? & _ & Hrest)|];
      rewrite Hrun in Hrest; by injection Hrest. }
  rewrite Htop2.
  pose proof (absent_outcome_log _ _ _ _ _ Hout2) as (_ & _ & Hlog2).
  rewrite Hother1 in Hlog2 by apply sub_key_ne_main_key.
  destruct (cat_map st !! sub_key_of full_path trans_type sub_name).
  - destruct Hlog2 as [-> _]. by rewrite Hcalls1, app_nil_r.
  - destruct Hlog2 as [-> _]. by rewrite Hcalls1, app_assoc.
Qed.

End CategoryMore.

(** The number of creation calls of an invocation, and what they do to the
    counter and to the size of the map; when all of them succeeded, a second
    invocation is served from the map. *)
Lemma ensure_category_hierarchy_counts
    (full_path : string) (trans_type : Z) (st : State) (cat_id : string) (st' : State) :
  ensure_category_hierarchy full_path trans_type st = Some (cat_id, st') →
  ∃ n, (n ≤ 2)%nat
    ∧ cat_calls st' = (cat_calls st + n)%nat
    ∧ new_categories (stats st')
      = (new_categories (stats st) + cat_successes st (cat_calls st) n)%nat
    ∧ size (_category_map (category_service st'))
      = (size (_category_map (category_service st)) + cat_successes st (cat_calls st) n)%nat
    ∧ ((∀ i, (cat_calls st ≤ i < cat_calls st + n)%nat →
          is_cat_success (r_cat_answer (remote st) i) = true) →
       ensure_category_hierarchy full_path trans_type st' = Some (cat_id, st')).
Proof.
  intros Hrun.
  assert (∀ s, ∃ n, (n ≤ 2)%nat ∧ cat_calls s = (cat_calls s + n)%nat
      ∧ new_categories (stats s) = (new_categories (stats s) + cat_successes s (cat_calls s) n)%nat
      ∧ size (_category_map (category_service s))
        = (size (_category_map (category_service s)) + cat_successes s (cat_calls s) n)%nat
      ∧ ∀ i, ¬ (cat_calls s ≤ i < cat_calls s + n)%nat) as Hzero.
  { intros s. exists 0%nat. unfold cat_successes. simpl. split_and!; lia. }
  destruct (decide (full_path = "")) as [->|H1].
  { rewrite ensure_category_hierarchy_neutral in Hrun by auto.
    injection Hrun as <- <-. destruct (Hzero st) as (n & ? & ? & ? & ? & ?).
    exists n. split_and!; try done.
    all: intros _; apply ensure_category_hierarchy_neutral; auto. }
  destruct (decide (full_path = "Umbuchung")) as [->|H2].
  { rewrite ensure_category_hierarchy_neutral in Hrun by auto.
    injection Hrun as <- <-. destruct (Hzero st) as (n & ? & ? & ? & ? & ?).
    exists n. split_and!; try done.
    all: intros _; apply ensure_category_hierarchy_neutral; auto. }
  destruct (ensure_category_hierarchy_cases full_path trans_type st H1 H2)
    as (b1 & st1 & Hout1 & Hrest).
  pose proof (absent_outcome_step _ _ _ _ _ Hout1) as Hstep1.
  destruct (absent_outcome_effect _ _ _ _ _ Hout1)
    as (n1 & Hn1 & Hc1 & _ & Hs1 & Hm1 & Hok1 & Hbad1 & _).
  destruct b1; cbn [negb] in Hrest.
  2: { rewrite Hrun in Hrest. injection Hrest as -> ->.
       destruct (Hbad1 eq_refl) as [-> Hfail].
       exists 1%nat. split_and!; try done; try lia.
       intros Hall. unfold next_cat_answer in Hfail. fold (cat_calls st) in Hfail.
       rewrite Hall in Hfail by lia. done. }
  destruct Hrest as (top_id & Htop & Hrest).
  destruct (sub_name_of full_path) as [sub_name|] eqn:Hsub.
  2: { rewrite Hrun in Hrest. injection Hrest as -> ->.
       exists n1. split_and!; try done; try lia.
       intros _. pose proof (ensure_category_hierarchy_cached _ _ _ _ H1 H2 Htop) as Hc.
       by rewrite Hsub in Hc. }
  destruct Hrest as (b2 & st2 & Hout2 & Htop2 & Hrest).
  pose proof (absent_outcome_step _ _ _ _ _ Hout2) as Hstep2.
  destruct (absent_outcome_effect _ _ _ _ _ Hout2)
    as (n2 & Hn2 & Hc2 & _ & Hs2 & Hm2 & Hok2 & Hbad2 & _).
  rewrite (cat_successes_step _ _ _ _ Hstep1), Hc1 in Hs2, Hm2.
  assert (r_cat_answer (remote st1) = r_cat_answer (remote st)) as Hans
    by by destruct Hstep1 as (_&_&_&_&?&_).
  destruct b2; cbn [negb] in Hrest.
  - destruct Hrest as (sub_id & Hsubid & Hrest).
    rewrite Hrun in Hrest. injection Hrest as -> ->.
    exists (n1 + n2)%nat. rewrite cat_successes_add.
    split_and!; try done; try lia.
    intros _. pose proof (ensure_category_hierarchy_cached _ _ _ _ H1 H2 Htop2) as Hc.
    rewrite Hsub in Hc. by apply Hc.
  - rewrite Hrun in Hrest. injection Hrest as -> ->.
    destruct (Hbad2 eq_refl) as [-> Hfail].
    exists (n1 + 1)%nat. rewrite cat_successes_add.
    split_and!; try done; try lia.
    intros Hall. unfold next_cat_answer in Hfail. fold (cat_calls st1) in Hfail.
    rewrite Hans, Hc1, Hall in Hfail by lia. done.
Qed.

(** An invocation only appends to the log of creation calls, keeps every
    entry of the map, and leaves every key alone that is not one of the two
    keys of the path. *)
Lemma ensure_category_hierarchy_map full_path trans_type st cat_id st' :
  ensure_category_hierarchy full_path trans_type st = Some (cat_id, st') →
  (∃ calls, r_cat_calls (remote st') = r_cat_calls (remote st) ++ calls)
  ∧ (∀ k v, _category_map (category_service st) !! k = Some v →
       _category_map (category_service st') !! k = Some v)
  ∧ (∀ k, k ≠ main_key_of full_path trans_type →
       (∀ sub_name, sub_name_of full_path = Some sub_name →
          k ≠ sub_key_of full_path trans_type sub_name) →
       _category_map (category_service st') !! k = _category_map (category_service st) !! k).
Proof.
  intros Hrun.
  assert (full_path = "" ∨ full_path = "Umbuchung" → st' = st) as Hneutral.
  { intros H. rewrite ensure_category_hierarchy_neutral in Hrun by done. by injection Hrun. }
  destruct (decide (full_path = "")) as [H1|H1].
  { rewrite Hneutral by auto. split_and!; [exists []; by rewrite app_nil_r|done|done]. }
  destruct (decide (full_path = "Umbuchung")) as [H2|H2].
  { rewrite Hneutral by auto. split_and!; [exists []; by rewrite app_nil_r|done|done]. }
  clear Hneutral.
  destruct (ensure_category_hierarchy_cases full_path trans_type st H1 H2)
    as (b1 & st1 & Hout1 & Hrest).
  destruct (absent_outcome_calls _ _ _ _ _ Hout1) as (calls1 & Hcalls1 & _).
  destruct (absent_outcome_log _ _ _ _ _ Hout1) as (Hother1 & _).
  destruct (absent_outcome_effect _ _ _ _ _ Hout1) as (_ & _ & _ & _ & _ & _ & _ & _ & Hkeep1).
  assert (st' = st1 ∨ ∃ sub_name payload b2,
            sub_name_of full_path = Some sub_name
            ∧ absent_outcome (sub_key_of full_path trans_type sub_name) payload st1 b2 st')
    as [->|(sub_name & payload & b2 & Hsub & Hout2)].
  { destruct b1; cbn [negb] in Hrest.
    2: { rewrite Hrun in Hrest. injection Hrest as _ <-. by left. }
    destruct Hrest as (top_id & _ & Hrest).
    destruct (sub_name_of full_path) as [sub_name|].
    2: { rewrite Hrun in Hrest. injection Hrest as _ <-. by left. }
    destruct Hrest as (b2 & st2 & Hout2 & _ & Hrest).
    assert (st2 = st') as ->.
    { destruct b2; cbn [negb] in Hrest; [destruct Hrest as (? & _ & Hrest)|];
        rewrite Hrun in Hrest; by injection Hrest. }
    right. by eexists _, _, _. }
  - split_and!; [by eexists|done|]. intros k Hk _. by apply Hother1.
  - destruct (absent_outcome_calls _ _ _ _ _ Hout2) as (calls2 & Hcalls2 & _).
    destruct (absent_outcome_log _ _ _ _ _ Hout2) as (Hother2 & _).
    destruct (absent_outcome_effect _ _ _ _ _ Hout2)
      as (_ & _ & _ & _ & _ & _ & _ & _ & Hkeep2).
    split_and!.
    + exists (calls1 ++ calls2). by rewrite Hcalls2, Hcalls1, <- app_assoc.
    + intros k v Hk. by apply Hkeep2, Hkeep1.
    + intros k Hk Hks. rewrite Hother2 by by apply Hks. by apply Hother1.
Qed.

(** C8 (as the code has it).  One invocation of [ensure_category_hierarchy]
    makes at most two creation calls, one per level of the path that is
    missing from the map: [calls] is the payload of the top-level category
    if its key is missing, followed by the payload of the sub-category, with
    the id of the top-level category as parent, if the path has a
    sub-category, the top-level category is in the map by then and the key of
    the sub-category is missing.  The category counter and the size of the
    map grow by exactly the number of those calls that succeed.  No entry of
    the map is lost or overwritten, and no key other than the two keys of the
    path is touched.  A creation that succeeds stores the id the remote
    returned under the key of its level: the top-level id under
    [main_key], the sub-category id under [sub_key], and the latter is the
    id the invocation returns.  A creation that fails stores nothing, and
    the next invocation with the same path and type hint sends the same
    payload again.  When every creation call of an invocation succeeded, a
    second invocation with the same path and type hint returns the same id
    and leaves the whole state, hence the log of remote calls, as it is: it
    is served from the map. *)
Theorem C8_category_creation_caching
    (full_path : string) (trans_type : Z) (st : State) (cat_id : string) (st' : State) :
  ensure_category_hierarchy full_path trans_type st = Some (cat_id, st') →
  let cat_map := _category_map (category_service st) in
  let cat_map' := _category_map (category_service st') in
  let ct := cat_type_of trans_type in
  let main_key := main_key_of full_path trans_type in
  let main_payload := mkCatPayload (main_name_of full_path) ct "0" "1" "8e8e93" in
  ∃ calls,
    r_cat_calls (remote st') = r_cat_calls (remote st) ++ calls
    ∧ (length calls ≤ 2)%nat
    ∧ calls
      = (if String.eqb full_path "" || String.eqb full_path "Umbuchung" then []
         else
           match cat_map !! main_key with None => [main_payload] | Some _ => [] end
           ++ match sub_name_of full_path, cat_map' !! main_key with
              | Some sub_name, Some top_id =>
                  match cat_map !! sub_key_of full_path trans_type sub_name with
                  | None => [mkCatPayload sub_name ct top_id "1" "8e8e93"]
                  | Some _ => []
                  end
              | _, _ => []
              end)
    ∧ new_categories (stats st')
      = (new_categories (stats st) + cat_successes st (cat_calls st) (length calls))%nat
    ∧ size cat_map' = (size cat_map + cat_successes st (cat_calls st) (length calls))%nat
    ∧ (∀ k v, cat_map !! k = Some v → cat_map' !! k = Some v)
    ∧ (∀ k, k ≠ main_key →
         (∀ sub_name, sub_name_of full_path = Some sub_name →
            k ≠ sub_key_of full_path trans_type sub_name) →
         cat_map' !! k = cat_map !! k)
    ∧ (full_path ≠ "" → full_path ≠ "Umbuchung" → cat_map !! main_key = None →
         (∀ new_id, next_cat_answer st = CatSuccess new_id →
            cat_map' !! main_key = Some new_id)
         ∧ (is_cat_success (next_cat_answer st) = false →
              cat_map' = cat_map ∧ cat_id = "0"
              ∧ ∃ cat_id2 st2 more,
                  ensure_category_hierarchy full_path trans_type st' = Some (cat_id2, st2)
                  ∧ r_cat_calls (remote st2)
                    = r_cat_calls (remote st') ++ main_payload :: more))
    ∧ (∀ sub_name top_id,
         full_path ≠ "" → full_path ≠ "Umbuchung" →
         sub_name_of full_path = Some sub_name →
         cat_map' !! main_key = Some top_id →
         cat_map !! sub_key_of full_path trans_type sub_name = None →
         let sub_key := sub_key_of full_path trans_type sub_name in
         let sub_payload := mkCatPayload sub_name ct top_id "1" "8e8e93" in
         let answer := r_cat_answer (remote st) (pred (cat_calls st')) in
         last calls = Some sub_payload
         ∧ (∀ new_id, answer = CatSuccess new_id →
              cat_map' !! sub_key = Some new_id ∧ cat_id = new_id)
         ∧ (is_cat_success answer = false →
              cat_map' !! sub_key = None ∧ cat_id = top_id
              ∧ ∃ cat_id2 st2,
                  ensure_category_hierarchy full_path trans_type st' = Some (cat_id2, st2)
                  ∧ r_cat_calls (remote st2) = r_cat_calls (remote st') ++ [sub_payload]))
    ∧ ((∀ i, (cat_calls st ≤ i < cat_calls st + length calls)%nat →
          is_cat_success (r_cat_answer (remote st) i) = true) →
       ensure_category_hierarchy full_path trans_type st' = Some (cat_id, st')).
Proof.
  intros Hrun. cbv zeta.
  destruct (ensure_category_hierarchy_counts _ _ _ _ _ Hrun)
    as (n & Hn & Hcount & Hnew & Hsize & Hcached).
  destruct (ensure_category_hierarchy_map _ _ _ _ _ Hrun) as ((calls & Hcalls) & Hkeep & Hother).
  assert (length calls = n) as Hlen.
  { unfold cat_calls in Hcount. rewrite Hcalls, length_app in Hcount. lia. }
  subst n. exists calls. split_and!; try done.
  - destruct (String.eqb_spec full_path "") as [->|H1].
    { rewrite ensure_category_hierarchy_neutral in Hrun by auto. injection Hrun as _ <-.
      rewrite <- (app_nil_r (r_cat_calls (remote st))) in Hcalls at 1.
      by apply app_inv_head in Hcalls. }
    destruct (String.eqb_spec full_path "Umbuchung") as [->|H2].
    { rewrite ensure_category_hierarchy_neutral in Hrun by auto. injection Hrun as _ <-.
      rewrite <- (app_nil_r (r_cat_calls (remote st))) in Hcalls at 1.
      by apply app_inv_head in Hcalls. }
    cbn [orb].
    pose proof (ensure_category_hierarchy_calls full_path trans_type H1 H2 _ _ _ Hrun) as He.
    rewrite Hcalls in He. by apply app_inv_head in He.
  - intros H1 H2 Hmain.
    destruct (ensure_creates_main full_path trans_type H1 H2 st Hmain)
      as (cat_id1 & st1 & more & Hrun1 & Hcalls1 & Hok & Hbad).
    rewrite Hrun in Hrun1. injection Hrun1 as <- <-.
    split_and!; try done.
    intros Hf. destruct (Hbad Hf) as (-> & Hm & ->). split_and!; try done.
    destruct (ensure_creates_main full_path trans_type H1 H2 st')
      as (cat_id2 & st2 & more & Hrun2 & Hcalls2 & _); [by rewrite Hm|].
    by exists cat_id2, st2, more.
  - intros sub_name top_id H1 H2 Hsub Hmain' Hkey.
    destruct (ensure_sub_level full_path trans_type H1 H2 st cat_id st' sub_name top_id
                Hrun Hsub Hmain' Hkey) as (before & Hcalls2 & Hok & Hbad).
    rewrite Hcalls in Hcalls2. apply app_inv_head in Hcalls2 as ->.
    split_and!; [apply last_snoc|done|].
    intros Hf. destruct (Hbad Hf) as (Hnone & ->). split_and!; try done.
    destruct (ensure_creates_sub full_path trans_type H1 H2 st' sub_name top_id
                Hsub Hmain' Hnone) as (cat_id2 & st2 & Hrun2 & Hcalls2 & _).
    by exists cat_id2, st2.
Qed.

(** Against a remote that accepts: two creations, the two returned ids
    stored under the two keys of the path, then no creation. *)
Lemma C8_category_creation_caching_witness :
  ∃ st', ensure_category_hierarchy "Essen:Restaurant" 3 Samples.state_accepting
           = Some ("c1", st')
         ∧ r_cat_calls (remote st')
           = [mkCatPayload "Essen" 2 "0" "1" "8e8e93";
              mkCatPayload "Restaurant" 2 "c0" "1" "8e8e93"]
         ∧ _category_map (category_service st') !! "2_Essen" = Some "c0"
         ∧ _category_map (category_service st') !! "2_Essen:Restaurant" = Some "c1"
         ∧ ensure_category_hierarchy "Essen:Restaurant" 3 st' = Some ("c1", st').
Proof.
  destruct (ensure_category_hierarchy "Essen:Restaurant" 3 Samples.state_accepting)
    as [[cat_id st']|] eqn:Hrun; [|discriminate (eq_sym Hrun)].
  destruct (C8_category_creation_caching "Essen:Restaurant" 3 Samples.state_accepting cat_id st' Hrun)
    as (calls & Hcalls & _ & Hlist & _ & _ & _ & _ & Hmain & Hsub & Hcached).
  destruct Hmain as (Hstored & _); [discriminate|discriminate|apply lookup_empty|].
  pose proof (Hstored "c0" eq_refl) as Hc0.
  destruct (Hsub "Restaurant" "c0") as (_ & Hstored1 & _);
    [discriminate|discriminate|reflexivity|exact Hc0|apply lookup_empty|].
  rewrite Hc0 in Hlist. cbn in Hlist. subst calls.
  assert (cat_calls st' = 2%nat) as Hcount.
  { unfold cat_calls. by rewrite Hcalls. }
  rewrite Hcount in Hstored1. destruct (Hstored1 "c1" eq_refl) as (Hc1 & ->).
  exists st'. split_and!; [reflexivity|exact Hcalls|exact Hc0|exact Hc1|].
  apply Hcached. intros i _. reflexivity.
Defined.

(** C8, as stated, fails: against a remote that rejects the creation, two
    invocations with the same path and type hint make two creation calls, and
    the second invocation is not served from the map. *)
Lemma C8_category_creation_caching_counterexample :
  let payload := mkCatPayload "Food" 2 "0" "1" "8e8e93" in
  let st1 := category_call_logged payload Samples.state_rejecting in
  let st2 := category_call_logged payload st1 in
  ensure_category_hierarchy "Food" 3 Samples.state_rejecting = Some ("0", st1)
  ∧ ensure_category_hierarchy "Food" 3 st1 = Some ("0", st2)
  ∧ cat_calls Samples.state_rejecting = 0%nat
  ∧ cat_calls st1 = 1%nat
  ∧ cat_calls st2 = 2%nat
  ∧ r_cat_calls (remote st2) = [payload; payload].
Proof. cbv zeta. split_and!; reflexivity. Qed.

(** ** The transaction import service *)

Section ServiceFacts.

Variable strptime : string → option Z.
Variable strftime : Z → string.
Variable py_float : string → option float.
Variable timestamp : Z → option Z.
Variable utc_offset : Z.
Variable config : Config.
Variable _account_map : gmap string string.

Local Abbreviation create_payload := (_create_transaction_payload timestamp utc_offset).
Local Abbreviation import_single := (_import_single_transaction timestamp utc_offset).
Local Abbreviation import_pair := (_import_transfer_pair timestamp utc_offset _account_map).
Local Abbreviation import_unmatched :=
  (_import_unmatched_transfer timestamp utc_offset _account_map).
Local Abbreviation file_loop :=
  (_import_file_loop strptime strftime py_float timestamp utc_offset config).
Local Abbreviation files_loop :=
  (_import_files_loop strptime strftime py_float timestamp utc_offset config _account_map).
Local Abbreviation import_transfers :=
  (_import_transfers timestamp utc_offset config _account_map).

(** *** [_create_transaction_payload] *)

Lemma create_payload_Some acc_id amount booking_date description category_id
    transaction_type b4_id partner_acc_id st p st' :
  create_payload acc_id amount booking_date description category_id transaction_type
    b4_id partner_acc_id st = Some (p, st') →
  st' = st
  ∧ p_comment p = marker_comment description b4_id
  ∧ py_round (float_mul (float_abs amount) (float_of_Z 100)) = Some (p_sourceAmount p)
  ∧ p_destinationAmount p
    = match transaction_type with TRANSFER => Some (p_sourceAmount p) | _ => None end
  ∧ p_type p = TransactionType_value transaction_type
  ∧ p_sourceAccountId p = str_of_opt acc_id
  ∧ timestamp booking_date = Some (p_time p).
Proof.
  unfold _create_transaction_payload.
  destruct (py_round _) as [amt_cents|]; [|done].
  unfold bind, get_state.
  destruct (timestamp booking_date) as [time|]; [|done].
  unfold ret. intros [= <- <-]. by destruct transaction_type.
Qed.

Lemma create_payload_finite acc_id amount booking_date description category_id
    transaction_type b4_id partner_acc_id st amt_cents time :
  py_round (float_mul (float_abs amount) (float_of_Z 100)) = Some amt_cents →
  timestamp booking_date = Some time →
  ∃ p, create_payload acc_id amount booking_date description category_id transaction_type
         b4_id partner_acc_id st = Some (p, st)
       ∧ p_sourceAmount p = amt_cents
       ∧ p_time p = time.
Proof.
  intros H Ht. unfold _create_transaction_payload. rewrite H.
  unfold bind, get_state. rewrite Ht. unfold ret. eauto.
Qed.

(** [round] or [timestamp] raising leaves the function, and its callers. *)
Lemma create_payload_raises acc_id amount booking_date description category_id
    transaction_type b4_id partner_acc_id st :
  py_round (float_mul (float_abs amount) (float_of_Z 100)) = None
  ∨ timestamp booking_date = None →
  create_payload acc_id amount booking_date description category_id transaction_type
    b4_id partner_acc_id st = None.
Proof.
  unfold _create_transaction_payload. intros [H|H].
  - by rewrite H.
  - destruct (py_round _); [|done]. unfold bind, get_state. by rewrite H.
Qed.

Lemma float_abs_idem (x : float) : float_abs (float_abs x) = float_abs x.
Proof. by destruct x. Qed.

(** *** [from_json] *)

Lemma from_json_Some data account tx :
  from_json strptime py_float data account = Some tx →
  ∃ i d a r c date raw dir status,
    Id data = Some i ∧ BookgDt data = Some d ∧ Amt data = Some a
    ∧ RmtInf data = Some r ∧ CdtDbtInd data = Some c
    ∧ strptime d = Some date ∧ py_float a = Some raw
    ∧ Direction_of_value c = Some dir
    ∧ BookingStatus_of_value (default "BOOK" (BookgSts data)) = Some status
    ∧ tx = mkB4 i date (float_abs raw) r dir (default "" (Category data)) status account.
Proof.
  unfold from_json.
  destruct (Id data) as [i|]; [|done].
  destruct (BookgDt data) as [d|]; [|done].
  destruct (Amt data) as [a|]; [|done].
  destruct (RmtInf data) as [r|]; [|done].
  destruct (CdtDbtInd data) as [c|]; [|done].
  destruct (strptime d) as [date|] eqn:?; [|done].
  destruct (py_float a) as [raw|] eqn:?; [|done].
  destruct (Direction_of_value c) as [dir|] eqn:?; [|done].
  destruct (BookingStatus_of_value _) as [status|] eqn:?; [|done].
  intros [= <-]. exists i, d, a, r, c, date, raw, dir, status. by split_and!.
Qed.

Lemma from_json_plain data account tx :
  plain_entry data → from_json strptime py_float data account = Some tx → plain_record tx.
Proof.
  intros [Hi Hr] (i & d & a & r & c & date & raw & dir & status
                  & HId & _ & _ & HR & _ & _ & _ & _ & _ & ->)%from_json_Some.
  split; simpl; auto.
Qed.

(** *** The three import functions *)

Lemma call_create_transaction p st :
  call_remote (create_transaction p) st = Some (next_tx_answer st, posted p st).
Proof. done. Qed.

Lemma import_single_effect tx acc_id st b st' :
  import_single tx acc_id st = Some (b, st') →
  ∃ st1 p,
    category_step st st1
    ∧ p_comment p = marker_comment (description tx) (id tx)
    ∧ py_round (float_mul (float_abs (amount tx)) (float_of_Z 100)) = Some (p_sourceAmount p)
    ∧ (b = true ↔ next_tx_answer st1 = TxSuccess)
    ∧ st' = after_import {[id tx]} increment_transactions p b st1.
Proof.
  unfold _import_single_transaction. rewrite bind_eq.
  destruct (ensure_category_hierarchy_step (category tx)
              (TransactionType_value (transaction_type tx)) st)
    as (cat_id & st1 & -> & Hstep).
  rewrite bind_eq.
  destruct (create_payload _ _ _ _ _ _ _ _ st1) as [[p st2]|] eqn:Hp; [|done].
  apply create_payload_Some in Hp as (-> & Hc & Ha & _).
  rewrite bind_eq, call_create_transaction.
  intros H. exists st1, p. split_and!; try done;
    destruct (next_tx_answer st1); injection H as <- <-; done.
Qed.

Lemma import_pair_effect pair st b st' :
  import_pair pair st = Some (b, st') →
  ∃ p,
    p_comment p = marker_comment ("Transfer: " +:+ str_take 100 (description (sender pair)))
                    (combined_id pair)
    ∧ py_round (float_mul (float_abs (pair_amount pair)) (float_of_Z 100))
      = Some (p_sourceAmount p)
    ∧ p_destinationAmount p = Some (p_sourceAmount p)
    ∧ (b = true ↔ next_tx_answer st = TxSuccess)
    ∧ st' = after_import {[id (source_tx pair); id (dest_tx pair)]} increment_transfers p b st.
Proof.
  unfold _import_transfer_pair. rewrite bind_eq. unfold get_state at 1.
  rewrite bind_eq.
  destruct (create_payload _ _ _ _ _ _ _ _ st) as [[p st2]|] eqn:Hp; [|done].
  apply create_payload_Some in Hp as (-> & Hc & Ha & Hd & _).
  rewrite bind_eq, call_create_transaction.
  intros H. exists p. split_and!; try done;
    destruct (next_tx_answer st); injection H as <- <-; done.
Qed.

Lemma import_unmatched_effect tx st b st' :
  import_unmatched tx st = Some (b, st') →
  ∃ p,
    p_comment p = marker_comment ("[Extern] " +:+ description tx) (id tx)
    ∧ py_round (float_mul (float_abs (amount tx)) (float_of_Z 100)) = Some (p_sourceAmount p)
    ∧ (b = true ↔ next_tx_answer st = TxSuccess)
    ∧ st' = counted (if b then increment_transactions else increment_errors) (posted p st).
Proof.
  unfold _import_unmatched_transfer. rewrite bind_eq. unfold get_state at 1.
  rewrite bind_eq.
  destruct (create_payload _ _ _ _ _ _ _ _ st) as [[p st2]|] eqn:Hp; [|done].
  apply create_payload_Some in Hp as (-> & Hc & Ha & _).
  rewrite bind_eq, call_create_transaction.
  intros H. exists p. split_and!; try done;
    destruct (next_tx_answer st); injection H as <- <-; done.
Qed.

(** *** What posting does to the ledger *)

Lemma ledger_posted p st :
  ledger (posted p st) =
  match next_tx_answer st with TxSuccess => ledger st ++ [p] | _ => ledger st end.
Proof. unfold ledger, posted, next_tx_answer. simpl. by destruct (r_tx_answer _ _). Qed.

Lemma known_ids_posted p st :
  next_tx_answer st = TxSuccess →
  known_ids (posted p st) = known_ids st ∪ ids_of_transaction p.
Proof.
  intros H. unfold known_ids. rewrite ledger_posted, H.
  by rewrite ids_of_ledger_app, ids_of_ledger_single.
Qed.

Lemma known_ids_step st st' : category_step st st' → known_ids st' = known_ids st.
Proof. intros (_ & H & _). unfold known_ids, ledger. by rewrite H. Qed.

Lemma contains_transfer_prefix (d : string) :
  str_contains "[B4ID:" d = false →
  str_contains "[B4ID:" ("Transfer: " +:+ str_take 100 d) = false.
Proof.
  intros H. change ("Transfer: " +:+ str_take 100 d)
    with ("Transfer:" +:+ String " " (str_take 100 d)).
  apply contains_barrier; [done|done|by apply contains_take].
Qed.

Lemma contains_extern_prefix (d : string) :
  str_contains "[B4ID:" d = false →
  str_contains "[B4ID:" ("[Extern] " +:+ d) = false.
Proof.
  intros H. change ("[Extern] " +:+ d) with ("[Extern]" +:+ String " " d).
  by apply contains_barrier.
Qed.

(** The payload each import function posts, and that it returns. *)

Lemma transfer_amounts (tx : B4Transaction) (src : Z) :
  match transaction_type tx with TRANSFER => Some src | _ => None end
  = if is_transfer tx then Some src else None.
Proof. unfold transaction_type. destruct (is_transfer tx); [done|by destruct (direction tx)]. Qed.

Lemma import_single_amount tx acc_id st b st' :
  import_single tx acc_id st = Some (b, st') →
  ∃ p, r_tx_calls (remote st') = r_tx_calls (remote st) ++ [p]
       ∧ py_round (float_mul (float_abs (amount tx)) (float_of_Z 100)) = Some (p_sourceAmount p)
       ∧ p_destinationAmount p = if is_transfer tx then Some (p_sourceAmount p) else None.
Proof.
  unfold _import_single_transaction. rewrite bind_eq.
  destruct (ensure_category_hierarchy_step (category tx)
              (TransactionType_value (transaction_type tx)) st)
    as (cat_id & st1 & -> & Hstep).
  rewrite bind_eq.
  destruct (create_payload _ _ _ _ _ _ _ _ st1) as [[p st2]|] eqn:Hp; [|done].
  apply create_payload_Some in Hp as (-> & _ & Ha & Hd & _).
  rewrite bind_eq, call_create_transaction.
  destruct Hstep as (_ & _ & <- & _).
  intros H. exists p. rewrite <- transfer_amounts. split_and!; try done.
  destruct (next_tx_answer st1); injection H as <- <-; done.
Qed.

Lemma import_pair_amount pair st b st' :
  import_pair pair st = Some (b, st') →
  ∃ p, r_tx_calls (remote st') = r_tx_calls (remote st) ++ [p]
       ∧ py_round (float_mul (float_abs (pair_amount pair)) (float_of_Z 100))
         = Some (p_sourceAmount p)
       ∧ p_destinationAmount p = Some (p_sourceAmount p).
Proof.
  intros (p & _ & Ha & Hd & _ & ->)%import_pair_effect.
  exists p. split_and!; try done. by destruct b.
Qed.

Lemma import_unmatched_amount tx st b st' :
  import_unmatched tx st = Some (b, st') →
  ∃ p, r_tx_calls (remote st') = r_tx_calls (remote st) ++ [p]
       ∧ py_round (float_mul (float_abs (amount tx)) (float_of_Z 100)) = Some (p_sourceAmount p)
       ∧ p_destinationAmount p = if is_transfer tx then Some (p_sourceAmount p) else None.
Proof.
  unfold _import_unmatched_transfer. rewrite bind_eq. unfold get_state at 1.
  rewrite bind_eq.
  destruct (create_payload _ _ _ _ _ _ _ _ st) as [[p st2]|] eqn:Hp; [|done].
  apply create_payload_Some in Hp as (-> & _ & Ha & Hd & _).
  rewrite bind_eq, call_create_transaction.
  intros H. exists p. rewrite <- transfer_amounts. split_and!; try done.
  destruct (next_tx_answer st); injection H as <- <-; done.
Qed.

Lemma import_single_returns tx acc_id st amt_cents time :
  py_round (float_mul (float_abs (amount tx)) (float_of_Z 100)) = Some amt_cents →
  timestamp (booking_date tx) = Some time →
  ∃ b st', import_single tx acc_id st = Some (b, st').
Proof.
  intros Ha Ht. unfold _import_single_transaction. rewrite bind_eq.
  destruct (ensure_category_hierarchy_step (category tx)
              (TransactionType_value (transaction_type tx)) st)
    as (cat_id & st1 & -> & _).
  rewrite bind_eq.
  destruct (create_payload_finite acc_id (amount tx) (booking_date tx) (description tx)
              cat_id (transaction_type tx) (id tx) (Some "0") st1 _ _ Ha Ht)
    as (p & -> & _).
  rewrite bind_eq, call_create_transaction.
  destruct (next_tx_answer st1); by eexists _, _.
Qed.

Lemma import_pair_returns pair st amt_cents time :
  py_round (float_mul (float_abs (pair_amount pair)) (float_of_Z 100)) = Some amt_cents →
  timestamp (pair_date pair) = Some time →
  ∃ b st', import_pair pair st = Some (b, st').
Proof.
  intros Ha Ht. unfold _import_transfer_pair. rewrite bind_eq. unfold get_state at 1.
  rewrite bind_eq.
  destruct (create_payload_finite (get_ezb_account_id _account_map (account_id (sender pair)))
              (pair_amount pair) (pair_date pair)
              ("Transfer: " +:+ str_take 100 (description (sender pair)))
              (_transfer_category_id (category_service st)) TRANSFER (combined_id pair)
              (get_ezb_account_id _account_map (account_id (receiver pair))) st _ _ Ha Ht)
    as (p & -> & _).
  rewrite bind_eq, call_create_transaction.
  destruct (next_tx_answer st); by eexists _, _.
Qed.

Lemma import_unmatched_returns tx st amt_cents time :
  py_round (float_mul (float_abs (amount tx)) (float_of_Z 100)) = Some amt_cents →
  timestamp (booking_date tx) = Some time →
  ∃ b st', import_unmatched tx st = Some (b, st').
Proof.
  intros Ha Ht. unfold _import_unmatched_transfer. rewrite bind_eq. unfold get_state at 1.
  rewrite bind_eq.
  destruct (create_payload_finite (get_ezb_account_id _account_map (account_id tx))
              (amount tx) (booking_date tx) ("[Extern] " +:+ description tx)
              (get_external_transfer_category (category_service st) (is_income tx))
              (transaction_type tx) (id tx) (Some "0") st _ _ Ha Ht)
    as (p & -> & _).
  rewrite bind_eq, call_create_transaction.
  destruct (next_tx_answer st); by eexists _, _.
Qed.

Lemma from_json_amount data account tx :
  from_json strptime py_float data account = Some tx → float_abs (amount tx) = amount tx.
Proof.
  intros (i & d & a & r & c & date & raw & dir & status
          & _ & _ & _ & _ & _ & _ & _ & _ & _ & ->)%from_json_Some.
  apply float_abs_idem.
Qed.

(** *** Claims about payloads, markers and the three import functions *)

(** C9. Amount normalization and wire encoding.  (1) [from_json] returns a
    record for every entry that has the five required keys, a date and an
    amount the runtime can read, a known direction code and a known status;
    the amount of the record is the absolute value of the raw amount,
    whatever the direction, and the direction is read from the direction
    code alone.  (2) It returns for no other entry.  (3) Every payload
    carries as its source amount the integer [round(abs(amount) * 100)],
    which for a stored (absolute) amount is [round(amount * 100)]; a transfer
    payload carries the same integer as its destination amount, and the other
    payloads have no destination amount.  (4-6) The one payload that
    [_import_single_transaction], [_import_transfer_pair] and
    [_import_unmatched_transfer] post for a parsed record (for a pair whose
    source record is parsed) carries [round(amount * 100)] of that record,
    and the same integer as destination amount exactly when it is a transfer
    payload; each of the three returns, having posted, whenever that
    rounding and the timestamp of the booking date are defined.  (7) A
    payload is produced exactly when the rounding ([amount * 100] is finite)
    and the timestamp are defined. *)
Theorem C9_amount_normalization :
  (∀ data account i d text r code date raw dir status,
     Id data = Some i → BookgDt data = Some d → Amt data = Some text →
     RmtInf data = Some r → CdtDbtInd data = Some code →
     strptime d = Some date → py_float text = Some raw →
     Direction_of_value code = Some dir →
     BookingStatus_of_value (default "BOOK" (BookgSts data)) = Some status →
     ∃ tx, from_json strptime py_float data account = Some tx
           ∧ amount tx = float_abs raw ∧ direction tx = dir)
  ∧ (∀ data account tx,
     from_json strptime py_float data account = Some tx →
     ∃ text raw code,
       Amt data = Some text ∧ py_float text = Some raw ∧ amount tx = float_abs raw
       ∧ CdtDbtInd data = Some code ∧ Direction_of_value code = Some (direction tx))
  ∧ (∀ acc_id amount booking_date description category_id transaction_type b4_id
       partner_acc_id st p st',
       create_payload acc_id amount booking_date description category_id transaction_type
         b4_id partner_acc_id st = Some (p, st') →
       py_round (float_mul (float_abs amount) (float_of_Z 100)) = Some (p_sourceAmount p)
       ∧ (∀ raw, amount = float_abs raw →
            py_round (float_mul amount (float_of_Z 100)) = Some (p_sourceAmount p))
       ∧ (transaction_type = TRANSFER → p_destinationAmount p = Some (p_sourceAmount p))
       ∧ (transaction_type ≠ TRANSFER → p_destinationAmount p = None))
  ∧ (∀ data account tx acc_id st,
       from_json strptime py_float data account = Some tx →
       (∀ b st', import_single tx acc_id st = Some (b, st') →
          ∃ p, r_tx_calls (remote st') = r_tx_calls (remote st) ++ [p]
               ∧ py_round (float_mul (amount tx) (float_of_Z 100)) = Some (p_sourceAmount p)
               ∧ p_destinationAmount p
                 = if is_transfer tx then Some (p_sourceAmount p) else None)
       ∧ (∀ amt_cents time,
            py_round (float_mul (amount tx) (float_of_Z 100)) = Some amt_cents →
            timestamp (booking_date tx) = Some time →
            ∃ b st', import_single tx acc_id st = Some (b, st')))
  ∧ (∀ data account pair st,
       from_json strptime py_float data account = Some (source_tx pair) →
       (∀ b st', import_pair pair st = Some (b, st') →
          ∃ p, r_tx_calls (remote st') = r_tx_calls (remote st) ++ [p]
               ∧ py_round (float_mul (amount (source_tx pair)) (float_of_Z 100))
                 = Some (p_sourceAmount p)
               ∧ p_destinationAmount p = Some (p_sourceAmount p))
       ∧ (∀ amt_cents time,
            py_round (float_mul (amount (source_tx pair)) (float_of_Z 100)) = Some amt_cents →
            timestamp (pair_date pair) = Some time →
            ∃ b st', import_pair pair st = Some (b, st')))
  ∧ (∀ data account tx st,
       from_json strptime py_float data account = Some tx →
       (∀ b st', import_unmatched tx st = Some (b, st') →
          ∃ p, r_tx_calls (remote st') = r_tx_calls (remote st) ++ [p]
               ∧ py_round (float_mul (amount tx) (float_of_Z 100)) = Some (p_sourceAmount p)
               ∧ p_destinationAmount p
                 = if is_transfer tx then Some (p_sourceAmount p) else None)
       ∧ (∀ amt_cents time,
            py_round (float_mul (amount tx) (float_of_Z 100)) = Some amt_cents →
            timestamp (booking_date tx) = Some time →
            ∃ b st', import_unmatched tx st = Some (b, st')))
  ∧ (∀ acc_id amount booking_date description category_id transaction_type b4_id
       partner_acc_id st,
       (∀ amt_cents time,
          py_round (float_mul (float_abs amount) (float_of_Z 100)) = Some amt_cents →
          timestamp booking_date = Some time →
          ∃ p, create_payload acc_id amount booking_date description category_id
                 transaction_type b4_id partner_acc_id st = Some (p, st)
               ∧ p_sourceAmount p = amt_cents)
       ∧ (py_round (float_mul (float_abs amount) (float_of_Z 100)) = None
          ∨ timestamp booking_date = None →
          create_payload acc_id amount booking_date description category_id
            transaction_type b4_id partner_acc_id st = None)).
Proof.
  split_and!.
  - intros data account i d text r code date raw dir status
      HId HDt HAmt HRmt HInd Hdate Hraw Hdir Hstatus.
    exists (mkB4 i date (float_abs raw) r dir (default "" (Category data)) status account).
    unfold from_json. rewrite HId, HDt, HAmt, HRmt, HInd, Hdate, Hraw, Hdir, Hstatus. done.
  - intros data account tx (i & d & a & r & c & date & raw & dir & status
                            & _ & _ & Ha & _ & Hc & _ & Hf & Hd & _ & ->)%from_json_Some.
    by exists a, raw, c.
  - intros acc_id amount booking_date description category_id ty b4_id partner_acc_id
      st p st' (_ & _ & Ha & Hd & _)%create_payload_Some. split_and!.
    + done.
    + intros raw ->. by rewrite float_abs_idem in Ha.
    + by intros ->.
    + intros Hne. by destruct ty.
  - intros data account tx acc_id st Habs%from_json_amount. split.
    + intros b st' Hrun%import_single_amount. by rewrite Habs in Hrun.
    + intros amt_cents time Ha Ht. rewrite <- Habs in Ha.
      by eapply import_single_returns.
  - intros data account pair_ st Habs%from_json_amount. split.
    + intros b st' Hrun%import_pair_amount. unfold pair_amount in Hrun.
      by rewrite Habs in Hrun.
    + intros amt_cents time Ha Ht. rewrite <- Habs in Ha.
      by eapply import_pair_returns.
  - intros data account tx st Habs%from_json_amount. split.
    + intros b st' Hrun%import_unmatched_amount. by rewrite Habs in Hrun.
    + intros amt_cents time Ha Ht. rewrite <- Habs in Ha.
      by eapply import_unmatched_returns.
  - intros acc_id amount booking_date description category_id ty b4_id partner_acc_id st.
    split.
    + intros amt_cents time Ha Ht.
      destruct (create_payload_finite acc_id amount booking_date description category_id
                  ty b4_id partner_acc_id st _ _ Ha Ht) as (p & Hp & Hsrc & _).
      by exists p.
    + apply create_payload_raises.
Qed.

(** C4 (as the code has it).  The comment of every transaction the import
    posts is the description it was given, cut to 200 characters, followed by
    [" [B4ID:<id>]"]: the record's description and id for a single record, a
    description starting with "Transfer: " and the combined id for a pair, a
    description starting with "[Extern] " and the record's id for an
    unmatched transfer.  From such a comment [_load_existing_ids] reads back
    exactly {A} for an id A, and exactly {A, B} for the combined id of A and
    B, provided the description contains no marker prefix and the ids
    contain no underscore, no closing bracket and no marker prefix. *)
Theorem C4_marker_round_trip :
  (∀ tx acc_id st b st',
     import_single tx acc_id st = Some (b, st') →
     ∃ p, r_tx_calls (remote st') = r_tx_calls (remote st) ++ [p]
          ∧ (b = true → ledger st' = ledger st ++ [p])
          ∧ p_comment p
            = str_take 200 (description tx) +:+ " [B4ID:" +:+ id tx +:+ "]")
  ∧ (∀ pair st b st',
       import_pair pair st = Some (b, st') →
       ∃ p, r_tx_calls (remote st') = r_tx_calls (remote st) ++ [p]
            ∧ (b = true → ledger st' = ledger st ++ [p])
            ∧ p_comment p
              = str_take 200 ("Transfer: " +:+ str_take 100 (description (sender pair)))
                +:+ " [B4ID:" +:+ (id (source_tx pair) +:+ "_" +:+ id (dest_tx pair)) +:+ "]")
  ∧ (∀ tx st b st',
       import_unmatched tx st = Some (b, st') →
       ∃ p, r_tx_calls (remote st') = r_tx_calls (remote st) ++ [p]
            ∧ (b = true → ledger st' = ledger st ++ [p])
            ∧ p_comment p
              = str_take 200 ("[Extern] " +:+ description tx) +:+ " [B4ID:" +:+ id tx +:+ "]")
  ∧ (∀ description A stored,
       str_contains "[B4ID:" description = false → plain_id A →
       p_comment stored = str_take 200 description +:+ " [B4ID:" +:+ A +:+ "]" →
       ids_of_transaction stored = {[A]})
  ∧ (∀ description A B stored,
       str_contains "[B4ID:" description = false → plain_id A → plain_id B →
       p_comment stored
         = str_take 200 description +:+ " [B4ID:" +:+ (A +:+ "_" +:+ B) +:+ "]" →
       ids_of_transaction stored = {[A; B]}).
Proof.
  split_and!.
  - intros tx acc_id st b st' (st1 & p & Hstep & Hc & _ & Hb & ->)%import_single_effect.
    exists p. destruct Hstep as (_ & Hl & <- & _). split_and!; [by destruct b| |done].
    intros ->. change (ledger (after_import _ _ p true st1)) with (ledger (posted p st1)).
    rewrite ledger_posted, (proj1 Hb eq_refl). unfold ledger. by rewrite Hl.
  - intros pair_ st b st' (p & Hc & _ & _ & Hb & ->)%import_pair_effect.
    exists p. split_and!; [by destruct b| |done].
    intros ->. change (ledger (after_import _ _ p true st)) with (ledger (posted p st)).
    by rewrite ledger_posted, (proj1 Hb eq_refl).
  - intros tx st b st' (p & Hc & _ & Hb & ->)%import_unmatched_effect.
    exists p. split_and!; [by destruct b| |done].
    intros ->. change (ledger (counted _ (posted p st))) with (ledger (posted p st)).
    by rewrite ledger_posted, (proj1 Hb eq_refl).
  - intros description A stored Hd HA Hc. by eapply ids_of_transaction_single.
  - intros description A B stored Hd HA HB Hc. by eapply ids_of_transaction_combined.
Qed.

(** C5 (what the code does).  After a successful import, the single path
    adds the record's id to the existing-id set and the pair path adds the
    two ids of the pair; the path of the unmatched transfers leaves the set
    as it is, also when the remote accepted the transaction. *)
Theorem C5_existing_ids_growth :
  (∀ tx acc_id st st',
     import_single tx acc_id st = Some (true, st') →
     existing_ids st' = existing_ids st ∪ {[id tx]})
  ∧ (∀ pair st st',
       import_pair pair st = Some (true, st') →
       existing_ids st' = existing_ids st ∪ {[id (source_tx pair); id (dest_tx pair)]})
  ∧ (∀ tx st b st',
       import_unmatched tx st = Some (b, st') →
       existing_ids st' = existing_ids st
       ∧ (b = true → new_transactions (stats st') = S (new_transactions (stats st))
                     ∧ ∃ p, ledger st' = ledger st ++ [p])).
Proof.
  split_and!.
  - intros tx acc_id st st' (st1 & p & Hstep & _ & _ & _ & ->)%import_single_effect.
    simpl. by destruct Hstep as (-> & _).
  - by intros pair_ st st' (p & _ & _ & _ & _ & ->)%import_pair_effect.
  - intros tx st b st' (p & _ & _ & Hb & ->)%import_unmatched_effect.
    split; [done|]. intros ->. split; [done|].
    exists p. change (ledger (counted _ ?s)) with (ledger s).
    rewrite ledger_posted. by rewrite (proj1 Hb eq_refl).
Qed.

(** C6 (what the code does).  [from_json] reads an entry without a
    booking-status field as booked, but the loop of [_import_transactions]
    skips such an entry before it is parsed, as it skips every entry whose
    status is not the text "BOOK". *)
Theorem C6_missing_booking_status :
  (∀ data account tx,
     BookgSts data = None → from_json strptime py_float data account = Some tx →
     booking_status tx = BOOKED ∧ is_booked tx = true)
  ∧ (∀ b4_acc_id acc_id data rest all_transfers st,
       BookgSts data = None →
       file_loop b4_acc_id acc_id (data :: rest) all_transfers st
       = file_loop b4_acc_id acc_id rest all_transfers st)
  ∧ (∀ b4_acc_id acc_id data status rest all_transfers st,
       BookgSts data = Some status → status ≠ "BOOK" →
       file_loop b4_acc_id acc_id (data :: rest) all_transfers st
       = file_loop b4_acc_id acc_id rest all_transfers st).
Proof.
  split_and!.
  - intros data account tx Hs (i & d & a & r & c & date & raw & dir & status
      & _ & _ & _ & _ & _ & _ & _ & _ & Hst & ->)%from_json_Some.
    rewrite Hs in Hst. injection Hst as <-. done.
  - intros * Hs. simpl. by rewrite Hs.
  - intros * Hs Hne%String.eqb_neq. simpl. by rewrite Hs; simpl; rewrite Hne.
Qed.

End ServiceFacts.

(** The entry with raw amount -50.00 and direction DBIT: [from_json] returns
    the record with amount 50 and direction DEBIT, and the import of that
    record as an unmatched transfer returns, having posted one payload of
    5000 minor units on both sides. *)
Lemma C9_amount_normalization_witness :
  from_json Samples.sample_strptime Samples.sample_float Samples.entry_transfer "100"
    = Some Samples.tx_transfer
  ∧ amount Samples.tx_transfer = float_abs (float_of_Z (-50))
  ∧ direction Samples.tx_transfer = DEBIT
  ∧ ∃ b st' p,
      _import_unmatched_transfer Samples.sample_timestamp 60 Samples.accounts
        Samples.tx_transfer Samples.state_accepting = Some (b, st')
      ∧ r_tx_calls (remote st') = [p]
      ∧ p_sourceAmount p = 5000
      ∧ p_destinationAmount p = Some 5000.
Proof.
  pose proof (C9_amount_normalization Samples.sample_strptime Samples.sample_float
                Samples.sample_timestamp 60 Samples.accounts)
    as (Hreturns & _ & _ & _ & _ & Hunmatched & _).
  destruct (Hreturns Samples.entry_transfer "100" "t2" "2024-02-02" "-50.00" "xfer" "DBIT"
              738918 (float_of_Z (-50)) DEBIT BOOKED
              eq_refl eq_refl eq_refl eq_refl eq_refl eq_refl eq_refl eq_refl eq_refl)
    as (tx & Htx & Hamount & Hdir).
  assert (tx = Samples.tx_transfer) as ->.
  { assert (from_json Samples.sample_strptime Samples.sample_float Samples.entry_transfer
              "100" = Some Samples.tx_transfer) as Heq by reflexivity.
    rewrite Heq in Htx. by injection Htx. }
  destruct (Hunmatched Samples.entry_transfer "100" Samples.tx_transfer
              Samples.state_accepting Htx) as (Hposted & Hrun).
  destruct (Hrun 5000 1706832000 eq_refl eq_refl) as (b & st' & Hst').
  destruct (Hposted b st' Hst') as (p & Hcalls & Hsrc & Hdst).
  assert (p_sourceAmount p = 5000) as H5000.
  { assert (py_round (float_mul (amount Samples.tx_transfer) (float_of_Z 100)) = Some 5000)
      as Hr by reflexivity.
    rewrite Hr in Hsrc. by injection Hsrc. }
  split_and!; [exact Htx|exact Hamount|exact Hdir|].
  exists b, st', p. split_and!; [exact Hst'|exact Hcalls|exact H5000|].
  rewrite Hdst, H5000. reflexivity.
Defined.

(** A single and a combined marker. *)
Lemma C4_marker_round_trip_witness :
  ids_of_transaction (Samples.stored_with "pay [B4ID:t1]") = {["t1"]}
  ∧ ids_of_transaction (Samples.stored_with "Transfer: out [B4ID:1_2]") = {["1"; "2"]}.
Proof.
  pose proof (C4_marker_round_trip Samples.sample_timestamp 60 Samples.accounts)
    as (_ & _ & _ & Hsingle & Hpair).
  split.
  - apply (Hsingle "pay" "t1"); [reflexivity|by split_and!|reflexivity].
  - apply (Hpair "Transfer: out" "1" "2");
      [reflexivity|by split_and!|by split_and!|reflexivity].
Defined.

(** C4, as stated, fails for an id that contains a closing bracket (and no
    underscore): the ledger gives back a different id. *)
Lemma C4_marker_round_trip_counterexample :
  char_in "_" "a]b" = false
  ∧ str_contains "[B4ID:" "x" = false
  ∧ p_comment (Samples.stored_with "x [B4ID:a]b]")
    = str_take 200 "x" +:+ " [B4ID:" +:+ "a]b" +:+ "]"
  ∧ ids_of_transaction (Samples.stored_with "x [B4ID:a]b]") = {["a"]}
  ∧ ids_of_transaction (Samples.stored_with "x [B4ID:a]b]") ≠ {["a]b"]}.
Proof.
  split_and!; try reflexivity.
  intros H. assert ("a]b" ∈ ({["a"]} : gset string)) as Hin.
  { change ({["a"]} : gset string)
      with (ids_of_transaction (Samples.stored_with "x [B4ID:a]b]")).
    rewrite H. by apply elem_of_singleton. }
  by apply elem_of_singleton in Hin.
Qed.

(** An unmatched transfer that the remote accepts: counted as imported, and
    the existing-id set is still empty. *)
Lemma C5_existing_ids_growth_witness :
  ∃ st', _import_unmatched_transfer Samples.sample_timestamp 60 Samples.accounts
           Samples.tx_transfer Samples.state_accepting = Some (true, st')
         ∧ new_transactions (stats st') = 1%nat
         ∧ existing_ids st' = ∅.
Proof.
  destruct (_import_unmatched_transfer Samples.sample_timestamp 60 Samples.accounts
              Samples.tx_transfer Samples.state_accepting) as [[b st']|] eqn:Hrun;
    [|discriminate (eq_sym Hrun)].
  assert (b = true) as -> by (vm_compute in Hrun; by injection Hrun as <- _).
  pose proof (C5_existing_ids_growth Samples.sample_timestamp 60 Samples.accounts)
    as (_ & _ & Hun).
  destruct (Hun _ _ _ _ Hrun) as (He & Hn).
  exists st'. split; [reflexivity|]. split.
  - by destruct (Hn eq_refl) as [-> _].
  - exact He.
Defined.

(** An entry without booking status: booked for [from_json], ignored by the
    loop. *)
Lemma C6_missing_booking_status_witness :
  is_booked Samples.tx_no_status = true
  ∧ _import_file_loop Samples.sample_strptime Samples.sample_strftime Samples.sample_float
      Samples.sample_timestamp 60 Samples.config_scenario
      "100" (Some "acc-1") [Samples.entry_no_status] [] Samples.state_accepting
    = Some ([], Samples.state_accepting).
Proof.
  pose proof (C6_missing_booking_status Samples.sample_strptime Samples.sample_strftime
                Samples.sample_float Samples.sample_timestamp 60
                Samples.config_scenario) as (Hparse & Hskip & _).
  split.
  - by apply (Hparse Samples.entry_no_status "100" Samples.tx_no_status).
  - by rewrite Hskip.
Defined.

(** ** Listing the ledger *)

Section ListingFacts.

Variable r : Remote.
Variable page_size : nat.

Lemma page_offset (page : nat) :
  (1 ≤ page)%nat → ((S page - 1) * page_size = (page - 1) * page_size + page_size)%nat.
Proof. intros H. destruct page as [|page]; [lia|]. simpl. lia. Qed.

(** Beyond one iteration per remaining transaction, and one more, the loop
    of [get_all_transactions] does not use its fuel. *)
Lemma get_all_transactions_loop_enough (fuel page : nat) (acc : list Payload) :
  (1 ≤ page)%nat →
  (length (drop ((page - 1) * page_size) (r_transactions r)) < fuel)%nat →
  ∃ res, ∀ fuel', (fuel ≤ fuel')%nat →
    get_all_transactions_loop fuel' r page_size page acc = Some res.
Proof.
  revert page acc. induction fuel as [|fuel IH]; intros page acc Hpage Hlen; [lia|].
  destruct (r_list_answer r page) eqn:Hans.
  2: { exists (Returns acc). intros [|fuel'] ?; [lia|]. simpl. by rewrite Hans. }
  2: { exists Raises. intros [|fuel'] ?; [lia|]. simpl. by rewrite Hans. }
  set (rest := drop ((page - 1) * page_size) (r_transactions r)) in *.
  destruct (page_items page_size page (r_transactions r)) as [|x items] eqn:Hitems.
  { exists (Returns acc). intros [|fuel'] ?; [lia|]. simpl. by rewrite Hans, Hitems. }
  destruct (length (x :: items) <? page_size)%nat eqn:Hshort.
  { exists (Returns (acc ++ x :: items)). intros [|fuel'] ?; [lia|].
    simpl. rewrite Hans, Hitems. by rewrite Hshort. }
  apply Nat.ltb_ge in Hshort.
  assert (length (x :: items) ≤ page_size ∧ length (x :: items) ≤ length rest)%nat as [H1 H2].
  { rewrite <- Hitems. unfold page_items. fold rest. rewrite length_take. lia. }
  destruct (IH (S page) (acc ++ x :: items)) as [res Hres]; [lia| |].
  { rewrite page_offset by done. rewrite <- drop_drop. fold rest.
    rewrite length_drop. simpl in *. lia. }
  exists res. intros [|fuel'] ?; [lia|]. simpl. rewrite Hans, Hitems.
  rewrite (proj2 (Nat.ltb_ge _ _) Hshort). apply Hres. lia.
Qed.

(** [get_all_transactions] runs with enough fuel: more changes nothing. *)
Lemma get_all_transactions_fuel (fuel : nat) :
  (S (length (r_transactions r)) ≤ fuel)%nat →
  get_all_transactions_loop fuel r page_size 1 [] = Some (get_all_transactions r page_size).
Proof.
  intros Hfuel.
  destruct (get_all_transactions_loop_enough (S (length (r_transactions r))) 1 [])
    as [res Hres]; [lia|simpl; rewrite drop_0; lia|].
  unfold get_all_transactions. rewrite (Hres _ (Nat.le_refl _)). by apply Hres.
Qed.

(** When the remote serves every page, the loop returns from [page] on
    everything that is stored. *)
Lemma get_all_transactions_loop_all (fuel page : nat) (acc : list Payload) :
  (0 < page_size)%nat → (∀ n, r_list_answer r n = ListPage) →
  (1 ≤ page)%nat →
  (length (drop ((page - 1) * page_size) (r_transactions r)) < fuel)%nat →
  get_all_transactions_loop fuel r page_size page acc
  = Some (Returns (acc ++ drop ((page - 1) * page_size) (r_transactions r))).
Proof.
  intros Hps Hans. revert page acc.
  induction fuel as [|fuel IH]; intros page acc Hpage Hlen; [lia|].
  simpl. rewrite Hans. unfold page_items.
  set (rest := drop ((page - 1) * page_size) (r_transactions r)) in *.
  destruct (take page_size rest) as [|x items] eqn:Hitems.
  { assert (rest = []) as ->; [|by rewrite app_nil_r].
    destruct rest; [done|]. destruct page_size; [lia|]. done. }
  rewrite <- Hitems.
  destruct (length (take page_size rest) <? page_size)%nat eqn:Hshort.
  - apply Nat.ltb_lt in Hshort. rewrite length_take in Hshort.
    by rewrite take_ge by lia.
  - apply Nat.ltb_ge in Hshort. rewrite length_take in Hshort.
    rewrite IH; [|lia|].
    + rewrite page_offset by done. rewrite <- drop_drop. fold rest.
      by rewrite <- app_assoc, take_drop.
    + rewrite page_offset by done. rewrite <- drop_drop. fold rest.
      rewrite length_drop. lia.
Qed.

(** Whatever the remote answers, what the loop returns is a prefix of what
    is stored. *)
Lemma get_all_transactions_loop_prefix (fuel page : nat) (acc res : list Payload) :
  (1 ≤ page)%nat →
  acc = take ((page - 1) * page_size) (r_transactions r) →
  get_all_transactions_loop fuel r page_size page acc = Some (Returns res) →
  ∃ k, res = take k (r_transactions r).
Proof.
  revert page acc. induction fuel as [|fuel IH]; intros page acc Hpage Hacc; [done|].
  simpl. destruct (r_list_answer r page); [|intros [= <-]; eauto|done].
  unfold page_items.
  set (k := ((page - 1) * page_size)%nat) in *.
  assert (acc ++ take page_size (drop k (r_transactions r))
          = take (k + page_size) (r_transactions r)) as Happ.
  { rewrite Hacc. apply take_take_drop. }
  destruct (take page_size (drop k (r_transactions r))) as [|x items] eqn:Hitems.
  { intros [= <-]. eauto. }
  rewrite Happ.
  destruct (_ <? _)%nat; [intros [= <-]; eauto|].
  apply IH; [lia|]. by rewrite page_offset.
Qed.

Lemma get_all_transactions_prefix (res : list Payload) :
  get_all_transactions r page_size = Returns res → ∃ k, res = take k (r_transactions r).
Proof.
  unfold get_all_transactions.
  destruct (get_all_transactions_loop _ _ _ _ _) as [[res'|]|] eqn:Hloop; try done.
  intros [= <-]. by eapply (get_all_transactions_loop_prefix _ 1 []); [lia| |exact Hloop].
Qed.

Lemma get_all_transactions_all :
  (0 < page_size)%nat → (∀ n, r_list_answer r n = ListPage) →
  get_all_transactions r page_size = Returns (r_transactions r).
Proof.
  intros Hps Hans. unfold get_all_transactions.
  rewrite get_all_transactions_loop_all; [|done|done|lia|].
  - simpl. by rewrite drop_0.
  - simpl. rewrite drop_0. lia.
Qed.

End ListingFacts.

(** ** Ids the matcher accounts for *)

Section MatcherCoverage.

Variable tol : Z.
Variable E : gset string.

(** Whatever the ids, every candidate is existing, was processed before, or
    has the id of a record of the output. *)
Lemma find_matches_loop_covers l P :
  let st := find_matches_loop tol l E (mkMS [] [] P) in
  ∀ t, t ∈ l →
    id t ∈ E ∨ id t ∈ P
    ∨ id t ∈ ids_of_records (flat_map members (matches st) ++ unmatched st).
Proof.
  unfold ids_of_records.
  revert P. induction l as [|tx1 later IH]; intros P; [by intros ? ?%elem_of_nil|].
  destruct (find_matches_loop_cases tol E tx1 later P)
    as [[Hs ->]|[(HP & HE & partner & Hp & ->)|(HP & HE & Hp & ->)]].
  - intros t [->|Hin]%elem_of_cons; [tauto|]. by apply IH.
  - cbv zeta. simpl. intros t [->|Hin]%elem_of_cons; [set_solver|].
    destruct (IH (P ∪ {[id tx1; id partner]}) t Hin) as [?|[?|?]]; set_solver.
  - cbv zeta. simpl. intros t [->|Hin]%elem_of_cons.
    + right; right. rewrite map_app, list_to_set_app_L. simpl. set_solver.
    + destruct (IH (P ∪ {[id tx1]}) t Hin) as [?|[?|Hout]]; [set_solver| |].
      * right. rewrite map_app, list_to_set_app_L. simpl. set_solver.
      * right; right. rewrite map_app, list_to_set_app_L in Hout |- *. simpl. set_solver.
Qed.

Lemma find_matches_covers l ps us :
  find_matches tol l E = (ps, us) →
  (∀ t, t ∈ l → id t ∈ E ∨ id t ∈ ids_of_records (flat_map members ps ++ us))
  ∧ (∀ p, p ∈ ps → source_tx p ∈ l ∧ dest_tx p ∈ l)
  ∧ (∀ u, u ∈ us → u ∈ l).
Proof.
  unfold find_matches. intros [= <- <-]. split_and!.
  - intros t Hin. destruct (find_matches_loop_covers l ∅ t Hin) as [?|[?|?]]; set_solver.
  - intros p Hp.
    destruct (proj1 (find_matches_loop_sound tol E l ∅) p Hp)
      as (_&_&_&_&_& l1 & l2 & l3 & ->).
    set_solver.
  - intros u Hu. by destruct (proj2 (find_matches_loop_sound tol E l ∅) u Hu) as (_&_&?).
Qed.

End MatcherCoverage.

(** ** A run whose creation calls are all accepted *)

Section RunFacts.

Variable strptime : string → option Z.
Variable strftime : Z → string.
Variable py_float : string → option float.
Variable timestamp : Z → option Z.
Variable utc_offset : Z.
Variable config : Config.
Variable _account_map : gmap string string.

Local Abbreviation import_single := (_import_single_transaction timestamp utc_offset).
Local Abbreviation import_pair := (_import_transfer_pair timestamp utc_offset _account_map).
Local Abbreviation import_unmatched :=
  (_import_unmatched_transfer timestamp utc_offset _account_map).
Local Abbreviation pairs_loop := (_import_pairs_loop timestamp utc_offset _account_map).
Local Abbreviation unmatched_loop :=
  (_import_unmatched_loop timestamp utc_offset _account_map).
Local Abbreviation import_transfers :=
  (_import_transfers timestamp utc_offset config _account_map).
Local Abbreviation file_loop :=
  (_import_file_loop strptime strftime py_float timestamp utc_offset config).
Local Abbreviation files_loop :=
  (_import_files_loop strptime strftime py_float timestamp utc_offset config _account_map).
Local Abbreviation import_transactions :=
  (_import_transactions strptime strftime py_float timestamp utc_offset config _account_map).
Local Abbreviation run :=
  (run_import strptime strftime py_float timestamp utc_offset config _account_map).
Local Abbreviation scoped := (in_scope strptime strftime py_float config).

Lemma calls_extended_refl st : calls_extended st st.
Proof. by split. Qed.

Lemma calls_extended_trans st st1 st2 :
  calls_extended st st1 → calls_extended st1 st2 → calls_extended st st2.
Proof. intros [H1 Ha1] [H2 Ha2]. split; [lia|congruence]. Qed.

Lemma calls_extended_step st st' : category_step st st' → calls_extended st st'.
Proof. intros (_ & _ & Hc & Ha & _). split; [by rewrite Hc|done]. Qed.

Lemma calls_extended_after ids count p b st :
  calls_extended st (after_import ids count p b st).
Proof. split; destruct b; simpl; rewrite ?length_app; try done; lia. Qed.

(** Accepted calls of a step are accepted calls of its two halves. *)
Lemma all_accepted_split st st1 st2 :
  calls_extended st st1 → calls_extended st1 st2 →
  all_accepted st st2 → all_accepted st st1 ∧ all_accepted st1 st2.
Proof.
  intros [H1 Ha1] [H2 Ha2] Hall. split; intros n Hn; [|rewrite Ha1]; apply Hall; lia.
Qed.

(** A call that the remote rejected is not an accepted call. *)
Lemma rejected_not_accepted p st st' :
  r_tx_calls (remote st') = r_tx_calls (remote st) ++ [p] →
  next_tx_answer st ≠ TxSuccess → ¬ all_accepted st st'.
Proof.
  intros Hc Hn Hall. apply Hn. unfold next_tx_answer. apply Hall.
  rewrite Hc, length_app. simpl. lia.
Qed.

Lemma import_ok_refl st : import_ok ∅ st st.
Proof.
  split; [apply calls_extended_refl|]. intros _ H. split_and!; [done|done|set_solver].
Qed.

Lemma import_ok_trans A B st st1 st2 :
  import_ok A st st1 → import_ok B st1 st2 → import_ok (A ∪ B) st st2.
Proof.
  intros [Hc1 H1] [Hc2 H2]. split; [by eapply calls_extended_trans|]. intros Hall Hi.
  destruct (all_accepted_split _ _ _ Hc1 Hc2 Hall) as [Hall1 Hall2].
  destruct (H1 Hall1 Hi) as (Hi1 & Hk1 & HA).
  destruct (H2 Hall2 Hi1) as (Hi2 & Hk2 & HB).
  split_and!; [done|set_solver|set_solver].
Qed.

Lemma import_ok_mono A A' st st' : A' ⊆ A → import_ok A st st' → import_ok A' st st'.
Proof.
  intros Hsub [Hc H]. split; [done|]. intros Hall Hi.
  destruct (H Hall Hi) as (? & ? & ?). split_and!; [done|done|set_solver].
Qed.

(** The tail of the three import functions: from the state [st] in which
    the payload is posted. *)
Lemma after_import_ok ids count p b st :
  (b = true ↔ next_tx_answer st = TxSuccess) →
  ids_of_transaction p = ids →
  import_ok ids st (after_import ids count p b st).
Proof.
  intros Hb Hids. split; [apply calls_extended_after|].
  unfold after_import. destruct b.
  - pose proof (proj1 Hb eq_refl) as Hans.
    intros _ Hi. unfold existing_on_ledger in *.
    change (known_ids (recorded ids count (posted p st))) with (known_ids (posted p st)).
    rewrite (known_ids_posted _ _ Hans), Hids. simpl.
    split_and!; set_solver.
  - intros Hall. exfalso.
    apply (rejected_not_accepted p st (counted increment_errors (posted p st)) eq_refl);
      [|exact Hall].
    intros Hans. by apply Hb in Hans.
Qed.

Lemma import_single_ok tx acc_id st b st' :
  import_single tx acc_id st = Some (b, st') → plain_record tx →
  import_ok {[id tx]} st st'.
Proof.
  intros (st1 & p & Hstep & Hc & _ & Hb & ->)%import_single_effect [Hid Hd].
  assert (import_ok ∅ st st1) as H1.
  { pose proof (known_ids_step _ _ Hstep) as Hk.
    split; [by apply calls_extended_step|].
    destruct Hstep as (He & _).
    intros _ Hi. unfold existing_on_ledger in *.
    rewrite He, Hk. split_and!; [done|done|set_solver]. }
  eapply import_ok_mono; [|eapply import_ok_trans; [exact H1|]].
  2: { apply after_import_ok; [done|]. by eapply ids_of_transaction_single. }
  set_solver.
Qed.

Lemma import_pair_ok pair st b st' :
  import_pair pair st = Some (b, st') →
  plain_record (source_tx pair) → plain_record (dest_tx pair) →
  import_ok {[id (source_tx pair); id (dest_tx pair)]} st st'.
Proof.
  intros (p & Hc & _ & _ & Hb & ->)%import_pair_effect [Hs Hsd] [Hdst Hdd].
  apply after_import_ok; [done|].
  eapply ids_of_transaction_combined; [|done|done|exact Hc].
  apply contains_transfer_prefix. unfold sender.
  by destruct (Direction_eqb _ _).
Qed.

Lemma import_unmatched_ok tx st b st' :
  import_unmatched tx st = Some (b, st') → plain_record tx →
  import_ok {[id tx]} st st'.
Proof.
  intros (p & Hc & _ & Hb & ->)%import_unmatched_effect [Hid Hd].
  assert (ids_of_transaction p = {[id tx]}) as Hids.
  { eapply ids_of_transaction_single; [|done|exact Hc]. by apply contains_extern_prefix. }
  split; [split; simpl; rewrite ?length_app; [lia|done]|].
  destruct b.
  - pose proof (proj1 Hb eq_refl) as Hans.
    intros _ Hi. unfold existing_on_ledger in *.
    change (known_ids (counted _ (posted p st))) with (known_ids (posted p st)).
    rewrite (known_ids_posted _ _ Hans), Hids. simpl.
    split_and!; set_solver.
  - intros Hall. exfalso.
    apply (rejected_not_accepted p st (counted increment_errors (posted p st)) eq_refl);
      [|exact Hall].
    intros Hans. by apply Hb in Hans.
Qed.

Lemma pairs_loop_ok ps st st' :
  pairs_loop ps st = Some (tt, st') →
  (∀ p, p ∈ ps → plain_record (source_tx p) ∧ plain_record (dest_tx p)) →
  import_ok (ids_of_records (flat_map members ps)) st st'.
Proof.
  unfold ids_of_records.
  revert st. induction ps as [|p ps IH]; intros st Hrun Hplain.
  - injection Hrun as <-. apply import_ok_refl.
  - simpl in Hrun. rewrite bind_eq in Hrun.
    destruct (import_pair p st) as [[b st1]|] eqn:Hp; [|done].
    destruct (Hplain p) as [Hs Hd]; [set_solver|].
    eapply import_ok_mono;
      [|eapply import_ok_trans; [exact (import_pair_ok _ _ _ _ Hp Hs Hd)|]].
    2: { apply (IH st1 Hrun). intros q Hq. apply Hplain. set_solver. }
    simpl. set_solver.
Qed.

Lemma unmatched_loop_ok us st st' :
  unmatched_loop us st = Some (tt, st') →
  (∀ u, u ∈ us → plain_record u) →
  import_ok (ids_of_records us) st st'.
Proof.
  unfold ids_of_records.
  revert st. induction us as [|u us IH]; intros st Hrun Hplain.
  - injection Hrun as <-. apply import_ok_refl.
  - simpl in Hrun. rewrite bind_eq in Hrun.
    destruct (import_unmatched u st) as [[b st1]|] eqn:Hu; [|done].
    assert (plain_record u) as Hpu by (apply Hplain; set_solver).
    eapply import_ok_mono;
      [|eapply import_ok_trans; [exact (import_unmatched_ok _ _ _ _ Hu Hpu)|]].
    2: { apply (IH st1 Hrun). intros q Hq. apply Hplain. set_solver. }
    simpl. set_solver.
Qed.

(** The transfer-resolution pass brings the id of every collected transfer
    to the ledger. *)
Lemma import_transfers_ok transfers st st' :
  import_transfers transfers st = Some (tt, st') →
  (∀ t, t ∈ transfers → plain_record t) →
  import_ok (ids_of_records transfers) st st'.
Proof.
  intros Hrun Hplain. unfold _import_transfers in Hrun.
  rewrite bind_eq in Hrun. unfold get_state at 1 in Hrun.
  destruct (find_matches _ transfers (existing_ids st)) as [ps us] eqn:Hfm.
  rewrite bind_eq in Hrun.
  destruct (pairs_loop ps st) as [[[] st1]|] eqn:Hps; [|done].
  destruct (find_matches_covers _ _ _ _ _ Hfm) as (Hcov & Hpin & Huin).
  pose proof (pairs_loop_ok _ _ _ Hps) as H1.
  pose proof (unmatched_loop_ok _ _ _ Hrun) as H2.
  pose proof (import_ok_trans _ _ _ _ _
                (H1 ltac:(intros p Hp; destruct (Hpin p Hp); split; by apply Hplain))
                (H2 ltac:(intros u Hu; by apply Hplain, Huin))) as [Hc H].
  split; [done|]. intros Hall Hi. destruct (H Hall Hi) as (Hi' & Hk & Hids).
  split_and!; [done|done|].
  intros i (t & -> & Hin)%elem_of_list_to_set%list_elem_of_fmap.
  destruct (Hcov t Hin) as [HE|Hout].
  - apply Hk, Hi, HE.
  - apply Hids. unfold ids_of_records in *.
    rewrite map_app, list_to_set_app_L in Hout. set_solver.
Qed.

(** *** The direct-import pass *)

Lemma file_loop_cons b4_acc_id acc_id data rest all_transfers st :
  file_loop b4_acc_id acc_id (data :: rest) all_transfers st =
  if opt_str_neqb (BookgSts data) "BOOK"
  then file_loop b4_acc_id acc_id rest all_transfers st
  else
    match from_json strptime py_float data b4_acc_id with
    | None => file_loop b4_acc_id acc_id rest all_transfers (counted increment_errors st)
    | Some tx =>
        if String.ltb (strftime (booking_date tx)) (min_booking_date config)
        then file_loop b4_acc_id acc_id rest all_transfers st
        else if bool_decide (id tx ∈ existing_ids st)
        then file_loop b4_acc_id acc_id rest all_transfers (counted increment_skipped st)
        else if is_transfer tx
        then file_loop b4_acc_id acc_id rest (all_transfers ++ [tx]) st
        else match import_single tx acc_id st with
             | Some (_, st1) => file_loop b4_acc_id acc_id rest all_transfers st1
             | None => None
             end
    end.
Proof.
  simpl. destruct (opt_str_neqb (BookgSts data) "BOOK"); [done|].
  destruct (from_json strptime py_float data b4_acc_id) as [tx|]; [|done].
  destruct (String.ltb _ _); [done|].
  rewrite bind_eq. unfold get_state at 1.
  destruct (bool_decide (id tx ∈ existing_ids st)); [done|].
  destruct (is_transfer tx); [done|].
  rewrite bind_eq. by destruct (import_single tx acc_id st) as [[? ?]|].
Qed.

Lemma opt_str_neqb_false (x : option string) (s : string) :
  opt_str_neqb x s = false ↔ x = Some s.
Proof.
  destruct x as [v|]; simpl; [|split; discriminate].
  rewrite negb_false_iff, String.eqb_eq. split; congruence.
Qed.

(** The file loop in a run whose creation calls are all accepted: the
    existing ids stay on the ledger, the ledger loses no id, the collected
    transfers are extended by plain records, and every entry in scope has its
    id on the ledger or is among the collected transfers.  An entry that
    does not parse is counted and passed over. *)
Lemma file_loop_ok b4_acc_id acc_id entries all_transfers st all_transfers' st' :
  file_loop b4_acc_id acc_id entries all_transfers st = Some (all_transfers', st') →
  (∀ data tx, data ∈ entries → scoped b4_acc_id data tx → plain_record tx) →
  calls_extended st st'
  ∧ (all_accepted st st' → existing_on_ledger st →
     existing_on_ledger st' ∧ known_ids st ⊆ known_ids st'
     ∧ (∃ new, all_transfers' = all_transfers ++ new ∧ ∀ t, t ∈ new → plain_record t)
     ∧ (∀ data tx, data ∈ entries → scoped b4_acc_id data tx →
          id tx ∈ known_ids st' ∨ tx ∈ all_transfers')).
Proof.
  revert all_transfers st.
  induction entries as [|data rest IH]; intros ts st Hrun Hplain.
  { injection Hrun as <- <-. split; [apply calls_extended_refl|]. intros _ Hi.
    split_and!; [done|done| |by intros ?? ?%elem_of_nil].
    exists []. split; [by rewrite app_nil_r|by intros ? ?%elem_of_nil]. }
  assert (∀ d tx, d ∈ rest → scoped b4_acc_id d tx → plain_record tx) as Hplain'.
  { intros d tx Hd. apply Hplain. set_solver. }
  rewrite file_loop_cons in Hrun.
  destruct (opt_str_neqb (BookgSts data) "BOOK") eqn:Hst.
  { (* skipped by the status guard *)
    destruct (IH _ _ Hrun Hplain') as [Hc H]. split; [done|]. intros Hall Hi.
    destruct (H Hall Hi) as (? & ? & ? & Hcov). split_and!; try done.
    intros d tx [->|Hin]%elem_of_cons Hsc; [|by apply (Hcov d tx)].
    destruct Hsc as [Hb _]. apply opt_str_neqb_false in Hb. congruence. }
  apply opt_str_neqb_false in Hst.
  destruct (from_json strptime py_float data b4_acc_id) as [tx|] eqn:Htx.
  2: { (* parse error: counted, and the loop goes on *)
    destruct (IH _ _ Hrun Hplain') as [Hc H]. split; [exact Hc|]. intros Hall Hi.
    destruct (H Hall Hi) as (? & ? & ? & Hcov). split_and!; try done.
    intros d tx [->|Hin]%elem_of_cons Hsc; [|by apply (Hcov d tx)].
    destruct Hsc as (_ & Htx' & _). congruence. }
  destruct (String.ltb _ _) eqn:Hdate.
  { (* older than the minimum date *)
    destruct (IH _ _ Hrun Hplain') as [Hc H]. split; [done|]. intros Hall Hi.
    destruct (H Hall Hi) as (? & ? & ? & Hcov). split_and!; try done.
    intros d tx' [->|Hin]%elem_of_cons Hsc; [|by apply (Hcov d tx')].
    destruct Hsc as (_ & Htx' & Hd). congruence. }
  assert (plain_record tx) as Hptx.
  { apply (Hplain data tx); [set_solver|by split_and!]. }
  destruct (bool_decide (id tx ∈ existing_ids st)) eqn:Hex.
  { (* already imported *)
    apply bool_decide_eq_true in Hex.
    destruct (IH _ _ Hrun Hplain') as [Hc H]. split; [exact Hc|]. intros Hall Hi.
    destruct (H Hall Hi) as (? & Hk & ? & Hcov). split_and!; try done.
    intros d tx' [->|Hin]%elem_of_cons Hsc; [|by apply (Hcov d tx')].
    destruct Hsc as (_ & Htx' & Hd).
    left. assert (tx' = tx) as -> by congruence. apply Hk, Hi, Hex. }
  destruct (is_transfer tx) eqn:Htr.
  { (* collected for the transfer pass *)
    destruct (IH _ _ Hrun Hplain') as [Hc H]. split; [done|]. intros Hall Hi.
    destruct (H Hall Hi) as (? & Hk & (new & -> & Hnew) & Hcov). split_and!; try done.
    - exists (tx :: new). split; [by rewrite <- app_assoc|].
      intros t [->|?]%elem_of_cons; auto.
    - intros d tx' [->|Hin]%elem_of_cons Hsc; [|by apply (Hcov d tx')].
      destruct Hsc as (_ & Htx' & Hd).
      right. assert (tx' = tx) as -> by congruence. set_solver. }
  (* imported at once *)
  destruct (import_single tx acc_id st) as [[b st1]|] eqn:Hsingle; [|done].
  destruct (import_single_ok _ _ _ _ _ Hsingle Hptx) as [Hc1 H1].
  destruct (IH _ _ Hrun Hplain') as [Hc H].
  split; [by eapply calls_extended_trans|]. intros Hall Hi.
  destruct (all_accepted_split _ _ _ Hc1 Hc Hall) as [Hall1 Hall2].
  destruct (H1 Hall1 Hi) as (Hi1 & Hk1 & Hid).
  destruct (H Hall2 Hi1) as (? & Hk & ? & Hcov).
  split_and!; [done|set_solver|done|].
  intros d tx' [->|Hin]%elem_of_cons Hsc; [|by apply (Hcov d tx')].
  destruct Hsc as (_ & Htx' & Hd).
  left. assert (tx' = tx) as -> by congruence. set_solver.
Qed.

Lemma files_loop_cons b4_acc_id entries files all_transfers st :
  files_loop ((b4_acc_id, entries) :: files) all_transfers st =
  if negb (has_account _account_map b4_acc_id) then files_loop files all_transfers st
  else match file_loop b4_acc_id (get_ezb_account_id _account_map b4_acc_id) entries
               all_transfers st with
       | Some (all_transfers1, st1) => files_loop files all_transfers1 st1
       | None => None
       end.
Proof.
  simpl. destruct (negb _); [done|]. rewrite bind_eq.
  by destruct (file_loop _ _ _ _ _) as [[? ?]|].
Qed.

Lemma files_loop_ok files all_transfers st all_transfers' st' :
  files_loop files all_transfers st = Some (all_transfers', st') →
  (∀ b4_acc_id entries data tx,
     (b4_acc_id, entries) ∈ files → has_account _account_map b4_acc_id = true →
     data ∈ entries → scoped b4_acc_id data tx → plain_record tx) →
  calls_extended st st'
  ∧ (all_accepted st st' → existing_on_ledger st →
     existing_on_ledger st' ∧ known_ids st ⊆ known_ids st'
     ∧ (∃ new, all_transfers' = all_transfers ++ new ∧ ∀ t, t ∈ new → plain_record t)
     ∧ (∀ b4_acc_id entries data tx,
          (b4_acc_id, entries) ∈ files → has_account _account_map b4_acc_id = true →
          data ∈ entries → scoped b4_acc_id data tx →
          id tx ∈ known_ids st' ∨ tx ∈ all_transfers')).
Proof.
  revert all_transfers st.
  induction files as [|[b4 entries] files IH]; intros ts st Hrun Hplain.
  { injection Hrun as <- <-. split; [apply calls_extended_refl|]. intros _ Hi.
    split_and!; [done|done| |by intros ???? ?%elem_of_nil].
    exists []. split; [by rewrite app_nil_r|by intros ? ?%elem_of_nil]. }
  assert (∀ b e d tx, (b, e) ∈ files → has_account _account_map b = true →
            d ∈ e → scoped b d tx → plain_record tx) as Hplain'.
  { intros b e d tx Hin. apply (Hplain b e d tx). set_solver. }
  rewrite files_loop_cons in Hrun.
  destruct (has_account _account_map b4) eqn:Hacc; simpl negb in Hrun; cbv iota in Hrun.
  2: { destruct (IH _ _ Hrun Hplain') as [Hc H]. split; [done|]. intros Hall Hi.
       destruct (H Hall Hi) as (? & ? & ? & Hcov). split_and!; try done.
       intros b e d tx [[= -> ->]|Hin]%elem_of_cons Ha; [congruence|by apply Hcov]. }
  destruct (file_loop b4 _ entries ts st) as [[ts1 st1]|] eqn:Hfile; [|done].
  destruct (file_loop_ok _ _ _ _ _ _ _ Hfile) as [Hc1 H1].
  { intros d tx Hd. apply (Hplain b4 entries d tx); [set_solver|done|done]. }
  destruct (IH _ _ Hrun Hplain') as [Hc H].
  split; [by eapply calls_extended_trans|]. intros Hall Hi.
  destruct (all_accepted_split _ _ _ Hc1 Hc Hall) as [Hall1 Hall2].
  destruct (H1 Hall1 Hi) as (Hi1 & Hk1 & (new1 & -> & Hnew1) & Hcov1).
  destruct (H Hall2 Hi1) as (? & Hk & (new & -> & Hnew) & Hcov).
  split_and!; [done|set_solver| |].
  - exists (new1 ++ new). split; [by rewrite app_assoc|].
    intros t [?|?]%elem_of_app; auto.
  - intros b e d tx [[= -> ->]|Hin]%elem_of_cons Ha Hd Hsc; [|by eapply Hcov].
    destruct (Hcov1 d tx Hd Hsc) as [?|?]; [left; set_solver|right; set_solver].
Qed.

(** The transfer pass only appends to the log of creation calls. *)
Lemma pairs_loop_calls ps st st' :
  pairs_loop ps st = Some (tt, st') → calls_extended st st'.
Proof.
  revert st. induction ps as [|p ps IH]; intros st Hps.
  - injection Hps as <-. apply calls_extended_refl.
  - simpl in Hps. rewrite bind_eq in Hps.
    destruct (import_pair p st) as [[b st1]|] eqn:Hp; [|done].
    apply import_pair_effect in Hp as (q & _ & _ & _ & _ & ->).
    eapply calls_extended_trans; [apply calls_extended_after|apply (IH _ Hps)].
Qed.

Lemma unmatched_loop_calls us st st' :
  unmatched_loop us st = Some (tt, st') → calls_extended st st'.
Proof.
  revert st. induction us as [|u us IH]; intros st Hus.
  - injection Hus as <-. apply calls_extended_refl.
  - simpl in Hus. rewrite bind_eq in Hus.
    destruct (import_unmatched u st) as [[b st1]|] eqn:Hu; [|done].
    apply import_unmatched_effect in Hu as (q & _ & _ & _ & ->).
    eapply calls_extended_trans; [|apply (IH _ Hus)].
    split; simpl; rewrite ?length_app; [lia|done].
Qed.

Lemma import_transfers_calls transfers st st' :
  import_transfers transfers st = Some (tt, st') → calls_extended st st'.
Proof.
  unfold _import_transfers. rewrite bind_eq. unfold get_state at 1.
  destruct (find_matches _ transfers (existing_ids st)) as [ps us].
  rewrite bind_eq.
  destruct (pairs_loop ps st) as [[[] st1]|] eqn:Hps; [|done].
  intros Hus.
  eapply calls_extended_trans; [by eapply pairs_loop_calls|by eapply unmatched_loop_calls].
Qed.

(** *** The whole run *)

Lemma ids_of_ledger_take k txs : ids_of_ledger (take k txs) ⊆ ids_of_ledger txs.
Proof.
  rewrite <- (take_drop k txs) at 2. rewrite ids_of_ledger_app. set_solver.
Qed.

Lemma load_existing_ids_spec st :
  ∃ ids, _load_existing_ids config st = Some (ids, st)
         ∧ ids ⊆ known_ids st
         ∧ ((0 < page_size config)%nat →
            (∀ n, r_list_answer (remote st) n = ListPage) → ids = known_ids st).
Proof.
  unfold _load_existing_ids. rewrite bind_eq. unfold get_state at 1.
  destruct (get_all_transactions (remote st) (page_size config)) as [txs|] eqn:Hall.
  - exists (ids_of_ledger txs). split; [done|]. split.
    + destruct (get_all_transactions_prefix _ _ _ Hall) as [k ->].
      apply ids_of_ledger_take.
    + intros Hps Hans. rewrite get_all_transactions_all in Hall by done.
      by injection Hall as <-.
  - exists ∅. split; [done|]. split; [set_solver|].
    intros Hps Hans. by rewrite get_all_transactions_all in Hall.
Qed.

Lemma run_import_eq st :
  run st =
  match _load_existing_ids config st with
  | Some (ids, st0) =>
      match import_transactions
              (mkState (remote st0) (category_service st0) (stats st0) ids) with
      | Some (all_transfers, st1) =>
          match import_transfers all_transfers st1 with
          | Some (_, st2) => Some (stats st2, st2)
          | None => None
          end
      | None => None
      end
  | None => None
  end.
Proof.
  unfold run_import. rewrite bind_eq.
  destruct (_load_existing_ids config st) as [[ids st0]|]; [|done].
  rewrite bind_eq. unfold with_existing at 1, modify at 1. rewrite bind_eq.
  destruct (import_transactions _) as [[ts st1]|]; [|done].
  rewrite bind_eq. by destruct (import_transfers ts st1) as [[? st2]|].
Qed.

(** After a run whose creation calls were all accepted, the id of every
    entry in scope is on the ledger. *)
Lemma run_import_covers st0 s1 st1 :
  run st0 = Some (s1, st1) →
  all_accepted st0 st1 →
  (∀ b4_acc_id entries data tx,
     (b4_acc_id, entries) ∈ json_files config → has_account _account_map b4_acc_id = true →
     data ∈ entries → scoped b4_acc_id data tx → plain_record tx) →
  ∀ b4_acc_id entries data tx,
    (b4_acc_id, entries) ∈ json_files config → has_account _account_map b4_acc_id = true →
    data ∈ entries → scoped b4_acc_id data tx →
    id tx ∈ known_ids st1.
Proof.
  intros Hrun Hall Hplain. rewrite run_import_eq in Hrun.
  destruct (load_existing_ids_spec st0) as (ids & Hload & Hids & _).
  rewrite Hload in Hrun.
  set (sta := mkState (remote st0) (category_service st0) (stats st0) ids) in *.
  destruct (import_transactions sta) as [[ts stb]|] eqn:Hfiles; [|done].
  destruct (import_transfers ts stb) as [[[] stc]|] eqn:Htr; [|done].
  injection Hrun as <- <-.
  destruct (files_loop_ok _ _ _ _ _ Hfiles Hplain) as [Hc1 H1].
  assert (existing_on_ledger sta) as Hi by done.
  pose proof (import_transfers_calls _ _ _ Htr) as Hc2.
  destruct (all_accepted_split sta stb stc Hc1 Hc2 Hall) as [Hall1 Hall2].
  destruct (H1 Hall1 Hi) as (Hi1 & Hk1 & (new & Hts & Hnew) & Hcov).
  simpl in Hts. subst ts.
  destruct (import_transfers_ok _ _ _ Htr Hnew) as [_ H2].
  destruct (H2 Hall2 Hi1) as (_ & Hk2 & Hids2).
  intros b4 entries data tx Hin Hacc Hd Hsc.
  destruct (Hcov b4 entries data tx Hin Hacc Hd Hsc) as [?|Hcol]; [set_solver|].
  apply Hids2. unfold ids_of_records. apply elem_of_list_to_set, list_elem_of_fmap. eauto.
Qed.

(** *** A run that finds every entry on the ledger *)

Lemma quiet_refl st : quiet st st.
Proof. by repeat split. Qed.

Lemma quiet_trans st1 st2 st3 : quiet st1 st2 → quiet st2 st3 → quiet st1 st3.
Proof.
  intros (?&?&?&?&?&?) (?&?&?&?&?&?). unfold quiet. split_and!; congruence.
Qed.

Lemma file_loop_quiet b4_acc_id acc_id entries all_transfers st :
  (∀ data tx, data ∈ entries → scoped b4_acc_id data tx → id tx ∈ existing_ids st) →
  ∃ st', file_loop b4_acc_id acc_id entries all_transfers st = Some (all_transfers, st')
         ∧ quiet st st'.
Proof.
  revert st. induction entries as [|data rest IH]; intros st Hknown.
  { exists st. split; [done|apply quiet_refl]. }
  assert (∀ st', existing_ids st' = existing_ids st → quiet st st' →
            ∃ st'', file_loop b4_acc_id acc_id rest all_transfers st'
                    = Some (all_transfers, st'') ∧ quiet st st'') as Hnext.
  { intros st' Hex Hq. destruct (IH st') as (st'' & Hrun & Hq').
    - intros d tx Hd Hsc. rewrite Hex. apply (Hknown d tx); [set_solver|done].
    - exists st''. split; [done|by eapply quiet_trans]. }
  rewrite file_loop_cons.
  destruct (opt_str_neqb (BookgSts data) "BOOK") eqn:Hst.
  { apply Hnext; [done|apply quiet_refl]. }
  apply opt_str_neqb_false in Hst.
  destruct (from_json strptime py_float data b4_acc_id) as [tx|] eqn:Htx.
  2: { apply Hnext; [done|by repeat split]. }
  destruct (String.ltb _ _) eqn:Hdate.
  { apply Hnext; [done|apply quiet_refl]. }
  rewrite bool_decide_eq_true_2.
  - apply Hnext; [done|by repeat split].
  - apply (Hknown data tx); [set_solver|done].
Qed.

Lemma files_loop_quiet files all_transfers st :
  (∀ b4_acc_id entries data tx,
     (b4_acc_id, entries) ∈ files → has_account _account_map b4_acc_id = true →
     data ∈ entries → scoped b4_acc_id data tx → id tx ∈ existing_ids st) →
  ∃ st', files_loop files all_transfers st = Some (all_transfers, st') ∧ quiet st st'.
Proof.
  revert st. induction files as [|[b4 entries] files IH]; intros st Hknown.
  { exists st. split; [done|apply quiet_refl]. }
  rewrite files_loop_cons.
  destruct (has_account _account_map b4) eqn:Hacc; simpl negb; cbv iota.
  2: { apply IH. intros b e d tx Hin. apply (Hknown b e d tx). set_solver. }
  destruct (file_loop_quiet b4 (get_ezb_account_id _account_map b4) entries all_transfers st)
    as (st1 & -> & Hq1).
  { intros d tx Hd. apply (Hknown b4 entries d tx); [set_solver|done|done]. }
  destruct (IH st1) as (st2 & -> & Hq2).
  { intros b e d tx Hin Ha Hd Hsc. destruct Hq1 as (_&_&->&_).
    apply (Hknown b e d tx); [set_solver|done|done|done]. }
  exists st2. split; [done|by eapply quiet_trans].
Qed.

Lemma import_transfers_nil st : import_transfers [] st = Some (tt, st).
Proof. done. Qed.

(** C1 (as the code has it).  Let a first run of the import return, and let
    the remote have accepted every [create_transaction] call that run made;
    entries that do not parse may have been counted as errors.  Let every
    entry in scope (status "BOOK", parsable, not older than the minimum
    date, in the file of a mapped account) have an id with no underscore, no
    closing bracket and no marker prefix and a description with no marker
    prefix.  Then the id of every entry in scope is among the ids that
    [_load_existing_ids] reads from the ledger the first run leaves.  With a
    positive page size, every second run over the same files that starts
    from that ledger (whatever the rest of its state) and lists it without
    failure returns as well, adds nothing to the counters of new
    transactions and of new transfers, posts nothing and leaves the ledger
    as it is. *)
Theorem C1_import_idempotence (st0 : State) (s1 : ImportStats) (st1 : State) :
  (∀ b4_acc_id entries data tx,
     (b4_acc_id, entries) ∈ json_files config → has_account _account_map b4_acc_id = true →
     data ∈ entries → scoped b4_acc_id data tx → plain_record tx) →
  run st0 = Some (s1, st1) →
  (∀ n, (length (r_tx_calls (remote st0)) ≤ n < length (r_tx_calls (remote st1)))%nat →
        r_tx_answer (remote st0) n = TxSuccess) →
  (∀ b4_acc_id entries data tx,
     (b4_acc_id, entries) ∈ json_files config → has_account _account_map b4_acc_id = true →
     data ∈ entries → scoped b4_acc_id data tx →
     id tx ∈ ids_of_ledger (ledger st1))
  ∧ (∀ st1',
       ledger st1' = ledger st1 →
       (0 < page_size config)%nat →
       (∀ page, r_list_answer (remote st1') page = ListPage) →
       ∃ s2 st2,
         run st1' = Some (s2, st2)
         ∧ new_transactions s2 = new_transactions (stats st1')
         ∧ new_transfers s2 = new_transfers (stats st1')
         ∧ ledger st2 = ledger st1'
         ∧ r_tx_calls (remote st2) = r_tx_calls (remote st1')).
Proof.
  intros Hplain Hrun Hall.
  pose proof (run_import_covers _ _ _ Hrun Hall Hplain) as Hcov.
  split; [exact Hcov|]. intros st1' Hledger Hps Hlist.
  rewrite run_import_eq.
  destruct (load_existing_ids_spec st1') as (ids & -> & _ & Hids).
  rewrite (Hids Hps Hlist). unfold _import_transactions.
  destruct (files_loop_quiet (json_files config) []
              (mkState (remote st1') (category_service st1') (stats st1') (known_ids st1')))
    as (st2 & -> & Hq).
  { intros b4 entries data tx Hin Hacc Hd Hsc. simpl.
    unfold known_ids. rewrite Hledger. by eapply Hcov. }
  rewrite import_transfers_nil.
  exists (stats st2), st2. destruct Hq as (Hr & _ & _ & Hnt & Hnf & _).
  simpl in *. unfold ledger. rewrite Hr. by split_and!.
Qed.

End RunFacts.

(** The end-to-end scenario with an entry that does not parse, twice: the
    first run counts one error and imports the two records, the second run
    imports nothing. *)
Lemma C1_import_idempotence_witness :
  ∃ s1 st1 s2 st2,
    run_import Samples.sample_strptime Samples.sample_strftime Samples.sample_float
      Samples.sample_timestamp 60 Samples.config_parse_error Samples.accounts
      Samples.state_accepting = Some (s1, st1)
    ∧ errors s1 = 1%nat
    ∧ new_transactions s1 = 2%nat
    ∧ run_import Samples.sample_strptime Samples.sample_strftime Samples.sample_float
        Samples.sample_timestamp 60 Samples.config_parse_error Samples.accounts
        (Samples.restarted st1) = Some (s2, st2)
    ∧ new_transactions s2 = 0%nat ∧ new_transfers s2 = 0%nat
    ∧ ledger st2 = ledger st1.
Proof.
  destruct (run_import Samples.sample_strptime Samples.sample_strftime Samples.sample_float
              Samples.sample_timestamp 60 Samples.config_parse_error Samples.accounts
              Samples.state_accepting) as [[s1 st1]|] eqn:Hrun;
    [|discriminate (eq_sym Hrun)].
  assert (errors s1 = 1%nat ∧ new_transactions s1 = 2%nat
          ∧ r_list_answer (remote st1) = (λ _, ListPage)) as (He & Hn & Hl).
  { vm_compute in Hrun. injection Hrun as <- <-. by split_and!. }
  destruct (C1_import_idempotence Samples.sample_strptime Samples.sample_strftime
              Samples.sample_float Samples.sample_timestamp 60 Samples.config_parse_error
              Samples.accounts Samples.state_accepting s1 st1) as (_ & Hsecond).
  - intros b4 entries data tx [= -> ->]%list_elem_of_singleton _ Hd (_ & Htx & _).
    apply elem_of_cons in Hd as [->|Hd]; [|apply elem_of_cons in Hd as [->|Hd]];
      [| |apply list_elem_of_singleton in Hd as ->]; vm_compute in Htx;
      [injection Htx as <-|discriminate Htx|injection Htx as <-];
      (split; [unfold plain_id; by split_and!|done]).
  - exact Hrun.
  - intros n _. reflexivity.
  - destruct (Hsecond (Samples.restarted st1)) as (s2 & st2 & Hrun2 & H1 & H2 & H3 & _).
    + reflexivity.
    + simpl. lia.
    + intros page. simpl. by rewrite Hl.
    + exists s1, st1, s2, st2. by split_and!.
Defined.

(** C1, as stated, fails for a record id with an underscore: the first run
    imports the record without error, the ledger gives back the two halves
    of the id, and the second run imports the record again. *)
Lemma C1_import_idempotence_counterexample :
  match run_import Samples.sample_strptime Samples.sample_strftime Samples.sample_float
          Samples.sample_timestamp 60 Samples.config_underscore Samples.accounts
          Samples.state_accepting with
  | Some (s1, st1) =>
      new_transactions s1 = 1%nat ∧ errors s1 = 0%nat
      ∧ p_comment <$> ledger st1 = ["pay [B4ID:t_1]"]
      ∧ ids_of_ledger (ledger st1) = {["t"; "1"]}
      ∧ match run_import Samples.sample_strptime Samples.sample_strftime
                Samples.sample_float Samples.sample_timestamp 60
                Samples.config_underscore Samples.accounts (Samples.restarted st1) with
        | Some (s2, st2) =>
            new_transactions s2 = 1%nat
            ∧ p_comment <$> ledger st2 = ["pay [B4ID:t_1]"; "pay [B4ID:t_1]"]
        | None => False
        end
  | None => False
  end.
Proof. vm_compute. by split_and!. Qed.

(** * More properties of the code *)

(** ** The transfer matcher: roles and maximality *)

Section MatcherMore.
Variable tol : Z.
Variable E : gset string.

Lemma is_match_self a : _is_match tol a a = false.
Proof.
  unfold _is_match. rewrite String.eqb_refl. simpl. by rewrite andb_false_r.
Qed.

Lemma find_matches_loop_maximal l P :
  let st := find_matches_loop tol l E (mkMS [] [] P) in
  ∀ u v, u ∈ unmatched st → v ∈ unmatched st → _is_match tol u v = false.
Proof.
  revert P. induction l as [|tx1 later IH]; intros P.
  { simpl. intros ?? H. inversion H. }
  destruct (find_matches_loop_cases tol E tx1 later P)
    as [[_ ->]|[(HP & HE & partner & Hp & ->)|(HP & HE & Hp & ->)]].
  - apply IH.
  - simpl. apply IH.
  - simpl. intros u v Hu Hv.
    assert (∀ w, w ∈ unmatched (find_matches_loop tol later E (mkMS [] [] (P ∪ {[id tx1]}))) →
              _is_match tol tx1 w = false) as Hnew.
    { intros w Hw.
      destruct (proj2 (find_matches_loop_sound tol E later _) w Hw) as (Hw1 & Hw2 & Hw3).
      apply find_partner_None in Hp. rewrite Forall_forall in Hp.
      specialize (Hp w Hw3). unfold eligible in Hp.
      apply not_elem_of_union in Hw1 as [Hw1 _].
      rewrite (bool_decide_eq_false_2 _ Hw1), (bool_decide_eq_false_2 _ Hw2) in Hp.
      done. }
    apply elem_of_cons in Hu as [->|Hu], Hv as [->|Hv].
    + apply is_match_self.
    + by apply Hnew.
    + rewrite is_match_sym. by apply Hnew.
    + by apply (IH (P ∪ {[id tx1]})).
Qed.
Lemma matched_pair_roles p :
  _is_match tol (source_tx p) (dest_tx p) = true →
  direction (sender p) = DEBIT ∧ direction (receiver p) = CREDIT
  ∧ account_id (sender p) ≠ account_id (receiver p)
  ∧ (sender p, receiver p)
    = match direction (source_tx p) with
      | DEBIT => (source_tx p, dest_tx p)
      | CREDIT => (dest_tx p, source_tx p)
      end
  ∧ pair_date p ≤ booking_date (source_tx p) ≤ pair_date p + tol
  ∧ pair_date p ≤ booking_date (dest_tx p) ≤ pair_date p + tol.
Proof.
  intros (Ha & Hacc & Hdir & Hdate)%is_match_conditions.
  unfold sender, receiver, pair_date.
  destruct (direction (source_tx p)) eqn:H1, (direction (dest_tx p)) eqn:H2;
    simpl; try done; rewrite ?H1, ?H2; split_and!; try done; try lia.
Qed.
End MatcherMore.

(** X1. No two records of the unmatched list of [find_matches] satisfy the
    match predicate, in either order and whatever the input: the pairing
    leaves no pair that could still be formed. *)
Theorem X1_unmatched_records_never_match
    (tol : Z) (l : list B4Transaction) (E : gset string) (u v : B4Transaction) :
  u ∈ (find_matches tol l E).2 → v ∈ (find_matches tol l E).2 →
  _is_match tol u v = false.
Proof. apply (find_matches_loop_maximal tol E l ∅). Qed.

(** Five days apart, the debit and the credit stay unmatched, and they do
    not match. *)
Lemma X1_unmatched_records_never_match_witness :
  _is_match 3 Samples.tx_debit Samples.tx_credit_5_days = false.
Proof.
  apply (X1_unmatched_records_never_match 3
           [Samples.tx_debit; Samples.tx_credit_5_days] ∅).
  - rewrite find_matches_two_no_match; [set_solver|discriminate|reflexivity].
  - rewrite find_matches_two_no_match; [set_solver|discriminate|reflexivity].
Defined.

(** X2. In every pair [find_matches] returns, one record is a debit and the
    other a credit on a different account; [sender] is the debit and
    [receiver] the credit, whichever of them came first in the input; and
    [date] (the earlier booking date) is at most [tolerance_days] before
    each of the two booking dates. *)
Theorem X2_matched_pair_roles
    (tol : Z) (l : list B4Transaction) (E : gset string) (p : TransferPair) :
  p ∈ (find_matches tol l E).1 →
  direction (sender p) = DEBIT ∧ direction (receiver p) = CREDIT
  ∧ account_id (sender p) ≠ account_id (receiver p)
  ∧ (sender p, receiver p)
    = match direction (source_tx p) with
      | DEBIT => (source_tx p, dest_tx p)
      | CREDIT => (dest_tx p, source_tx p)
      end
  ∧ pair_date p ≤ booking_date (source_tx p) ≤ pair_date p + tol
  ∧ pair_date p ≤ booking_date (dest_tx p) ≤ pair_date p + tol.
Proof.
  intros Hp. apply matched_pair_roles.
  by destruct (proj1 (find_matches_loop_sound tol E l ∅) p Hp) as (_&_&_&_&?&_).
Qed.

(** The credit comes first in the input, and is the receiver. *)
Lemma X2_matched_pair_roles_witness :
  mkPair Samples.tx_credit_3_days Samples.tx_debit
    ∈ (find_matches 3 [Samples.tx_credit_3_days; Samples.tx_debit] ∅).1
  ∧ direction (sender (mkPair Samples.tx_credit_3_days Samples.tx_debit)) = DEBIT
  ∧ direction (receiver (mkPair Samples.tx_credit_3_days Samples.tx_debit)) = CREDIT.
Proof.
  assert (mkPair Samples.tx_credit_3_days Samples.tx_debit
            ∈ (find_matches 3 [Samples.tx_credit_3_days; Samples.tx_debit] ∅).1) as Hin.
  { rewrite find_matches_two_match; [set_solver|reflexivity]. }
  split; [exact Hin|].
  destruct (X2_matched_pair_roles 3 [Samples.tx_credit_3_days; Samples.tx_debit] ∅
              (mkPair Samples.tx_credit_3_days Samples.tx_debit) Hin)
    as (H1 & H2 & _).
  exact (conj H1 H2).
Defined.

(** ** Listing the ledger and reading the markers *)

Section ListingMore.

Variable r : Remote.
Variable page_size : nat.

Lemma get_all_transactions_loop_reach (k d page fuel : nat) (acc : list Payload) :
  (0 < page_size)%nat →
  (∀ n, (1 ≤ n < k)%nat → r_list_answer r n = ListPage) →
  ((k - 1) * page_size ≤ length (r_transactions r))%nat →
  (page + d = k)%nat → (1 ≤ page)%nat → (d < fuel)%nat →
  get_all_transactions_loop fuel r page_size page acc
  = get_all_transactions_loop (fuel - d) r page_size k
      (acc ++ take (d * page_size) (drop ((page - 1) * page_size) (r_transactions r))).
Proof.
  intros Hps Hans Hlen. revert page fuel acc.
  induction d as [|d IH]; intros page fuel acc Hk Hpage Hfuel.
  { assert (page = k) as -> by lia. simpl. by rewrite app_nil_r, Nat.sub_0_r. }
  destruct fuel as [|fuel]; [lia|].
  cbn [get_all_transactions_loop]. rewrite Hans by lia. unfold page_items.
  set (rest := drop ((page - 1) * page_size) (r_transactions r)).
  assert (page_size ≤ length rest)%nat as Hrest.
  { unfold rest. rewrite length_drop. nia. }
  destruct (take page_size rest) as [|x items] eqn:Hitems.
  { apply (f_equal length) in Hitems. rewrite length_take in Hitems. simpl in Hitems. lia. }
  rewrite <- Hitems.
  rewrite (proj2 (Nat.ltb_ge _ _)) by (rewrite length_take; lia).
  rewrite (IH (S page)); [|lia|lia|lia].
  rewrite page_offset by done. rewrite <- drop_drop. fold rest.
  rewrite <- app_assoc, take_take_drop.
  replace (S fuel - S d)%nat with (fuel - d)%nat by lia.
  by replace (page_size + d * page_size)%nat with (S d * page_size)%nat by lia.
Qed.

Lemma get_all_transactions_interrupted (k : nat) :
  (0 < page_size)%nat → (1 ≤ k)%nat →
  ((k - 1) * page_size ≤ length (r_transactions r))%nat →
  (∀ n, (1 ≤ n < k)%nat → r_list_answer r n = ListPage) →
  get_all_transactions r page_size
  = match r_list_answer r k with
    | ListAPIError => Raises
    | ListFailure => Returns (take ((k - 1) * page_size) (r_transactions r))
    | ListPage => get_all_transactions r page_size
    end.
Proof.
  intros Hps Hk Hlen Hans.
  destruct (r_list_answer r k) eqn:Hk'; [done| |].
  - unfold get_all_transactions.
    rewrite (get_all_transactions_loop_reach k (k - 1) 1); [|done|done|done|lia|lia|nia].
    destruct (S (length (r_transactions r)) - (k - 1))%nat as [|fuel] eqn:Hf; [nia|].
    simpl. rewrite Hk'. by rewrite drop_0.
  - unfold get_all_transactions.
    rewrite (get_all_transactions_loop_reach k (k - 1) 1); [|done|done|done|lia|lia|nia].
    destruct (S (length (r_transactions r)) - (k - 1))%nat as [|fuel] eqn:Hf; [nia|].
    simpl. by rewrite Hk'.
Qed.

End ListingMore.

Section MarkerMore.

Lemma ids_of_ledger_perm (txs1 txs2 : list Payload) :
  txs1 ≡ₚ txs2 → ids_of_ledger txs1 = ids_of_ledger txs2.
Proof.
  intros Hp. unfold ids_of_ledger. rewrite !load_existing_ids_loop_union.
  apply leibniz_equiv. by rewrite Hp.
Qed.

(** A separator whose first character does not occur again in it cannot
    start inside [d] and end inside a copy of itself that follows [d]. *)
Lemma occurs_within_head (c : ascii) (sep' d rest : string) :
  char_in c sep' = false → str_contains (String c sep') d = false →
  occurs_within (String c sep') d (String c sep' +:+ rest) = false.
Proof.
  intros Hc. induction d as [|x d IH]; [done|].
  rewrite contains_cons. intros [Hp Hd]%orb_false_iff.
  cbn [occurs_within]. rewrite (IH Hd), orb_false_r.
  apply not_true_is_false. intros H.
  rewrite !append_cons, prefix_cons in H. apply andb_true_iff in H as [Hx H].
  rewrite prefix_cons, Hx in Hp. simpl in Hp.
  apply (prefix_barrier sep' d _ c Hc) in H. congruence.
Qed.

Lemma split_go_append (sep a s : string) :
  occurs_within sep a s = false →
  split_go sep 0 (a +:+ s)
  = match split_go sep 0 s with
    | h :: t => (a +:+ h) :: t
    | [] => [a]
    end.
Proof.
  induction a as [|x a IH]; intros Ha.
  - rewrite append_nil_l.
    destruct (split_go sep 0 s) eqn:Hs; [by apply split_go_nonempty in Hs|done].
  - cbn [occurs_within] in Ha. apply orb_false_iff in Ha as [Hp Ha].
    rewrite append_cons in *. cbn [split_go]. rewrite Hp, (IH Ha).
    by destruct (split_go sep 0 s).
Qed.

Lemma marker_ids_first (pre i rest : string) :
  str_contains "[B4ID:" pre = false →
  char_in "]" i = false → str_contains "[B4ID:" i = false →
  marker_ids (pre +:+ "[B4ID:" +:+ i +:+ "]" +:+ rest) = Some (str_split "_" i).
Proof.
  intros Hpre Hb Hi. unfold marker_ids.
  rewrite str_split_first; [|done|by apply occurs_within_head].
  unfold str_split at 1.
  change (i +:+ "]" +:+ rest) with (i +:+ String "]" "" +:+ rest).
  rewrite <- append_assoc.
  rewrite split_go_append by by apply occurs_within_barrier.
  destruct (split_go "[B4ID:" 0 rest) as [|h t] eqn:Hs; [by apply split_go_nonempty in Hs|].
  rewrite append_assoc.
  rewrite str_split_first; [done|done|by apply occurs_within_single].
Qed.

Lemma marker_ids_open (pre i : string) :
  str_contains "[B4ID:" pre = false →
  char_in "]" i = false → str_contains "[B4ID:" i = false →
  marker_ids (pre +:+ "[B4ID:" +:+ i) = Some (str_split "_" i).
Proof.
  intros Hpre Hb Hi. unfold marker_ids.
  rewrite str_split_first; [|done|by apply occurs_within_head].
  rewrite (str_split_none "[B4ID:" i) by done.
  rewrite (str_split_none "]" i); [done|by rewrite contains_single].
Qed.

End MarkerMore.

(** X3. When the ledger answers every page request and the page size is
    positive, [get_all_transactions] returns every stored transaction, in
    order, whatever the page size; [_load_existing_ids] then returns the
    ids of all of them and leaves the state alone. *)
Theorem X3_listing_complete (config : Config) (st : State) :
  (0 < page_size config)%nat →
  (∀ page, r_list_answer (remote st) page = ListPage) →
  get_all_transactions (remote st) (page_size config) = Returns (ledger st)
  ∧ _load_existing_ids config st = Some (ids_of_ledger (ledger st), st).
Proof.
  intros Hps Hans.
  pose proof (get_all_transactions_all (remote st) (page_size config) Hps Hans) as Hall.
  split; [exact Hall|].
  unfold _load_existing_ids, bind, get_state, ret. by rewrite Hall.
Qed.

(** Three stored transactions, read in pages of two. *)
Lemma X3_listing_complete_witness :
  get_all_transactions Examples.remote_three 2 = Returns Examples.stored_three
  ∧ _load_existing_ids Examples.config_paged Examples.state_three
    = Some (ids_of_ledger Examples.stored_three, Examples.state_three).
Proof.
  apply (X3_listing_complete Examples.config_paged Examples.state_three).
  - simpl. lia.
  - intros page. reflexivity.
Defined.

(** X4. When the pages before page [k] are answered and page [k] is
    reached, an [APIError] on page [k] makes [get_all_transactions] raise,
    and [_load_existing_ids] then returns the empty set: the ids of the
    pages already read are lost.  A response without ["success"] on page [k]
    ends the listing silently with the transactions of the pages before. *)
Theorem X4_listing_interrupted (config : Config) (st : State) (k : nat) :
  (0 < page_size config)%nat → (1 ≤ k)%nat →
  ((k - 1) * page_size config ≤ length (ledger st))%nat →
  (∀ n, (1 ≤ n < k)%nat → r_list_answer (remote st) n = ListPage) →
  (r_list_answer (remote st) k = ListAPIError →
     get_all_transactions (remote st) (page_size config) = Raises
     ∧ _load_existing_ids config st = Some (∅, st))
  ∧ (r_list_answer (remote st) k = ListFailure →
     get_all_transactions (remote st) (page_size config)
       = Returns (take ((k - 1) * page_size config) (ledger st))
     ∧ _load_existing_ids config st
       = Some (ids_of_ledger (take ((k - 1) * page_size config) (ledger st)), st)).
Proof.
  intros Hps Hk Hlen Hans.
  pose proof (get_all_transactions_interrupted (remote st) (page_size config) k
                Hps Hk Hlen Hans) as Hget.
  split; intros Hak; rewrite Hak in Hget; (split; [exact Hget|]);
    unfold _load_existing_ids, bind, get_state, ret; by rewrite Hget.
Qed.

(** The second page fails: nothing is loaded, although the ledger holds
    four ids. *)
Lemma X4_listing_interrupted_witness :
  get_all_transactions Examples.remote_broken 2 = Raises
  ∧ _load_existing_ids Examples.config_paged Examples.state_broken
    = Some (∅, Examples.state_broken).
Proof.
  apply (X4_listing_interrupted Examples.config_paged Examples.state_broken 2).
  - simpl. lia.
  - lia.
  - simpl. lia.
  - intros n Hn. assert (n = 1%nat) as -> by lia. reflexivity.
  - reflexivity.
Defined.

(** X5. The set of ids read from the ledger does not depend on how the
    ledger orders or pages its transactions: the ids of a concatenation are
    the union of the ids of its parts, and a permutation of the
    transactions gives the same set. *)
Theorem X5_loaded_ids_ignore_order (txs1 txs2 : list Payload) :
  _load_existing_ids_loop (txs1 ++ txs2) ∅
    = _load_existing_ids_loop txs1 ∅ ∪ _load_existing_ids_loop txs2 ∅
  ∧ (txs1 ≡ₚ txs2 → _load_existing_ids_loop txs1 ∅ = _load_existing_ids_loop txs2 ∅).
Proof.
  split; [apply ids_of_ledger_app|apply ids_of_ledger_perm].
Qed.

Lemma X5_loaded_ids_ignore_order_witness :
  _load_existing_ids_loop
    [Samples.stored_with "a [B4ID:t1]"; Samples.stored_with "b [B4ID:t2_t3]"] ∅
  = _load_existing_ids_loop
      [Samples.stored_with "b [B4ID:t2_t3]"; Samples.stored_with "a [B4ID:t1]"] ∅.
Proof.
  apply (X5_loaded_ids_ignore_order
           [Samples.stored_with "a [B4ID:t1]"; Samples.stored_with "b [B4ID:t2_t3]"]
           [Samples.stored_with "b [B4ID:t2_t3]"; Samples.stored_with "a [B4ID:t1]"]).
  apply Permutation_swap.
Defined.

(** X6. Only the first marker of a comment is read, up to its closing
    bracket: when the text before the first ["[B4ID:"] holds no marker and
    the id text holds neither a closing bracket nor a marker, whatever
    follows the closing bracket is ignored, and a marker whose closing
    bracket is missing is read to the end of the comment. *)
Theorem X6_first_marker_only (tx : Payload) (pre i rest : string) :
  str_contains "[B4ID:" pre = false →
  char_in "]" i = false → str_contains "[B4ID:" i = false →
  (p_comment tx = pre +:+ "[B4ID:" +:+ i +:+ "]" +:+ rest →
     _load_existing_ids_loop [tx] ∅ = list_to_set (str_split "_" i))
  ∧ (p_comment tx = pre +:+ "[B4ID:" +:+ i →
     _load_existing_ids_loop [tx] ∅ = list_to_set (str_split "_" i)).
Proof.
  intros Hpre Hb Hi.
  split; intros Hc; change (_load_existing_ids_loop [tx] ∅) with (ids_of_transaction tx);
    rewrite ids_of_transaction_eq, Hc, contains_marker.
  - by rewrite marker_ids_first.
  - by rewrite marker_ids_open.
Qed.

(** A comment that was edited by hand and got a second marker. *)
Lemma X6_first_marker_only_witness :
  _load_existing_ids_loop [Samples.stored_with "pay [B4ID:t1] moved [B4ID:zz]"] ∅ = {["t1"]}.
Proof.
  pose proof (X6_first_marker_only (Samples.stored_with "pay [B4ID:t1] moved [B4ID:zz]")
                "pay " "t1" " moved [B4ID:zz]") as [H _]; [reflexivity..|].
  rewrite H; reflexivity.
Defined.

(** ** The payloads and the counters of a run *)

Section PostingAlgebra.

Variable Q : Payload → Prop.

Lemma posting_refl st : posting Q st st.
Proof.
  exists [], []. rewrite !app_nil_r. split_and!; [done|done|constructor|constructor|simpl; lia|lia].
Qed.

Lemma posting_trans st1 st2 st3 : posting Q st1 st2 → posting Q st2 st3 → posting Q st1 st3.
Proof.
  intros (c1 & s1 & Hc1 & Hl1 & Hs1 & Hq1 & Ht1 & He1) (c2 & s2 & Hc2 & Hl2 & Hs2 & Hq2 & Ht2 & He2).
  exists (c1 ++ c2), (s1 ++ s2). split_and!.
  - by rewrite Hc2, Hc1, app_assoc.
  - by rewrite Hl2, Hl1, app_assoc.
  - by apply sublist_app.
  - by apply Forall_app.
  - rewrite Ht2, Ht1, length_app. lia.
  - rewrite !length_app. lia.
Qed.

(** A step that leaves the remote's transactions and the counters of
    imports and errors alone posts nothing. *)
Lemma posting_silent st st' :
  r_tx_calls (remote st') = r_tx_calls (remote st) →
  ledger st' = ledger st →
  total_imported (stats st') = total_imported (stats st) →
  (errors (stats st) ≤ errors (stats st'))%nat →
  posting Q st st'.
Proof.
  intros Hc Hl Ht He. exists [], []. rewrite !app_nil_r.
  split_and!; [done|done|constructor|constructor|simpl; lia|simpl; lia].
Qed.

Lemma posting_step st st' : category_step st st' → posting Q st st'.
Proof.
  intros (_ & Hl & Hc & _ & _ & _ & _ & _ & _ & Ht1 & Ht2 & He).
  apply posting_silent; [done|done| |lia].
  unfold total_imported. by rewrite Ht1, Ht2.
Qed.

Lemma posting_posted p b count st st' :
  Q p → (b = true ↔ next_tx_answer st = TxSuccess) →
  (∀ s, total_imported (count s) = S (total_imported s)) →
  (∀ s, errors (count s) = errors s) →
  remote st' = remote (posted p st) →
  stats st' = (if b then count (stats st) else increment_errors (stats st)) →
  posting Q st st'.
Proof.
  intros Hq Hb Hcount Herr Hr Hs. exists [p]. unfold ledger. rewrite Hr, Hs.
  fold (ledger (posted p st)). rewrite ledger_posted.
  destruct b.
  - pose proof (proj1 Hb eq_refl) as Hans. exists [p]. rewrite Hans.
    split_and!; [done|done|done|by constructor| |].
    + rewrite Hcount. simpl. lia.
    + rewrite Herr. simpl. lia.
  - exists []. rewrite app_nil_r.
    assert (next_tx_answer st ≠ TxSuccess) as Hans by (intros H; by apply Hb in H).
    split_and!; [done| |apply sublist_nil_l|by constructor|unfold total_imported; simpl; lia|simpl; lia].
    by destruct (next_tx_answer st).
Qed.

End PostingAlgebra.

Section PostingFacts.

Variable strptime : string → option Z.
Variable strftime : Z → string.
Variable py_float : string → option float.
Variable timestamp : Z → option Z.
Variable utc_offset : Z.
Variable config : Config.
Variable _account_map : gmap string string.

Local Abbreviation create_payload := (_create_transaction_payload timestamp utc_offset).
Local Abbreviation import_single := (_import_single_transaction timestamp utc_offset).
Local Abbreviation import_pair := (_import_transfer_pair timestamp utc_offset _account_map).
Local Abbreviation import_unmatched :=
  (_import_unmatched_transfer timestamp utc_offset _account_map).
Local Abbreviation pairs_loop := (_import_pairs_loop timestamp utc_offset _account_map).
Local Abbreviation unmatched_loop :=
  (_import_unmatched_loop timestamp utc_offset _account_map).
Local Abbreviation import_transfers :=
  (_import_transfers timestamp utc_offset config _account_map).
Local Abbreviation file_loop :=
  (_import_file_loop strptime strftime py_float timestamp utc_offset config).
Local Abbreviation files_loop :=
  (_import_files_loop strptime strftime py_float timestamp utc_offset config _account_map).
Local Abbreviation import_transactions :=
  (_import_transactions strptime strftime py_float timestamp utc_offset config _account_map).
Local Abbreviation run :=
  (run_import strptime strftime py_float timestamp utc_offset config _account_map).

(** *** The payloads of the three import functions *)

Lemma create_payload_fields acc_id amount booking_date description category_id
    transaction_type b4_id partner_acc_id st p st' :
  create_payload acc_id amount booking_date description category_id transaction_type
    b4_id partner_acc_id st = Some (p, st') →
  st' = st
  ∧ p_comment p = marker_comment description b4_id
  ∧ p_type p = TransactionType_value transaction_type
  ∧ timestamp booking_date = Some (p_time p)
  ∧ p_sourceAccountId p = str_of_opt acc_id
  ∧ p_destinationAccountId p
    = match transaction_type with TRANSFER => Some (str_of_opt partner_acc_id) | _ => None end
  ∧ p_destinationAmount p
    = match transaction_type with TRANSFER => Some (p_sourceAmount p) | _ => None end
  ∧ p_categoryId p
    = match transaction_type with
      | TRANSFER =>
          if String.eqb (_transfer_category_id (category_service st)) "0" then category_id
          else _transfer_category_id (category_service st)
      | _ => category_id
      end.
Proof.
  unfold _create_transaction_payload.
  destruct (py_round _) as [amt_cents|]; [|done].
  unfold bind, get_state.
  destruct (timestamp booking_date) as [time|]; [|done].
  unfold ret. intros [= <- <-].
  destruct transaction_type; simpl; split_and!; try done.
  by destruct (String.eqb _ _).
Qed.

Lemma marker_comment_contains (description b4_id : string) :
  str_contains "[B4ID:" (marker_comment description b4_id) = true.
Proof.
  unfold marker_comment.
  change (str_take 200 description +:+ " [B4ID:" +:+ b4_id +:+ "]")
    with (str_take 200 description +:+ " " +:+ "[B4ID:" +:+ b4_id +:+ "]").
  rewrite <- append_assoc. apply contains_marker.
Qed.

Lemma import_single_payload tx acc_id st b st' :
  import_single tx acc_id st = Some (b, st') →
  ∃ cat_id st1 p,
    category_step st st1
    ∧ create_payload acc_id (amount tx) (booking_date tx) (description tx) cat_id
        (transaction_type tx) (id tx) (Some "0") st1 = Some (p, st1)
    ∧ (b = true ↔ next_tx_answer st1 = TxSuccess)
    ∧ st' = after_import {[id tx]} increment_transactions p b st1.
Proof.
  unfold _import_single_transaction. rewrite bind_eq.
  destruct (ensure_category_hierarchy_step (category tx)
              (TransactionType_value (transaction_type tx)) st)
    as (cat_id & st1 & -> & Hstep).
  rewrite bind_eq.
  destruct (create_payload _ _ _ _ _ _ _ _ st1) as [[p st2]|] eqn:Hp; [|done].
  pose proof (create_payload_fields _ _ _ _ _ _ _ _ _ _ _ Hp) as (-> & _).
  rewrite bind_eq, call_create_transaction.
  intros H. exists cat_id, st1, p. split_and!; try done;
    destruct (next_tx_answer st1); injection H as <- <-; done.
Qed.

Lemma import_pair_payload pair st b st' :
  import_pair pair st = Some (b, st') →
  ∃ p,
    create_payload (_account_map !! account_id (sender pair)) (pair_amount pair)
      (pair_date pair) ("Transfer: " +:+ str_take 100 (description (sender pair)))
      (_transfer_category_id (category_service st)) TRANSFER (combined_id pair)
      (_account_map !! account_id (receiver pair)) st = Some (p, st)
    ∧ (b = true ↔ next_tx_answer st = TxSuccess)
    ∧ st' = after_import {[id (source_tx pair); id (dest_tx pair)]} increment_transfers p b st.
Proof.
  unfold _import_transfer_pair. rewrite bind_eq. unfold get_state at 1.
  rewrite bind_eq. unfold get_ezb_account_id.
  destruct (create_payload _ _ _ _ _ _ _ _ st) as [[p st2]|] eqn:Hp; [|done].
  pose proof (create_payload_fields _ _ _ _ _ _ _ _ _ _ _ Hp) as (-> & _).
  rewrite bind_eq, call_create_transaction.
  intros H. exists p. split_and!; try done;
    destruct (next_tx_answer st); injection H as <- <-; done.
Qed.

Lemma import_unmatched_payload tx st b st' :
  import_unmatched tx st = Some (b, st') →
  ∃ p,
    create_payload (_account_map !! account_id tx) (amount tx) (booking_date tx)
      ("[Extern] " +:+ description tx)
      (get_external_transfer_category (category_service st) (is_income tx))
      (transaction_type tx) (id tx) (Some "0") st = Some (p, st)
    ∧ (b = true ↔ next_tx_answer st = TxSuccess)
    ∧ st' = counted (if b then increment_transactions else increment_errors) (posted p st).
Proof.
  unfold _import_unmatched_transfer. rewrite bind_eq. unfold get_state at 1.
  rewrite bind_eq. unfold get_ezb_account_id.
  destruct (create_payload _ _ _ _ _ _ _ _ st) as [[p st2]|] eqn:Hp; [|done].
  pose proof (create_payload_fields _ _ _ _ _ _ _ _ _ _ _ Hp) as (-> & _).
  rewrite bind_eq, call_create_transaction.
  intros H. exists p. split_and!; try done;
    destruct (next_tx_answer st); injection H as <- <-; done.
Qed.


(** *** The three import functions post addressed payloads *)

Local Abbreviation mapped := (λ t : B4Transaction, is_Some (_account_map !! account_id t)).
Local Abbreviation posts := (posting (addressed _account_map)).

Lemma import_single_posting tx k a st b st' :
  _account_map !! k = Some a →
  import_single tx (Some a) st = Some (b, st') → posts st st'.
Proof.
  intros Hk (cat_id & st1 & p & Hstep & Hp & Hb & ->)%import_single_payload.
  apply create_payload_fields in Hp as (_ & Hc & _ & _ & Hsrc & Hdst & _).
  eapply posting_trans; [by apply posting_step|].
  eapply (posting_posted _ p b increment_transactions); try done.
  - split_and!.
    + rewrite Hc. apply marker_comment_contains.
    + exists k. by rewrite Hsrc.
    + intros d. rewrite Hdst. destruct (transaction_type tx); [done|done|]. intros [= <-]. by left.
  - by destruct b.
  - by destruct b.
Qed.


Lemma import_pair_posting pair st b st' :
  mapped (source_tx pair) → mapped (dest_tx pair) →
  import_pair pair st = Some (b, st') → posts st st'.
Proof.
  intros Hs Hd (p & Hp & Hb & ->)%import_pair_payload.
  apply create_payload_fields in Hp as (_ & Hc & _ & _ & Hsrc & Hdst & _).
  assert (mapped (sender pair) ∧ mapped (receiver pair)) as [[a Ha] [c Hc']].
  { unfold sender, receiver. by destruct (Direction_eqb _ _), (Direction_eqb _ _). }
  rewrite Ha in Hsrc. rewrite Hc' in Hdst.
  eapply (posting_posted _ p b increment_transfers); try done.
  - split_and!.
    + rewrite Hc. apply marker_comment_contains.
    + exists (account_id (sender pair)). by rewrite Hsrc.
    + intros d. rewrite Hdst. intros [= <-]. right.
      by exists (account_id (receiver pair)).
  - intros s. unfold total_imported. simpl. lia.
  - by destruct b.
  - by destruct b.
Qed.

Lemma import_unmatched_posting tx st b st' :
  mapped tx → import_unmatched tx st = Some (b, st') → posts st st'.
Proof.
  intros [a Ha] (p & Hp & Hb & ->)%import_unmatched_payload.
  apply create_payload_fields in Hp as (_ & Hc & _ & _ & Hsrc & Hdst & _).
  rewrite Ha in Hsrc.
  eapply (posting_posted _ p b increment_transactions); try done.
  - split_and!.
    + rewrite Hc. apply marker_comment_contains.
    + exists (account_id tx). by rewrite Hsrc.
    + intros d. rewrite Hdst. destruct (transaction_type tx); [done|done|].
      intros [= <-]. by left.
  - by destruct b.
Qed.

Lemma pairs_loop_posting ps st st' :
  (∀ p, p ∈ ps → mapped (source_tx p) ∧ mapped (dest_tx p)) →
  pairs_loop ps st = Some (tt, st') → posts st st'.
Proof.
  revert st. induction ps as [|p ps IH]; intros st Hm Hrun.
  - injection Hrun as <-. apply posting_refl.
  - simpl in Hrun. rewrite bind_eq in Hrun.
    destruct (import_pair p st) as [[b st1]|] eqn:Hp; [|done].
    destruct (Hm p) as [Hs Hd]; [set_solver|].
    eapply posting_trans; [exact (import_pair_posting _ _ _ _ Hs Hd Hp)|].
    apply IH; [|done]. intros q Hq. apply Hm. set_solver.
Qed.

Lemma unmatched_loop_posting us st st' :
  (∀ u, u ∈ us → mapped u) →
  unmatched_loop us st = Some (tt, st') → posts st st'.
Proof.
  revert st. induction us as [|u us IH]; intros st Hm Hrun.
  - injection Hrun as <-. apply posting_refl.
  - simpl in Hrun. rewrite bind_eq in Hrun.
    destruct (import_unmatched u st) as [[b st1]|] eqn:Hu; [|done].
    eapply posting_trans; [apply (import_unmatched_posting u st b st1); [|done]|].
    { apply Hm. set_solver. }
    apply IH; [|done]. intros q Hq. apply Hm. set_solver.
Qed.

Lemma import_transfers_posting transfers st st' :
  (∀ t, t ∈ transfers → mapped t) →
  import_transfers transfers st = Some (tt, st') → posts st st'.
Proof.
  intros Hm Hrun. unfold _import_transfers in Hrun.
  rewrite bind_eq in Hrun. unfold get_state at 1 in Hrun.
  destruct (find_matches _ transfers (existing_ids st)) as [ps us] eqn:Hfm.
  rewrite bind_eq in Hrun.
  destruct (pairs_loop ps st) as [[[] st1]|] eqn:Hps; [|done].
  destruct (find_matches_covers _ _ _ _ _ Hfm) as (_ & Hpin & Huin).
  eapply posting_trans.
  - eapply pairs_loop_posting; [|exact Hps].
    intros p Hp. destruct (Hpin p Hp). split; by apply Hm.
  - eapply unmatched_loop_posting; [|exact Hrun]. intros u Hu. by apply Hm, Huin.
Qed.

Lemma file_loop_posting b4_acc_id a entries all_transfers st all_transfers' st' :
  _account_map !! b4_acc_id = Some a →
  file_loop b4_acc_id (Some a) entries all_transfers st = Some (all_transfers', st') →
  posts st st'
  ∧ ∃ new, all_transfers' = all_transfers ++ new ∧ ∀ t, t ∈ new → account_id t = b4_acc_id.
Proof.
  intros Ha. revert all_transfers st.
  induction entries as [|data rest IH]; intros ts st Hrun.
  { injection Hrun as <- <-. split; [apply posting_refl|].
    exists []. split; [by rewrite app_nil_r|by intros ? ?%elem_of_nil]. }
  rewrite file_loop_cons in Hrun.
  destruct (opt_str_neqb (BookgSts data) "BOOK"); [by apply IH|].
  destruct (from_json strptime py_float data b4_acc_id) as [tx|] eqn:Htx.
  2: { destruct (IH _ _ Hrun) as [Hpost Hnew]. split; [|done].
       eapply posting_trans; [|exact Hpost].
       apply posting_silent; [done|done|done|simpl; lia]. }
  destruct (String.ltb _ _); [by apply IH|].
  destruct (bool_decide (id tx ∈ existing_ids st)).
  { destruct (IH _ _ Hrun) as [Hpost Hnew]. split; [|done].
    eapply posting_trans; [|exact Hpost].
    apply posting_silent; [done|done|done|simpl; lia]. }
  destruct (is_transfer tx).
  { destruct (IH _ _ Hrun) as [Hpost (new & -> & Hnew)]. split; [done|].
    exists (tx :: new). split; [by rewrite <- app_assoc|].
    intros t [->|?]%elem_of_cons; [|by auto].
    apply from_json_Some in Htx as (?&?&?&?&?&?&?&?&?&_&_&_&_&_&_&_&_&_&->). done. }
  destruct (import_single tx (Some a) st) as [[b st1]|] eqn:Hsingle; [|done].
  destruct (IH _ _ Hrun) as [Hpost Hnew]. split; [|done].
  eapply posting_trans; [|exact Hpost]. by eapply import_single_posting.
Qed.

Lemma files_loop_posting files all_transfers st all_transfers' st' :
  files_loop files all_transfers st = Some (all_transfers', st') →
  posts st st'
  ∧ ∃ new, all_transfers' = all_transfers ++ new ∧ ∀ t, t ∈ new → mapped t.
Proof.
  revert all_transfers st.
  induction files as [|[b4 entries] files IH]; intros ts st Hrun.
  { injection Hrun as <- <-. split; [apply posting_refl|].
    exists []. split; [by rewrite app_nil_r|by intros ? ?%elem_of_nil]. }
  rewrite files_loop_cons in Hrun.
  destruct (has_account _account_map b4) eqn:Hacc; simpl negb in Hrun; cbv iota in Hrun;
    [|by apply IH].
  unfold has_account in Hacc. apply bool_decide_eq_true, elem_of_dom in Hacc as [a Ha].
  unfold get_ezb_account_id in Hrun. rewrite Ha in Hrun.
  destruct (file_loop b4 _ entries ts st) as [[ts1 st1]|] eqn:Hfile; [|done].
  destruct (file_loop_posting _ _ _ _ _ _ _ Ha Hfile) as [Hp1 (new1 & -> & Hnew1)].
  destruct (IH _ _ Hrun) as [Hp2 (new & -> & Hnew)].
  split; [by eapply posting_trans|].
  exists (new1 ++ new). split; [by rewrite app_assoc|].
  intros t [Ht|Ht]%elem_of_app; [|by auto].
  rewrite (Hnew1 t Ht). by exists a.
Qed.

Lemma run_import_posting st0 s1 st1 :
  run st0 = Some (s1, st1) → posts st0 st1 ∧ s1 = stats st1.
Proof.
  rewrite run_import_eq.
  destruct (load_existing_ids_spec strptime strftime py_float timestamp utc_offset config st0)
    as (ids & -> & _).
  destruct (import_transactions _) as [[all_transfers st2]|] eqn:Himp; [|done].
  destruct (import_transfers all_transfers st2) as [[[] st3]|] eqn:Htr; [|done].
  intros [= <- <-]. split; [|done].
  unfold _import_transactions in Himp.
  apply files_loop_posting in Himp as [Hp1 (new & -> & Hnew)].
  eapply posting_trans; [|eapply posting_trans; [exact Hp1|]].
  - by apply posting_silent.
  - eapply import_transfers_posting; [|exact Htr]. intros t Ht. apply Hnew. set_solver.
Qed.

End PostingFacts.

Section PostingExtras.

Variable strptime : string → option Z.
Variable strftime : Z → string.
Variable py_float : string → option float.
Variable timestamp : Z → option Z.
Variable utc_offset : Z.
Variable config : Config.
Variable _account_map : gmap string string.

Local Abbreviation import_pair := (_import_transfer_pair timestamp utc_offset _account_map).
Local Abbreviation import_unmatched :=
  (_import_unmatched_transfer timestamp utc_offset _account_map).
Local Abbreviation run :=
  (run_import strptime strftime py_float timestamp utc_offset config _account_map).

(** X7. [_import_unmatched_transfer] posts a record of category
    "Umbuchung" as a transfer: the payload has type 4, the destination
    account "0" and a destination amount equal to the source amount; its
    category is the internal transfer category whenever one is loaded, and
    the external transfer category of the record's direction only when
    [transfer_category_id] is "0". *)
Theorem X7_unmatched_transfer_payload (tx : B4Transaction) (st : State) (b : bool)
    (st' : State) :
  is_transfer tx = true →
  import_unmatched tx st = Some (b, st') →
  ∃ p, r_tx_calls (remote st') = r_tx_calls (remote st) ++ [p]
       ∧ p_type p = 4
       ∧ p_sourceAccountId p = str_of_opt (_account_map !! account_id tx)
       ∧ p_destinationAccountId p = Some "0"
       ∧ p_destinationAmount p = Some (p_sourceAmount p)
       ∧ p_categoryId p
         = if String.eqb (_transfer_category_id (category_service st)) "0"
           then get_external_transfer_category (category_service st) (is_income tx)
           else _transfer_category_id (category_service st).
Proof.
  intros Htr (p & Hp & _ & ->)%import_unmatched_payload.
  apply create_payload_fields in Hp as (_ & _ & Hty & _ & Hsrc & Hdst & Hamt & Hcat).
  unfold transaction_type in *. rewrite Htr in *.
  exists p. by split_and!.
Qed.

(** X8. [_import_transfer_pair] posts a matching pair as one transfer from
    the account of the debit record to the account of the credit record,
    whichever of them is [source_tx]: type 4, the ezbookkeeping ids that the
    account map gives the two accounts, the timestamp of the earlier booking
    date, the internal transfer category, and equal source and destination
    amounts. *)
Theorem X8_transfer_pair_payload (tol : Z) (pair : TransferPair) (st : State) (b : bool)
    (st' : State) :
  _is_match tol (source_tx pair) (dest_tx pair) = true →
  import_pair pair st = Some (b, st') →
  ∃ p debit credit,
    r_tx_calls (remote st') = r_tx_calls (remote st) ++ [p]
    ∧ (debit, credit)
      = match direction (source_tx pair) with
        | DEBIT => (source_tx pair, dest_tx pair)
        | CREDIT => (dest_tx pair, source_tx pair)
        end
    ∧ direction debit = DEBIT ∧ direction credit = CREDIT
    ∧ p_type p = 4
    ∧ p_sourceAccountId p = str_of_opt (_account_map !! account_id debit)
    ∧ p_destinationAccountId p = Some (str_of_opt (_account_map !! account_id credit))
    ∧ timestamp (Z.min (booking_date debit) (booking_date credit)) = Some (p_time p)
    ∧ p_categoryId p = _transfer_category_id (category_service st)
    ∧ p_destinationAmount p = Some (p_sourceAmount p).
Proof.
  intros (Hd & Hc & _ & Hroles & _)%matched_pair_roles (p & Hp & _ & ->)%import_pair_payload.
  apply create_payload_fields in Hp as (_ & _ & Hty & Htime & Hsrc & Hdst & Hamt & Hcat).
  exists p, (sender pair), (receiver pair). split_and!; try done.
  - by destruct b.
  - rewrite <- Htime. f_equal. unfold pair_date.
    destruct (direction (source_tx pair)); injection Hroles as -> ->; lia.
  - rewrite Hcat. by destruct (String.eqb _ _) eqn:?.
Qed.

Lemma sublist_full {A} (l1 l2 : list A) :
  sublist l1 l2 → (length l2 ≤ length l1)%nat → l1 = l2.
Proof.
  induction 1 as [|x l1 l2 H IH|x l1 l2 H IH]; simpl; intros Hl;
    [done|f_equal; apply IH; lia|].
  apply sublist_length in H. lia.
Qed.

(** X9. A run of [run_import] that returns only appends to the ledger, and
    its statistics account for every payload it posted: the payloads the
    ledger stored are some of the posted ones, in order; [total_imported]
    grows by exactly the number of stored payloads; and every posted payload
    that was not stored is counted as an error.  A run that counts no error
    has stored everything it posted. *)
Theorem X9_run_counts (st0 : State) (s1 : ImportStats) (st1 : State) :
  run st0 = Some (s1, st1) →
  ∃ calls stored,
    r_tx_calls (remote st1) = r_tx_calls (remote st0) ++ calls
    ∧ ledger st1 = ledger st0 ++ stored
    ∧ sublist stored calls
    ∧ total_imported s1 = (total_imported (stats st0) + length stored)%nat
    ∧ (length calls + errors (stats st0) ≤ length stored + errors s1)%nat
    ∧ (errors s1 = errors (stats st0) → stored = calls).
Proof.
  intros [(calls & stored & Hc & Hl & Hsub & _ & Ht & He) ->]%run_import_posting.
  exists calls, stored. split_and!; try done.
  intros Herr. apply sublist_full; [done|lia].
Qed.

(** X10. Every payload that a run of [run_import] posts carries a marker
    in its comment and is booked on the ezbookkeeping id of a mapped
    account; a destination account, if the payload has one, is "0" or the
    id of a mapped account.  Records reach the import functions only from
    files whose account is mapped, so the lookup of an account id never
    comes back empty during a run. *)
Theorem X10_run_addresses (st0 : State) (s1 : ImportStats) (st1 : State) :
  run st0 = Some (s1, st1) →
  ∃ calls,
    r_tx_calls (remote st1) = r_tx_calls (remote st0) ++ calls
    ∧ Forall (addressed _account_map) calls.
Proof.
  intros [(calls & stored & Hc & _ & _ & Hq & _) _]%run_import_posting. eauto.
Qed.

End PostingExtras.

(** The unmatched debit of the end-to-end scenario. *)
Lemma X7_unmatched_transfer_payload_witness :
  ∃ p st',
    _import_unmatched_transfer Samples.sample_timestamp 60 Samples.accounts
      Samples.tx_transfer Samples.state_accepting = Some (true, st')
    ∧ r_tx_calls (remote st') = [p]
    ∧ p_type p = 4
    ∧ p_sourceAccountId p = "acc-1"
    ∧ p_destinationAccountId p = Some "0".
Proof.
  destruct (_import_unmatched_transfer Samples.sample_timestamp 60 Samples.accounts
              Samples.tx_transfer Samples.state_accepting) as [[b st']|] eqn:Hrun;
    [|discriminate (eq_sym Hrun)].
  assert (b = true) as -> by (vm_compute in Hrun; by injection Hrun as <- _).
  destruct (X7_unmatched_transfer_payload Samples.sample_timestamp 60 Samples.accounts
              Samples.tx_transfer Samples.state_accepting true st' eq_refl Hrun)
    as (p & Hcalls & Hty & Hsrc & Hdst & _).
  exists p, st'. split_and!; [reflexivity|exact Hcalls|exact Hty|exact Hsrc|exact Hdst].
Defined.

(** The credit is [source_tx]: the transfer still goes from the debit's
    account to the credit's. *)
Lemma X8_transfer_pair_payload_witness :
  ∃ p st',
    _import_transfer_pair Samples.sample_timestamp 60 Examples.accounts_two
      (mkPair Samples.tx_credit_3_days Samples.tx_debit) Samples.state_accepting
    = Some (true, st')
    ∧ r_tx_calls (remote st') = [p]
    ∧ p_sourceAccountId p = "e1"
    ∧ p_destinationAccountId p = Some "e2".
Proof.
  destruct (_import_transfer_pair Samples.sample_timestamp 60 Examples.accounts_two
              (mkPair Samples.tx_credit_3_days Samples.tx_debit) Samples.state_accepting)
    as [[b st']|] eqn:Hrun; [|discriminate (eq_sym Hrun)].
  assert (b = true) as -> by (vm_compute in Hrun; by injection Hrun as <- _).
  destruct (X8_transfer_pair_payload Samples.sample_timestamp 60 Examples.accounts_two 3
              (mkPair Samples.tx_credit_3_days Samples.tx_debit) Samples.state_accepting
              true st' eq_refl Hrun)
    as (p & debit & credit & Hcalls & Hroles & _ & _ & _ & Hsrc & Hdst & _).
  injection Hroles as -> ->.
  exists p, st'. split_and!; [reflexivity|exact Hcalls|exact Hsrc|exact Hdst].
Defined.

(** The end-to-end scenario: two payloads posted, both stored, both
    counted. *)
Lemma X9_run_counts_witness :
  ∃ s1 st1 calls,
    run_import Samples.sample_strptime Samples.sample_strftime Samples.sample_float
      Samples.sample_timestamp 60 Samples.config_scenario Samples.accounts
      Samples.state_accepting = Some (s1, st1)
    ∧ r_tx_calls (remote st1) = calls
    ∧ ledger st1 = calls
    ∧ total_imported s1 = length calls.
Proof.
  destruct (run_import Samples.sample_strptime Samples.sample_strftime Samples.sample_float
              Samples.sample_timestamp 60 Samples.config_scenario Samples.accounts
              Samples.state_accepting) as [[s1 st1]|] eqn:Hrun;
    [|discriminate (eq_sym Hrun)].
  assert (errors s1 = 0%nat) as He.
  { vm_compute in Hrun. by injection Hrun as <- _. }
  destruct (X9_run_counts Samples.sample_strptime Samples.sample_strftime
              Samples.sample_float Samples.sample_timestamp 60 Samples.config_scenario
              Samples.accounts Samples.state_accepting s1 st1 Hrun)
    as (calls & stored & Hc & Hl & _ & Ht & _ & Hall).
  rewrite (Hall He) in Hl, Ht.
  exists s1, st1, calls. split_and!; [reflexivity|exact Hc|exact Hl|exact Ht].
Defined.

Lemma X10_run_addresses_witness :
  ∃ s1 st1,
    run_import Samples.sample_strptime Samples.sample_strftime Samples.sample_float
      Samples.sample_timestamp 60 Samples.config_scenario Samples.accounts
      Samples.state_accepting = Some (s1, st1)
    ∧ Forall (addressed Samples.accounts) (r_tx_calls (remote st1)).
Proof.
  destruct (run_import Samples.sample_strptime Samples.sample_strftime Samples.sample_float
              Samples.sample_timestamp 60 Samples.config_scenario Samples.accounts
              Samples.state_accepting) as [[s1 st1]|] eqn:Hrun;
    [|discriminate (eq_sym Hrun)].
  destruct (X10_run_addresses Samples.sample_strptime Samples.sample_strftime
              Samples.sample_float Samples.sample_timestamp 60 Samples.config_scenario
              Samples.accounts Samples.state_accepting s1 st1 Hrun)
    as (calls & Hc & Hq).
  exists s1, st1. split; [reflexivity|]. rewrite Hc. exact Hq.
Defined.

(** ** The account map *)

Section FindFacts.

Lemma length_append (a b : string) :
  String.length (a +:+ b) = (String.length a + String.length b)%nat.
Proof. induction a as [|x a IH]; [done|]. rewrite append_cons. simpl. by rewrite IH. Qed.

Lemma str_drop_append (a b : string) : str_drop (String.length a) (a +:+ b) = b.
Proof. induction a as [|x a IH]; [by destruct b|]. by rewrite append_cons. Qed.

Lemma str_take_append (a b : string) : str_take (String.length a) (a +:+ b) = a.
Proof.
  induction a as [|x a IH]; [by destruct b|]. rewrite append_cons. simpl. by rewrite IH.
Qed.

Lemma str_find_eq (sub s : string) :
  str_find sub s =
  if String.prefix sub s then 0
  else match s with
       | EmptyString => -1
       | String _ s' => let i := str_find sub s' in if i <? 0 then -1 else i + 1
       end.
Proof. by destruct s. Qed.

(** [find] returns the index of the first occurrence. *)
Lemma str_find_first (sep a b : string) :
  occurs_within sep a (sep +:+ b) = false →
  str_find sep (a +:+ sep +:+ b) = Z.of_nat (String.length a).
Proof.
  induction a as [|x a IH]; intros Ha.
  - rewrite append_nil_l, str_find_eq. by rewrite prefix_append.
  - cbn [occurs_within] in Ha. apply orb_false_iff in Ha as [Hp Ha].
    rewrite append_cons in *. cbn [str_find]. rewrite Hp, (IH Ha).
    cbn [String.length]. rewrite (proj2 (Z.ltb_ge _ _)) by lia. lia.
Qed.

(** [find] returns -1 when there is no occurrence. *)
Lemma str_find_none (sep s : string) :
  str_contains sep s = false → str_find sep s = -1.
Proof.
  induction s as [|x s IH].
  - simpl. by destruct sep.
  - rewrite contains_cons. intros [Hp Hs]%orb_false_iff.
    cbn [str_find]. by rewrite Hp, (IH Hs).
Qed.

End FindFacts.

Section AccountFacts.

Import AccountModel.

Lemma from_api_response_marked (data : AccountData) (pre i post : string) :
  d_comment data = Some (pre +:+ "[B4AccID:" +:+ i +:+ "]" +:+ post) →
  str_contains "[B4AccID:" pre = false → char_in "]" i = false →
  b4_account_id (from_api_response data) = if String.eqb i "" then None else Some i.
Proof.
  intros Hc Hpre Hi. unfold from_api_response. rewrite Hc. cbn [from_option b4_account_id]. unfold Datatypes.id.
  rewrite contains_marker.
  rewrite str_find_first by (by apply occurs_within_head).
  unfold str_find_from, str_slice.
  set (n := String.length pre).
  assert (Z.to_nat (Z.of_nat n + 9) = String.length (pre +:+ "[B4AccID:")) as Hn.
  { rewrite length_append. fold n. simpl. lia. }
  rewrite Hn.
  rewrite <- (append_assoc pre "[B4AccID:").
  rewrite str_drop_append.
  assert (Z.of_nat (String.length ((pre +:+ "[B4AccID:") +:+ i +:+ "]" +:+ post))
          <? Z.of_nat n + 9 = false) as ->.
  { apply Z.ltb_ge. rewrite !length_append. fold n. simpl. lia. }
  rewrite str_find_first by (by apply occurs_within_single).
  cbv zeta.
  assert (Z.of_nat (String.length i) <? 0 = false) as -> by (apply Z.ltb_ge; lia).
  replace (Z.of_nat n + 9 + Z.of_nat (String.length i) - (Z.of_nat n + 9))
    with (Z.of_nat (String.length i)) by lia.
  rewrite Nat2Z.id, str_take_append.
  destruct i as [|x i].
  { simpl String.length. by rewrite (proj2 (Z.ltb_ge _ _)) by lia. }
  rewrite (proj2 (Z.ltb_lt _ _)); [done|]. simpl String.length. lia.
Qed.

Lemma from_api_response_open (data : AccountData) (pre rest : string) :
  d_comment data = Some (pre +:+ "[B4AccID:" +:+ rest) →
  str_contains "[B4AccID:" pre = false → char_in "]" rest = false →
  b4_account_id (from_api_response data) = None.
Proof.
  intros Hc Hpre Hr. unfold from_api_response. rewrite Hc. cbn [from_option b4_account_id]. unfold Datatypes.id.
  rewrite contains_marker.
  rewrite str_find_first by (by apply occurs_within_head).
  unfold str_find_from.
  set (n := String.length pre).
  assert (Z.to_nat (Z.of_nat n + 9) = String.length (pre +:+ "[B4AccID:")) as Hn.
  { rewrite length_append. fold n. simpl. lia. }
  rewrite Hn.
  rewrite <- (append_assoc pre "[B4AccID:").
  rewrite str_drop_append.
  assert (Z.of_nat (String.length ((pre +:+ "[B4AccID:") +:+ rest))
          <? Z.of_nat n + 9 = false) as ->.
  { apply Z.ltb_ge. rewrite !length_append. fold n. simpl. lia. }
  rewrite str_find_none by (by rewrite contains_single).
  cbv zeta. change (-1 <? 0) with true. cbv iota.
  assert (Z.of_nat n + 9 <? -1 = false) as -> by (apply Z.ltb_ge; lia). done.
Qed.

Lemma from_api_response_plain (data : AccountData) :
  str_contains "[B4AccID:" (default "" (d_comment data)) = false →
  b4_account_id (from_api_response data) = None.
Proof. intros H. unfold from_api_response. by rewrite H. Qed.

End AccountFacts.

Section AccountMapFacts.

Import AccountModel.

Local Abbreviation marker_of := (λ a : AccountData, b4_account_id (from_api_response a)).

Lemma load_account_map_loop_app l1 l2 m :
  load_account_map_loop (l1 ++ l2) m = load_account_map_loop l2 (load_account_map_loop l1 m).
Proof.
  revert m. induction l1 as [|a l1 IH]; intros m; [done|].
  cbn [load_account_map_loop app].
  destruct (b4_account_id (from_api_response a)) as [b|]; [|apply IH].
  destruct (String.eqb b ""); apply IH.
Qed.

Lemma load_account_map_loop_keep l m b :
  (∀ a, a ∈ l → marker_of a ≠ Some b) →
  load_account_map_loop l m !! b = m !! b.
Proof.
  revert m. induction l as [|a l IH]; intros m Hl; [done|]. cbn [load_account_map_loop].
  assert (∀ a', a' ∈ l → marker_of a' ≠ Some b) as Hl' by (intros; apply Hl; set_solver).
  destruct (b4_account_id (from_api_response a)) as [c|] eqn:Hc; [|by apply IH].
  destruct (String.eqb c ""); [by apply IH|].
  rewrite IH by done. apply lookup_insert_ne. intros ->. by apply (Hl a); [set_solver|].
Qed.

Lemma load_account_map_loop_dom l m b :
  b ∈ dom (load_account_map_loop l m)
  ↔ b ∈ dom m ∨ ∃ a, a ∈ l ∧ marker_of a = Some b ∧ b ≠ "".
Proof.
  revert m. induction l as [|a l IH]; intros m; cbn [load_account_map_loop].
  { split; [auto|]. intros [?|(a & Ha & _)]; [done|by apply elem_of_nil in Ha]. }
  destruct (b4_account_id (from_api_response a)) as [c|] eqn:Hc.
  - destruct (String.eqb c "") eqn:Hne.
    + apply String.eqb_eq in Hne as ->. rewrite IH. split.
      * intros [?|(a' & Ha' & ?)]; [auto|]. right. exists a'. split; [set_solver|done].
      * intros [?|(a' & [->|Ha']%elem_of_cons & Hm & Hb)]; [auto| |].
        -- rewrite Hc in Hm. by injection Hm as <-.
        -- right. eauto.
    + apply String.eqb_neq in Hne. rewrite IH, dom_insert, elem_of_union, elem_of_singleton.
      split.
      * intros [[->|?]|(a' & Ha' & ?)]; [|auto|].
        -- right. exists a. split; [set_solver|done].
        -- right. exists a'. split; [set_solver|done].
      * intros [?|(a' & [->|Ha']%elem_of_cons & Hm & Hb)]; [auto| |].
        -- rewrite Hc in Hm. injection Hm as <-. auto.
        -- right. eauto.
  - rewrite IH. split.
    + intros [?|(a' & Ha' & ?)]; [auto|]. right. exists a'. split; [set_solver|done].
    + intros [?|(a' & [->|Ha']%elem_of_cons & Hm & Hb)]; [auto| |].
      * by rewrite Hc in Hm.
      * right. eauto.
Qed.

Lemma load_account_map_loop_last l1 a l2 b :
  marker_of a = Some b → b ≠ "" →
  (∀ a', a' ∈ l2 → marker_of a' ≠ Some b) →
  load_account_map_loop (l1 ++ a :: l2) ∅ !! b = Some (d_id a).
Proof.
  intros Ha Hb Hl2. rewrite load_account_map_loop_app. cbn [load_account_map_loop].
  rewrite Ha. apply String.eqb_neq in Hb. rewrite Hb.
  rewrite load_account_map_loop_keep by done. apply lookup_insert_eq.
Qed.

End AccountMapFacts.

(** X11. [Account.from_api_response] reads the Banking4 account id back
    from a comment that carries the marker: when the text before the first
    ["[B4AccID:"] holds no marker and the id is not empty and holds no
    closing bracket, [b4_account_id] is that id, whatever surrounds the
    marker; [id] is the ["id"] of the response. *)
Theorem X11_account_marker_round_trip
    (data : AccountModel.AccountData) (pre i post : string) :
  AccountModel.d_comment data = Some (pre +:+ "[B4AccID:" +:+ i +:+ "]" +:+ post) →
  str_contains "[B4AccID:" pre = false → char_in "]" i = false → i ≠ "" →
  AccountModel.b4_account_id (AccountModel.from_api_response data) = Some i
  ∧ AccountModel.id (AccountModel.from_api_response data) = AccountModel.d_id data.
Proof.
  intros Hc Hpre Hi Hne. split; [|done].
  rewrite (from_api_response_marked data pre i post Hc Hpre Hi).
  apply String.eqb_neq in Hne. by rewrite Hne.
Qed.

Lemma X11_account_marker_round_trip_witness :
  AccountModel.b4_account_id (AccountModel.from_api_response Examples.account_giro)
    = Some "100"
  ∧ AccountModel.id (AccountModel.from_api_response Examples.account_giro) = "acc-1".
Proof.
  apply (X11_account_marker_round_trip Examples.account_giro "main " "100" " account");
    [reflexivity|reflexivity|reflexivity|discriminate].
Defined.

(** X12. [Account.from_api_response] sets no Banking4 account id when the
    comment is missing or holds no marker, when the marker is empty
    (["[B4AccID:]"]), and when no closing bracket follows the marker. *)
Theorem X12_account_marker_degenerate
    (data : AccountModel.AccountData) (pre rest : string) :
  (str_contains "[B4AccID:" (default "" (AccountModel.d_comment data)) = false →
     AccountModel.b4_account_id (AccountModel.from_api_response data) = None)
  ∧ (str_contains "[B4AccID:" pre = false →
     AccountModel.d_comment data = Some (pre +:+ "[B4AccID:" +:+ "]" +:+ rest) →
     AccountModel.b4_account_id (AccountModel.from_api_response data) = None)
  ∧ (str_contains "[B4AccID:" pre = false → char_in "]" rest = false →
     AccountModel.d_comment data = Some (pre +:+ "[B4AccID:" +:+ rest) →
     AccountModel.b4_account_id (AccountModel.from_api_response data) = None).
Proof.
  split_and!.
  - apply from_api_response_plain.
  - intros Hpre Hc.
    by rewrite (from_api_response_marked data pre "" rest Hc Hpre eq_refl).
  - intros Hpre Hr Hc. by apply (from_api_response_open data pre rest).
Qed.

Lemma X12_account_marker_degenerate_witness :
  AccountModel.b4_account_id (AccountModel.from_api_response Examples.account_cash) = None
  ∧ AccountModel.b4_account_id
      (AccountModel.from_api_response
         (AccountModel.mkAccountData "a" None (Some "x [B4AccID:] y"))) = None
  ∧ AccountModel.b4_account_id
      (AccountModel.from_api_response
         (AccountModel.mkAccountData "a" None (Some "x [B4AccID:100"))) = None.
Proof.
  split_and!.
  - exact (proj1 (X12_account_marker_degenerate Examples.account_cash "" "") eq_refl).
  - exact (proj1 (proj2 (X12_account_marker_degenerate
                           (AccountModel.mkAccountData "a" None (Some "x [B4AccID:] y"))
                           "x " " y")) eq_refl eq_refl).
  - exact (proj2 (proj2 (X12_account_marker_degenerate
                           (AccountModel.mkAccountData "a" None (Some "x [B4AccID:100"))
                           "x " "100")) eq_refl eq_refl eq_refl).
Defined.

(** X13. After [load_account_map] on a successful response, [has_account]
    holds exactly for the non-empty Banking4 ids that some account of the
    response carries, and [get_ezb_account_id] gives the id of the last
    account of the response that carries the Banking4 id: a later account
    overrides an earlier one.  On a response without ["success"] the method
    returns an empty dict and keeps the map it had. *)
Theorem X13_load_account_map (result : list AccountModel.AccountData)
    (old : gmap string string) :
  (∃ account_map,
     AccountModel.load_account_map (AccountModel.AccountsSuccess result) old
       = Returns (account_map, account_map)
     ∧ (∀ b, has_account account_map b = true
             ↔ ∃ a, a ∈ result
                    ∧ AccountModel.b4_account_id (AccountModel.from_api_response a) = Some b
                    ∧ b ≠ "")
     ∧ (∀ l1 a l2 b,
          result = l1 ++ a :: l2 →
          AccountModel.b4_account_id (AccountModel.from_api_response a) = Some b → b ≠ "" →
          (∀ a', a' ∈ l2 →
             AccountModel.b4_account_id (AccountModel.from_api_response a') ≠ Some b) →
          get_ezb_account_id account_map b = Some (AccountModel.d_id a)))
  ∧ AccountModel.load_account_map AccountModel.AccountsFailure old = Returns (∅, old).
Proof.
  split; [|done].
  exists (AccountModel.load_account_map_loop result ∅). split_and!; [done| |].
  - intros b. unfold has_account. rewrite bool_decide_eq_true, load_account_map_loop_dom.
    rewrite dom_empty. set_solver.
  - intros l1 a l2 b -> Ha Hb Hl2. by apply load_account_map_loop_last.
Qed.

Lemma X13_load_account_map_witness :
  ∃ account_map,
    AccountModel.load_account_map
      (AccountModel.AccountsSuccess
         [Examples.account_old; Examples.account_giro; Examples.account_cash]) ∅
    = Returns (account_map, account_map)
    ∧ get_ezb_account_id account_map "100" = Some "acc-1".
Proof.
  destruct (X13_load_account_map
              [Examples.account_old; Examples.account_giro; Examples.account_cash] ∅)
    as [(account_map & Hload & _ & Hlast) _].
  exists account_map. split; [exact Hload|].
  apply (Hlast [Examples.account_old] Examples.account_giro [Examples.account_cash] "100");
    [reflexivity|reflexivity|discriminate|].
  intros a' ->%list_elem_of_singleton. discriminate.
Defined.

(** ** Loading the categories *)

Section LoadingFacts.

Variable py_int : string → option Z.

Lemma load_categories_subs_dom c_type main subs cat_map key :
  key ∈ dom (load_categories_subs c_type (m_name main) subs cat_map)
  ↔ key ∈ dom cat_map ∨ ∃ sub, sub ∈ subs ∧ key = sub_key c_type main sub.
Proof.
  revert cat_map. induction subs as [|sub subs IH]; intros cat_map; cbn [load_categories_subs].
  { split; [auto|]. intros [?|(? & ?%elem_of_nil & _)]; done. }
  rewrite IH, dom_insert, elem_of_union, elem_of_singleton. unfold sub_key. split.
  - intros [[->|?]|(s & Hs & ->)]; [right; exists sub; split; [set_solver|done]|auto|].
    right. exists s. split; [set_solver|done].
  - intros [?|(s & [->|Hs]%elem_of_cons & ->)]; [auto|auto|]. right. eauto.
Qed.

Lemma load_categories_mains_dom c_type categories cat_map key :
  key ∈ dom (load_categories_mains c_type categories cat_map)
  ↔ key ∈ dom cat_map
    ∨ ∃ main, main ∈ categories
        ∧ (key = main_key c_type main
           ∨ ∃ sub, sub ∈ default [] (m_subCategories main) ∧ key = sub_key c_type main sub).
Proof.
  revert cat_map.
  induction categories as [|main rest IH]; intros cat_map; cbn [load_categories_mains].
  { split; [auto|]. intros [?|(? & ?%elem_of_nil & _)]; done. }
  cbv zeta. rewrite IH, load_categories_subs_dom, dom_insert, elem_of_union, elem_of_singleton.
  fold (main_key c_type main). split.
  - intros [[[->|?]|(s & Hs & ->)]|(m & Hm & H)].
    + right. exists main. split; [set_solver|auto].
    + auto.
    + right. exists main. split; [set_solver|eauto].
    + right. exists m. split; [set_solver|done].
  - intros [?|(m & [->|Hm]%elem_of_cons & H)]; [auto| |].
    + destruct H as [->|(s & Hs & ->)]; [auto|]. left. right. eauto.
    + right. eauto.
Qed.

Lemma load_categories_types_dom items cat_map loaded key :
  load_categories_types py_int items cat_map = Some loaded →
  key ∈ dom loaded ↔ key ∈ dom cat_map ∨ listed py_int items key.
Proof.
  revert cat_map.
  induction items as [|[t mains] items IH]; intros cat_map; cbn [load_categories_types].
  { intros [= <-]. split; [auto|]. intros [?|(?&?&?&?& ?%elem_of_nil &_)]; done. }
  destruct (py_int t) as [c|] eqn:Ht; [|done]. intros H.
  rewrite (IH _ H), load_categories_mains_dom. unfold listed. split.
  - intros [[?|(m & Hm & Hk)]|(t' & ms & c' & m & Hin & ? & ? & ?)]; [auto| |].
    + right. exists t, mains, c, m. split; [set_solver|done].
    + right. exists t', ms, c', m. split; [set_solver|done].
  - intros [?|(t' & ms & c' & m & [[= -> ->]|Hin]%elem_of_cons & Hc & Hm & Hk)]; [auto| |].
    + left. right. assert (c' = c) as -> by congruence. eauto.
    + right. exists t', ms, c', m. done.
Qed.

Lemma load_categories_types_None items cat_map :
  load_categories_types py_int items cat_map = None
  ↔ ∃ c_type_str categories, (c_type_str, categories) ∈ items ∧ py_int c_type_str = None.
Proof.
  revert cat_map.
  induction items as [|[t mains] items IH]; intros cat_map; cbn [load_categories_types].
  { split; [done|]. intros (?&?& ?%elem_of_nil &_). done. }
  destruct (py_int t) as [c|] eqn:Ht.
  - rewrite IH. split.
    + intros (t' & ms & Hin & ?). exists t', ms. split; [set_solver|done].
    + intros (t' & ms & [[= -> ->]|Hin]%elem_of_cons & ?); [congruence|eauto].
  - split; [|done]. intros _. exists t, mains. split; [set_solver|done].
Qed.

End LoadingFacts.

Section FinderFacts.

Variable py_int : string → option Z.

Lemma find_app {A} (p : A → bool) (l1 l2 : list A) :
  List.find p (l1 ++ l2) = match List.find p l1 with Some x => Some x | None => List.find p l2 end.
Proof. induction l1 as [|x l1 IH]; simpl; [done|]. by destruct (p x). Qed.

Lemma find_map {A B} (p : B → bool) (f : A → B) (l : list A) :
  List.find p (map f l) = f <$> List.find (λ x, p (f x)) l.
Proof. induction l as [|x l IH]; simpl; [done|]. by destruct (p (f x)). Qed.

Lemma find_none {A} (p : A → bool) (l : list A) :
  (∀ x, x ∈ l → p x = false) → List.find p l = None.
Proof.
  induction l as [|x l IH]; intros H; simpl; [done|].
  rewrite (H x) by set_solver. apply IH. intros; apply H; set_solver.
Qed.

Lemma find_transfer_subs_find t main subs :
  transfer_main main = true →
  _find_transfer_category_subs subs
  = s_id ∘ snd <$> List.find internal_candidate (map (λ sub, (t, main, sub)) subs).
Proof.
  intros Hm. induction subs as [|sub subs IH]; [done|].
  cbn [_find_transfer_category_subs map List.find].
  unfold internal_candidate at 1. cbn [fst snd]. rewrite Hm. cbn [andb].
  destruct (str_contains "bank" _ && str_contains "weisung" _); cbn [andb]; [|apply IH].
  destruct (negb _); [done|apply IH].
Qed.

Lemma find_transfer_mains_find t categories :
  _find_transfer_category_mains categories
  = s_id ∘ snd <$> List.find internal_candidate
      (flat_map (λ main, map (λ sub, (t, main, sub)) (default [] (m_subCategories main)))
                categories).
Proof.
  induction categories as [|main rest IH]; [done|].
  cbn [_find_transfer_category_mains flat_map]. rewrite find_app.
  fold (transfer_main main). destruct (transfer_main main) eqn:Hm.
  - rewrite (find_transfer_subs_find t main) by done.
    destruct (List.find internal_candidate (map _ _)) as [x|]; [done|]. simpl. apply IH.
  - rewrite find_none; [apply IH|].
    intros x (sub & -> & _)%list_elem_of_fmap. unfold internal_candidate. cbn [fst snd].
    by rewrite Hm.
Qed.

Lemma find_transfer_types_find result :
  _find_transfer_category_types result
  = s_id ∘ snd <$> List.find internal_candidate (visited result).
Proof.
  induction result as [|[t categories] rest IH]; [done|].
  cbn [_find_transfer_category_types visited flat_map]. rewrite find_app.
  rewrite (find_transfer_mains_find t).
  destruct (List.find internal_candidate (flat_map _ categories)) as [x|]; [done|].
  simpl. apply IH.
Qed.


Lemma find_external_subs_foldl t c_type main subs result :
  py_int t = Some c_type → transfer_main main = true →
  _find_external_subs c_type subs result
  = foldl (external_step py_int) result (map (λ sub, (t, main, sub)) subs).
Proof.
  intros Ht Hm. revert result. induction subs as [|sub subs IH]; intros result; [done|].
  cbn [_find_external_subs map foldl]. rewrite IH. f_equal.
  unfold external_step, external_candidate. cbn [fst snd]. rewrite Hm, Ht. cbn [andb].
  destruct (str_contains "extern" _ && str_contains "bank" _); cbn [andb]; [|done].
  destruct (c_type =? 1) eqn:H1.
  { apply Z.eqb_eq in H1 as ->. by rewrite bool_decide_eq_true_2. }
  apply Z.eqb_neq in H1. rewrite (bool_decide_eq_false_2 (Some c_type = Some 1)) by congruence.
  destruct (c_type =? 2) eqn:H2.
  { apply Z.eqb_eq in H2 as ->. by rewrite bool_decide_eq_true_2. }
  apply Z.eqb_neq in H2. by rewrite (bool_decide_eq_false_2 (Some c_type = Some 2)) by congruence.
Qed.

Lemma external_step_skip result x :
  transfer_main x.1.2 = false → external_step py_int result x = result.
Proof. intros H. unfold external_step, external_candidate. by rewrite H. Qed.

Lemma foldl_external_skip result l :
  (∀ x, x ∈ l → transfer_main x.1.2 = false) →
  foldl (external_step py_int) result l = result.
Proof.
  revert result. induction l as [|x l IH]; intros result H; [done|].
  cbn [foldl]. rewrite external_step_skip by (apply H; set_solver).
  apply IH. intros; apply H; set_solver.
Qed.

Lemma find_external_mains_foldl t c_type categories result :
  py_int t = Some c_type →
  _find_external_mains c_type categories result
  = foldl (external_step py_int) result
      (flat_map (λ main, map (λ sub, (t, main, sub)) (default [] (m_subCategories main)))
                categories).
Proof.
  intros Ht. revert result. induction categories as [|main rest IH]; intros result; [done|].
  cbn [_find_external_mains flat_map]. rewrite foldl_app.
  fold (transfer_main main). destruct (transfer_main main) eqn:Hm.
  - by rewrite IH, (find_external_subs_foldl t c_type main).
  - rewrite IH. f_equal. symmetry. apply foldl_external_skip.
    by intros x (sub & -> & _)%list_elem_of_fmap.
Qed.

Lemma find_external_types_foldl result found :
  (∀ c_type_str categories, (c_type_str, categories) ∈ result → is_Some (py_int c_type_str)) →
  _find_external_types py_int result found
  = Some (foldl (external_step py_int) found (visited result)).
Proof.
  revert found. induction result as [|[t categories] rest IH]; intros found Hint; [done|].
  cbn [_find_external_types visited flat_map].
  destruct (Hint t categories) as [c Hc]; [set_solver|]. rewrite Hc.
  rewrite foldl_app, IH by (intros t' ms Hin; apply (Hint t' ms); set_solver).
  by rewrite (find_external_mains_foldl t).
Qed.

Lemma find_external_types_None result found :
  _find_external_types py_int result found = None
  ↔ ∃ c_type_str categories, (c_type_str, categories) ∈ result ∧ py_int c_type_str = None.
Proof.
  revert found.
  induction result as [|[t mains] items IH]; intros found; cbn [_find_external_types].
  { split; [done|]. intros (?&?& ?%elem_of_nil &_). done. }
  destruct (py_int t) as [c|] eqn:Ht.
  - rewrite IH. split.
    + intros (t' & ms & Hin & ?). exists t', ms. split; [set_solver|done].
    + intros (t' & ms & [[= -> ->]|Hin]%elem_of_cons & ?); [congruence|eauto].
  - split; [|done]. intros _. exists t, mains. split; [set_solver|done].
Qed.

Lemma foldl_external_last found l :
  foldl (external_step py_int) found l
  = (default found.1 (s_id ∘ snd <$> List.find (external_candidate py_int 1) (rev l)),
     default found.2 (s_id ∘ snd <$> List.find (external_candidate py_int 2) (rev l))).
Proof.
  induction l as [|x l IH] using rev_ind; [by destruct found|].
  rewrite foldl_app, rev_app_distr. cbn [foldl rev app List.find]. rewrite IH.
  unfold external_step.
  destruct (external_candidate py_int 1 x) eqn:H1.
  - assert (external_candidate py_int 2 x = false) as ->; [|done].
    unfold external_candidate in *.
    apply andb_true_iff in H1 as [_ H1%bool_decide_eq_true].
    rewrite bool_decide_eq_false_2 by congruence. by rewrite andb_false_r.
  - by destruct (external_candidate py_int 2 x).
Qed.

End FinderFacts.

(** X14. A category that the remote lists is never created again: after a
    successful [load_categories], [ensure_category_hierarchy] on a path
    whose top-level key and, if the path has a second segment, sub-category
    key are keys of listed categories returns the loaded id of the deepest
    level and leaves the state as it is: no API call, no counter moves. *)
Theorem X14_listed_category_is_not_created
    (py_int : string → option Z) (result : list (string * list MainCategory))
    (cs : CategoryService) (loaded : gmap string string) (cs' : CategoryService)
    (full_path : string) (trans_type : Z) (st : State) :
  load_categories py_int (CategoriesSuccess result) cs = Returns (loaded, cs') →
  category_service st = cs' →
  full_path ≠ "" → full_path ≠ "Umbuchung" →
  listed py_int result (main_key_of full_path trans_type) →
  (∀ sub_name, sub_name_of full_path = Some sub_name →
     listed py_int result (sub_key_of full_path trans_type sub_name)) →
  ∃ cat_id,
    ensure_category_hierarchy full_path trans_type st = Some (cat_id, st)
    ∧ loaded !! match sub_name_of full_path with
                | Some sub_name => sub_key_of full_path trans_type sub_name
                | None => main_key_of full_path trans_type
                end = Some cat_id.
Proof.
  unfold load_categories.
  destruct (load_categories_types py_int result ∅) as [m|] eqn:Hload; [|done].
  intros [= <- <-] Hcs Hne Hnu Hmain Hsub.
  assert (∀ key, listed py_int result key → is_Some (m !! key)) as Hdom.
  { intros key Hk. apply elem_of_dom. rewrite (load_categories_types_dom _ _ _ _ key Hload).
    by right. }
  destruct (Hdom _ Hmain) as [top_id Htop].
  pose proof (ensure_category_hierarchy_cached full_path trans_type st top_id Hne Hnu) as Hc.
  rewrite Hcs in Hc. specialize (Hc Htop).
  destruct (sub_name_of full_path) as [sub_name|].
  - destruct (Hdom _ (Hsub sub_name eq_refl)) as [sub_id Hs]. eauto.
  - eauto.
Qed.

(** The listing holds "Essen" with its sub-category "Restaurant" as an
    expense category: the path is served from the loaded map. *)
Lemma X14_listed_category_is_not_created_witness :
  load_categories Examples.sample_int (CategoriesSuccess Examples.listing)
    Samples.service_empty
  = Returns (Examples.listing_loaded,
             mkCategoryService Examples.listing_loaded "0" ("0", "0"))
  ∧ ensure_category_hierarchy "Essen:Restaurant" 3
      (Examples.state_loaded Examples.listing_loaded)
    = Some ("s2", Examples.state_loaded Examples.listing_loaded).
Proof.
  assert (load_categories Examples.sample_int (CategoriesSuccess Examples.listing)
            Samples.service_empty
          = Returns (Examples.listing_loaded,
                     mkCategoryService Examples.listing_loaded "0" ("0", "0"))) as Hload.
  { reflexivity. }
  split; [exact Hload|].
  assert (listed Examples.sample_int Examples.listing (main_key_of "Essen:Restaurant" 3))
    as Hmain.
  { exists "2", Examples.listing_expense, 2, Examples.category_essen.
    split_and!.
    - apply elem_of_cons. right. apply elem_of_cons. by left.
    - reflexivity.
    - apply elem_of_cons. by left.
    - left. vm_compute. reflexivity. }
  assert (∀ sub_name, sub_name_of "Essen:Restaurant" = Some sub_name →
            listed Examples.sample_int Examples.listing
              (sub_key_of "Essen:Restaurant" 3 sub_name)) as Hsub.
  { intros sub_name Hs.
    assert (sub_name = "Restaurant") as ->.
    { vm_compute in Hs. by injection Hs as <-. }
    exists "2", Examples.listing_expense, 2, Examples.category_essen.
    split_and!.
    - apply elem_of_cons. right. apply elem_of_cons. by left.
    - reflexivity.
    - apply elem_of_cons. by left.
    - right. exists (mkSub "Restaurant" "s2"). split.
      + apply elem_of_cons. by left.
      + vm_compute. reflexivity. }
  destruct (X14_listed_category_is_not_created Examples.sample_int Examples.listing
              Samples.service_empty Examples.listing_loaded
              (mkCategoryService Examples.listing_loaded "0" ("0", "0"))
              "Essen:Restaurant" 3 (Examples.state_loaded Examples.listing_loaded)
              Hload eq_refl ltac:(discriminate) ltac:(discriminate) Hmain Hsub)
    as (cat_id & Hrun & Hid).
  assert (Examples.listing_loaded
            !! match sub_name_of "Essen:Restaurant" with
               | Some sub_name => sub_key_of "Essen:Restaurant" 3 sub_name
               | None => main_key_of "Essen:Restaurant" 3
               end = Some "s2") as Hs2.
  { vm_compute. reflexivity. }
  rewrite Hs2 in Hid. injection Hid as <-. exact Hrun.
Defined.

(** X15. After a successful [load_categories] the category map holds
    exactly the keys of the listed categories: what the map held before is
    dropped.  The call raises exactly when the text of some category type
    of the response is not an [int].  On a response without ["success"] the
    method returns an empty dict and keeps the map it had. *)
Theorem X15_loaded_keys
    (py_int : string → option Z) (result : list (string * list MainCategory))
    (cs : CategoryService) :
  (∀ loaded cs',
     load_categories py_int (CategoriesSuccess result) cs = Returns (loaded, cs') →
     _category_map cs' = loaded
     ∧ _transfer_category_id cs' = _transfer_category_id cs
     ∧ _external_transfer_cats cs' = _external_transfer_cats cs
     ∧ ∀ key, key ∈ dom loaded ↔ listed py_int result key)
  ∧ (load_categories py_int (CategoriesSuccess result) cs = Raises
     ↔ ∃ c_type_str categories,
         (c_type_str, categories) ∈ result ∧ py_int c_type_str = None)
  ∧ load_categories py_int CategoriesFailure cs = Returns (∅, cs).
Proof.
  split_and!; [| |done].
  - intros loaded cs'. unfold load_categories.
    destruct (load_categories_types py_int result ∅) as [m|] eqn:Hload; [|done].
    intros [= <- <-]. split_and!; [done..|].
    intros key. rewrite (load_categories_types_dom _ _ _ _ key Hload), dom_empty.
    set_solver.
  - rewrite <- (load_categories_types_None py_int result ∅). unfold load_categories.
    by destruct (load_categories_types py_int result ∅).
Qed.

Lemma X15_loaded_keys_witness :
  ∃ loaded cs',
    load_categories Examples.sample_int (CategoriesSuccess Examples.listing)
      (mkCategoryService {[ "2_Alt" := "x" ]} "0" ("0", "0")) = Returns (loaded, cs')
    ∧ _category_map cs' = loaded
    ∧ ("2_Alt" ∈ dom loaded ↔ listed Examples.sample_int Examples.listing "2_Alt").
Proof.
  destruct (load_categories Examples.sample_int (CategoriesSuccess Examples.listing)
              (mkCategoryService {[ "2_Alt" := "x" ]} "0" ("0", "0")))
    as [[loaded cs']|] eqn:Hload; [|discriminate (eq_sym Hload)].
  destruct (proj1 (X15_loaded_keys Examples.sample_int Examples.listing
                     (mkCategoryService {[ "2_Alt" := "x" ]} "0" ("0", "0")))
              loaded cs' Hload) as (Hmap & _ & _ & Hkeys).
  exists loaded, cs'. split_and!; [reflexivity|exact Hmap|exact (Hkeys "2_Alt")].
Defined.

(** X16. [_find_transfer_category] returns the id of the first
    sub-category, in the order of the response, whose top-level category
    has "allgemein" and "transfer" in its lower-cased name and whose own
    lower-cased name has "bank" and "weisung" but not "extern"; it returns
    "0" when there is none.  [load_transfer_categories] stores that id as
    [transfer_category_id], even when its second API call raises
    afterwards, and never touches the category map. *)
Theorem X16_transfer_category_is_first_candidate
    (py_int : string → option Z) (result : list (string * list MainCategory))
    (resp2 : categories_response) (cs : CategoryService) :
  _find_transfer_category (CategoriesSuccess result)
    = Returns (found_id (List.find internal_candidate (visited result)))
  ∧ _transfer_category_id (load_transfer_categories py_int (CategoriesSuccess result) resp2 cs).2
    = found_id (List.find internal_candidate (visited result))
  ∧ _category_map (load_transfer_categories py_int (CategoriesSuccess result) resp2 cs).2
    = _category_map cs.
Proof.
  assert (_find_transfer_category (CategoriesSuccess result)
          = Returns (found_id (List.find internal_candidate (visited result)))) as Hfind.
  { unfold _find_transfer_category, found_id. by rewrite find_transfer_types_find. }
  split; [exact Hfind|].
  unfold load_transfer_categories. rewrite Hfind.
  by destruct (_find_external_transfer_categories py_int resp2).
Qed.

(** X17. When the text of every category type of the response is an
    [int], [_find_external_transfer_categories] returns, for income (type
    1) and for expense (type 2), the id of the last sub-category of that
    type, in the order of the response, whose top-level category has
    "allgemein" and "transfer" in its lower-cased name and whose own
    lower-cased name has "extern" and "bank"; "0" when there is none.  It
    raises as soon as the text of one category type is not an [int],
    wherever the candidates are. *)
Theorem X17_external_categories_are_last_candidates
    (py_int : string → option Z) (result : list (string * list MainCategory)) :
  ((∀ c_type_str categories,
      (c_type_str, categories) ∈ result → is_Some (py_int c_type_str)) →
   _find_external_transfer_categories py_int (CategoriesSuccess result)
   = Returns (found_id (List.find (external_candidate py_int 1) (rev (visited result))),
              found_id (List.find (external_candidate py_int 2) (rev (visited result)))))
  ∧ ((∃ c_type_str categories,
        (c_type_str, categories) ∈ result ∧ py_int c_type_str = None) →
     _find_external_transfer_categories py_int (CategoriesSuccess result) = Raises).
Proof.
  split.
  - intros Hint. unfold _find_external_transfer_categories.
    rewrite find_external_types_foldl by done. by rewrite foldl_external_last.
  - intros Hbad. unfold _find_external_transfer_categories.
    by rewrite (proj2 (find_external_types_None py_int result ("0", "0")) Hbad).
Qed.

(** The expense side of the sample listing has two external candidates:
    the later one is kept. *)
Lemma X17_external_categories_are_last_candidates_witness :
  _find_external_transfer_categories Examples.sample_int (CategoriesSuccess Examples.listing)
  = Returns ("s1", "s5").
Proof.
  apply (proj1 (X17_external_categories_are_last_candidates
                  Examples.sample_int Examples.listing)).
  intros t categories Hin.
  apply elem_of_cons in Hin as [[= -> _]|Hin]; [by eexists|].
  apply list_elem_of_singleton in Hin as [= -> _]. by eexists.
Defined.

(** ** The depth of a category path *)

Lemma path_parts_two (a b : string) :
  char_in ":" a = false → char_in ":" b = false →
  path_parts (a +:+ ":" +:+ b) = [strip a; strip b].
Proof.
  intros Ha Hb. unfold path_parts.
  rewrite str_split_first; [|done|by apply occurs_within_single].
  by rewrite str_split_none by by rewrite contains_single.
Qed.

Lemma path_parts_three (a b c : string) :
  char_in ":" a = false → char_in ":" b = false →
  ∃ more, path_parts (a +:+ ":" +:+ b +:+ ":" +:+ c) = strip a :: strip b :: more.
Proof.
  intros Ha Hb. unfold path_parts.
  rewrite str_split_first; [|done|by apply occurs_within_single].
  rewrite str_split_first; [|done|by apply occurs_within_single].
  simpl. eauto.
Qed.

Lemma colon_path_special (a rest : string) :
  a +:+ ":" +:+ rest ≠ "" ∧ a +:+ ":" +:+ rest ≠ "Umbuchung".
Proof.
  assert (char_in ":" (a +:+ ":" +:+ rest) = true) as H.
  { rewrite char_in_append. change (":" +:+ rest) with (String ":" rest).
    simpl. by rewrite orb_true_r. }
  split; intros Heq; by rewrite Heq in H.
Qed.

(** X18. [ensure_category_hierarchy] never goes deeper than two levels:
    a path with three or more segments is handled exactly like the path of
    its first two segments, whatever the state and the answers of the
    remote. *)
Theorem X18_category_path_depth (a b c : string) (trans_type : Z) (st : State) :
  char_in ":" a = false → char_in ":" b = false →
  ensure_category_hierarchy (a +:+ ":" +:+ b +:+ ":" +:+ c) trans_type st
  = ensure_category_hierarchy (a +:+ ":" +:+ b) trans_type st.
Proof.
  intros Ha Hb.
  destruct (colon_path_special a (b +:+ ":" +:+ c)) as [H1 H2].
  destruct (colon_path_special a b) as [H3 H4].
  rewrite !ensure_category_hierarchy_eq by done.
  destruct (path_parts_three a b c Ha Hb) as [more H5].
  pose proof (path_parts_two a b Ha Hb) as H6.
  unfold main_key_of, sub_key_of, main_name_of, sub_name_of. by rewrite H5, H6.
Qed.

Lemma X18_category_path_depth_witness :
  ensure_category_hierarchy "Essen:Restaurant:Pizza" 3 Samples.state_accepting
  = ensure_category_hierarchy "Essen:Restaurant" 3 Samples.state_accepting.
Proof.
  apply (X18_category_path_depth "Essen" "Restaurant" "Pizza" 3 Samples.state_accepting);
    reflexivity.
Defined.

(** ** The configuration *)

(** X19. [Config.from_args] cannot supply the API token: it loads the
    environment first, so when [BAEZI_API_TOKEN] is unset or empty it
    raises whatever its arguments are, the [api_token] argument included. *)
Theorem X19_token_must_be_in_environment
    (environ : gmap string string) (py_int : string → option Z)
    (api_url api_token json_folder min_date log_level : option string) :
  environ !! "BAEZI_API_TOKEN" = None ∨ environ !! "BAEZI_API_TOKEN" = Some "" →
  Settings.from_env environ py_int = None
  ∧ Settings.from_args environ py_int api_url api_token json_folder min_date log_level = None.
Proof.
  intros H.
  assert (Settings.from_env environ py_int = None) as Henv.
  { unfold Settings.from_env, Settings.getenv. by destruct H as [-> | ->]. }
  split; [exact Henv|]. unfold Settings.from_args. by rewrite Henv.
Qed.

Lemma X19_token_must_be_in_environment_witness :
  Settings.from_args ∅ Examples.sample_int None (Some "secret") None None None = None.
Proof.
  apply (X19_token_must_be_in_environment ∅ Examples.sample_int
           None (Some "secret") None None None).
  left. reflexivity.
Defined.

Section SettingsFacts.

Variable environ : gmap string string.
Variable py_int : string → option Z.
Variable path_exists : string → bool.
Variable strptime : string → option Z.

Lemma truthy_nonempty (x : option string) :
  Settings.truthy x = true → default "" x ≠ "".
Proof.
  destruct x as [s|]; [|done]. simpl. intros H. apply String.eqb_neq.
  by destruct (String.eqb s "").
Qed.

Lemma from_env_Some (base : Settings.Config) :
  Settings.from_env environ py_int = Some base →
  Settings.api_token base ≠ ""
  ∧ py_int (default "50" (environ !! "BAEZI_PAGE_SIZE")) = Some (Settings.page_size base)
  ∧ py_int (default "3" (environ !! "BAEZI_TRANSFER_TOLERANCE_DAYS"))
    = Some (Settings.transfer_tolerance_days base).
Proof.
  unfold Settings.from_env, Settings.getenv_default, Settings.getenv.
  destruct (Settings.truthy (environ !! "BAEZI_API_TOKEN")) eqn:Htok; [|done].
  cbn [negb].
  destruct (py_int (default "50" (environ !! "BAEZI_PAGE_SIZE"))) as [ps|]; [|done].
  destruct (py_int (default "3" (environ !! "BAEZI_TRANSFER_TOLERANCE_DAYS"))) as [td|];
    [|done].
  intros [= <-]. split_and!; [|done|done]. by apply truthy_nonempty.
Qed.

Lemma from_args_Some (api_url api_token json_folder min_date log_level : option string)
    (c : Settings.Config) :
  Settings.from_args environ py_int api_url api_token json_folder min_date log_level
    = Some c →
  ∃ base,
    Settings.from_env environ py_int = Some base
    ∧ Settings.api_token c
      = (if Settings.truthy api_token then default "" api_token
         else Settings.api_token base)
    ∧ Settings.page_size c = Settings.page_size base
    ∧ Settings.transfer_tolerance_days c = Settings.transfer_tolerance_days base.
Proof.
  unfold Settings.from_args.
  destruct (Settings.from_env environ py_int) as [base|]; [|done].
  intros [= <-]. exists base. split; [done|].
  by destruct (Settings.truthy api_url), (Settings.truthy api_token),
              (Settings.truthy json_folder), (Settings.truthy min_date),
              (Settings.truthy log_level).
Qed.

Lemma validate_Some (c : Settings.Config) :
  Settings.api_token c ≠ "" →
  Settings.validate path_exists strptime c = Some tt
  ↔ path_exists (Settings.json_folder c) = true
    ∧ is_Some (strptime (Settings.min_booking_date c)).
Proof.
  intros Htok%String.eqb_neq. unfold Settings.validate. rewrite Htok.
  destruct (path_exists (Settings.json_folder c)); cbn [negb].
  - destruct (strptime (Settings.min_booking_date c)) as [d|].
    + split; [by eauto|done].
    + split; [done|]. by intros [_ [? ?]].
  - split; [done|]. by intros [? _].
Qed.

End SettingsFacts.

(** X20. A configuration that [Config.from_args] returns has a non-empty
    API token, so that the token check of [validate] cannot fail on it:
    [validate] accepts it exactly when the export folder exists and the
    minimum booking date parses.  Its page size and its transfer tolerance
    come from the environment alone. *)
Theorem X20_from_args_then_validate
    (environ : gmap string string) (py_int : string → option Z)
    (path_exists : string → bool) (strptime : string → option Z)
    (api_url api_token json_folder min_date log_level : option string)
    (c : Settings.Config) :
  Settings.from_args environ py_int api_url api_token json_folder min_date log_level
    = Some c →
  Settings.api_token c ≠ ""
  ∧ (Settings.validate path_exists strptime c = Some tt
     ↔ path_exists (Settings.json_folder c) = true
       ∧ is_Some (strptime (Settings.min_booking_date c)))
  ∧ py_int (default "50" (environ !! "BAEZI_PAGE_SIZE")) = Some (Settings.page_size c)
  ∧ py_int (default "3" (environ !! "BAEZI_TRANSFER_TOLERANCE_DAYS"))
    = Some (Settings.transfer_tolerance_days c).
Proof.
  intros (base & Henv & Htok & Hps & Htd)%from_args_Some.
  apply from_env_Some in Henv as (Hbase & Hps' & Htd').
  assert (Settings.api_token c ≠ "") as Hne.
  { rewrite Htok. destruct (Settings.truthy api_token) eqn:Ht; [|done].
    by apply truthy_nonempty. }
  split_and!; [done|by apply validate_Some|by rewrite Hps|by rewrite Htd].
Qed.

(** The token comes from the environment, the minimum date from the
    command line; the folder exists. *)
Lemma X20_from_args_then_validate_witness :
  ∃ c,
    Settings.from_args Examples.environ_token Examples.sample_int
      None None (Some "/exports") (Some "2024-02-01") None = Some c
    ∧ Settings.api_token c = "secret"
    ∧ Settings.page_size c = 50
    ∧ Settings.validate (λ _, true) Samples.sample_strptime c = Some tt.
Proof.
  destruct (Settings.from_args Examples.environ_token Examples.sample_int
              None None (Some "/exports") (Some "2024-02-01") None) as [c|] eqn:Hc;
    [|discriminate (eq_sym Hc)].
  destruct (X20_from_args_then_validate Examples.environ_token Examples.sample_int
              (λ _, true) Samples.sample_strptime
              None None (Some "/exports") (Some "2024-02-01") None c Hc)
    as (_ & Hval & _).
  assert (Settings.api_token c = "secret"
          ∧ Settings.min_booking_date c = "2024-02-01"
          ∧ Settings.page_size c = 50) as (Htok & Hdate & Hps).
  { vm_compute in Hc. injection Hc as <-. split_and!; reflexivity. }
  exists c. split_and!; [reflexivity|exact Htok|exact Hps|].
  apply Hval. split; [reflexivity|]. rewrite Hdate. by eexists.
Defined.
